(** * smallsh: a shallow embedding of [src/main.c]

    The interpreter is one C function, [runShell], called for ever by
    [main].  It is embedded here as a function in a small monad that
    threads the process-wide variables of the program and the kernel's
    table of children, emits the externally visible actions of the
    iteration (what is printed, which system calls are made) and
    records how the C function was left: by falling off its end, by an
    early [return], by [exit], or by an operation the C language leaves
    undefined.

    Conventions.
    - A C [int] is a [Z]; an index that the source lets become negative
      ([i], [argIndex], [z]) is a [Z] as well.
    - The line buffer is a [list ascii] holding the bytes of the
      allocation, NUL terminator included; the C string it denotes is
      its prefix up to the first NUL ([cstr]).
    - A token is a [string].
    - What the program cannot determine itself (what [getline] delivers,
      the pid, the content of an uninitialised local, what the kernel
      says about a child) comes from an [oracle] record, one per
      iteration. *)

From Stdlib Require Import ZArith List String Ascii Lia Bool DecimalString.
Import ListNotations.
Open Scope Z_scope.

(** ** Text *)

Module Text.

Definition NUL : ascii := Ascii.zero.
Definition LF : ascii := "010"%char.
Definition TAB : ascii := "009"%char.
Definition SPACE : ascii := " "%char.
Definition DOLLAR : ascii := "$"%char.
Definition PERCENT : ascii := "%"%char.
Definition HASH : ascii := "#"%char.

(** The C string stored in a buffer: the bytes before the first NUL. *)
Fixpoint cstr (buf : list ascii) : list ascii :=
  match buf with
  | [] => []
  | c :: t => if Ascii.eqb c NUL then [] else c :: cstr t
  end.

Definition strlen (buf : list ascii) : nat := List.length (cstr buf).

(** [printf("%d", v)]. *)
Definition dec (v : Z) : string := NilZero.string_of_int (Z.to_int v).

(** Storing [x] at index [n] of an array; the caller checks the bound. *)
Fixpoint update {A : Type} (n : nat) (x : A) (l : list A) : list A :=
  match l, n with
  | [], _ => []
  | _ :: t, O => x :: t
  | h :: t, S n' => h :: update n' x t
  end.

(** Writing the bytes [src] at the start of the allocation [buf];
    [None] when they do not fit. *)
Fixpoint overwrite (src buf : list ascii) : option (list ascii) :=
  match src, buf with
  | [], _ => Some buf
  | _ :: _, [] => None
  | c :: src', _ :: buf' => option_map (cons c) (overwrite src' buf')
  end.

(** [sprintf] on the formats the expansion can build, with the single
    [int] argument the call passes ([arg] is [None] once it has been
    consumed).  [%d] prints the argument, [%%] prints a percent sign.
    Every other directive is left undefined here: with one [int]
    argument, [%s], [%n], a second [%d] and the like are undefined in C,
    and the remaining ones (widths, flags) are outside this model. *)
Fixpoint sprintf (fmt : list ascii) (arg : option Z) : option (list ascii) :=
  match fmt with
  | [] => Some []
  | c :: t =>
      if Ascii.eqb c PERCENT then
        match t with
        | [] => None
        | d :: t' =>
            if Ascii.eqb d "d"%char then
              match arg with
              | Some v =>
                  option_map (app (list_ascii_of_string (dec v))) (sprintf t' None)
              | None => None
              end
            else if Ascii.eqb d PERCENT then option_map (cons PERCENT) (sprintf t' arg)
            else None
        end
      else option_map (cons c) (sprintf t arg)
  end.

(** [strchr(line, '\n')] followed by [*newline = 0] (lines 151-153). *)
Fixpoint chomp (buf : list ascii) : list ascii :=
  match buf with
  | [] => []
  | c :: t =>
      if Ascii.eqb c NUL then buf
      else if Ascii.eqb c LF then NUL :: t
      else c :: chomp t
  end.

End Text.
Import Text.

(** ** Variable expansion (lines 157-171) *)

Module Expand.

(** The body of the [else if] branch: duplicate the line, put [%d] over
    the bytes at [i-1] and [i] of the duplicate, and print the duplicate
    as a format into [line].  [strdup] allocates [strlen line + 1]
    bytes, so the two stores are in bounds only when [i] is inside the
    current string; the result of [sprintf], with its terminator, must
    fit the allocation that [getline] made. *)
Definition replace_at (pid : Z) (line : list ascii) (i : nat) : option (list ascii) :=
  match i with
  | O => None
  | S i1 =>
      if (i <? strlen line)%nat then
        let lineDup := update i "d"%char (update i1 PERCENT (cstr line)) in
        match sprintf lineDup (Some pid) with
        | Some printed => overwrite (printed ++ [NUL]) line
        | None => None
        end
      else None
  end.

(** One iteration of the [for] loop, on the pair ([line], [expand]).
    The index stays below [nread], inside the allocation. *)
Definition step (pid : Z) (acc : option (list ascii * Z)) (i : nat)
  : option (list ascii * Z) :=
  match acc with
  | None => None
  | Some (line, expand) =>
      match nth_error line i with
      | None => None
      | Some c =>
          if Ascii.eqb c DOLLAR && (expand =? 0) then Some (line, 1)
          else if Ascii.eqb c DOLLAR && (expand =? 1) then
            option_map (fun l => (l, 0)) (replace_at pid line i)
          else Some (line, expand)
      end
  end.

(** [for (int i = 0; i < nread; i++)]. *)
Definition expansion (pid : Z) (nread : nat) (line : list ascii) : option (list ascii) :=
  option_map fst (fold_left (step pid) (seq 0 nread) (Some (line, 0))).

End Expand.

(** What [getline] leaves in memory for the bytes [bytes] it read:
    the bytes, a terminator, and the rest of the allocation. *)
Definition getline_buffer (bytes slack : list ascii) : list ascii :=
  bytes ++ [NUL] ++ slack.

(** Lines 142-171 on the bytes read: the expanded command line as a C
    string, or [None] where the expansion is undefined. *)
Definition expanded_line (pid : Z) (bytes slack : list ascii) : option string :=
  option_map (fun l => string_of_list_ascii (cstr l))
    (Expand.expansion pid (List.length bytes) (chomp (getline_buffer bytes slack))).

Definition bytes_of (s : string) : list ascii := list_ascii_of_string s ++ [LF].
Definition room (n : nat) : list ascii := repeat NUL n.

(** ** Tokens (lines 174-198) *)

Module Tokens.

Definition is_delim (delims : list ascii) (c : ascii) : bool :=
  existsb (Ascii.eqb c) delims.

Fixpoint skip_delims (delims s : list ascii) : list ascii :=
  match s with
  | [] => []
  | c :: t => if is_delim delims c then skip_delims delims t else s
  end.

(** The token at the head of [s] and the text after the delimiter that
    ended it, where [strtok] resumes. *)
Fixpoint cut (delims s : list ascii) : list ascii * list ascii :=
  match s with
  | [] => ([], [])
  | c :: t =>
      if is_delim delims c then ([], t)
      else let (tok, rest) := cut delims t in (c :: tok, rest)
  end.

(** [strtok]: skip delimiters, then cut a token; [None] is C's NULL.
    The hidden cursor of the C function is the second component. *)
Definition strtok (delims s : list ascii) : option (list ascii * list ascii) :=
  match skip_delims delims s with
  | [] => None
  | s' => Some (cut delims s')
  end.

(** The calls [strtok(NULL, " ")] of line 196, repeated until NULL. *)
Fixpoint more_tokens (fuel : nat) (rest : list ascii) : list string :=
  match fuel with
  | O => []
  | S fuel' =>
      match strtok [SPACE] rest with
      | None => []
      | Some (tok, rest') => string_of_list_ascii tok :: more_tokens fuel' rest'
      end
  end.

(** The tokens the [while] loop receives, in order: the first from
    [strtok(line, " \t")] (line 174), the others from
    [strtok(NULL, " ")] (line 196).  [strtok] touches nothing but the
    line and its own cursor, so the stream is collected first and the
    body of the loop runs over it ([scan]). *)
Definition token_stream (line : string) : list string :=
  match strtok [SPACE; TAB] (list_ascii_of_string line) with
  | None => []
  | Some (tok, rest) =>
      string_of_list_ascii tok :: more_tokens (List.length rest) rest
  end.

Definition first_char_is (c : ascii) (s : string) : bool :=
  match s with
  | EmptyString => false
  | String d _ => Ascii.eqb d c
  end.

Definition NO_REDIRECT : Z := 1000.

Inductive scanned : Type :=
| Skip
| TooMany
| Args (arguments : list string) (argIndex : Z).

(** The body of the [while] loop, token by token.  [arguments] holds the
    tokens stored so far, so the loop index [i] is its length; the array
    has 512 entries.  The test of line 185 repeats the one of line 180. *)
Fixpoint scan (tokens arguments : list string) (argIndex : Z) : scanned :=
  match tokens with
  | [] => Args arguments argIndex
  | token :: more =>
      let i := Z.of_nat (List.length arguments) in
      if 512 <=? i then TooMany
      else if first_char_is HASH token && (i =? 0) then Skip
      else
        let argIndex' :=
          if String.eqb token "<" || String.eqb token ">" then
            if argIndex =? NO_REDIRECT then i - 1 else argIndex
          else argIndex in
        scan more (arguments ++ [token]) argIndex'
  end.

End Tokens.
Import Tokens.

(** ** The command structure (lines 23-29, 108-115, 200-241) *)

Record command : Type := Command {
  args : list (option string);   (* 512 pointers, [None] is NULL *)
  input : string;
  output : string;
  background : Z;
  numArgs : Z
}.

Module Build.

(** [strcpy] into a [char[128]] member. *)
Definition strcpy128 (src : string) : option string :=
  if (String.length src <? 128)%nat then Some src else None.

Definition is_amp (tok : option string) : bool :=
  match tok with
  | Some t => String.eqb t "&"
  | None => false
  end.

(** The body of the loop of lines 222-229. *)
Definition copy_arg (arguments : list string) (i : Z)
           (cargs : list (option string)) (j : nat) : list (option string) :=
  if (i =? Z.of_nat j) && is_amp (nth_error arguments (Z.to_nat i)) then cargs
  else update j (nth_error arguments j) cargs.

(** The body of the loop of lines 232-241, on ([com.input], [com.output]). *)
Definition redirect (arguments : list string)
           (acc : option (string * string)) (j : nat) : option (string * string) :=
  match acc with
  | None => None
  | Some (inp, out) =>
      let tok := nth j arguments EmptyString in
      let next := nth (S j) arguments EmptyString in
      match (if String.eqb tok "<" then strcpy128 next else Some inp) with
      | None => None
      | Some inp' =>
          match (if String.eqb tok ">" then strcpy128 next else Some out) with
          | None => None
          | Some out' => Some (inp', out')
          end
      end
  end.

(** Lines 200-241.  [i] is the index of the last token after [i--].
    With no token at all it is -1 and line 202 reads [arguments[-1]],
    outside the array: [stray] is the string that slot happens to point
    to, [None] when it points to nothing readable. *)
Definition build (stray : option string) (arguments : list string) (argIndex : Z)
  : option command :=
  let i := Z.of_nat (List.length arguments) - 1 in
  let last := if i <? 0 then stray else nth_error arguments (Z.to_nat i) in
  match last with
  | None => None
  | Some _ =>
      let z := if argIndex =? NO_REDIRECT then i else argIndex in
      let cargs := fold_left (copy_arg arguments i)
                             (seq 0 (Z.to_nat (z + 1))) (repeat None 512) in
      match fold_left (redirect arguments) (seq 0 (Z.to_nat i))
                      (Some (EmptyString, EmptyString)) with
      | None => None
      | Some (inp, out) =>
          Some {| args := cargs;
                  input := inp;
                  output := out;
                  background := if is_amp last then 1 else 0;
                  numArgs := z + 1 |}
      end
  end.

End Build.
Import Build.

(** The vector [execvp] receives: the entries of [com.args] before the
    first NULL. *)
Fixpoint argv (cargs : list (option string)) : list string :=
  match cargs with
  | Some a :: t => a :: argv t
  | _ => []
  end.

(** From the tokens of a line to the structure, as [runShell] does. *)
Inductive parsed : Type :=
| IsComment
| Undefined
| Built (com : command).

Definition parse_tokens (stray : option string) (tokens : list string) : parsed :=
  match scan tokens [] NO_REDIRECT with
  | Skip => IsComment
  | TooMany => Undefined
  | Args arguments argIndex =>
      match build stray arguments argIndex with
      | None => Undefined
      | Some com => Built com
      end
  end.


(** ** The process and the kernel's view of its children *)

(** A child the kernel still knows: running, or terminated and not yet
    waited for, with the status [waitpid] will deliver. *)
Inductive pstate : Type :=
| Running
| Zombie (status : Z).

(** The file-scope variables of lines 16-20, and the children. *)
Record state : Type := State {
  foregroundOnly : Z;
  sigTSTPChange : Z;
  lfStatus : Z;
  bgStatus : Z;
  bgRunning : list Z;
  children : list (Z * pstate)
}.

Definition NEVER_RUN : Z := -1234.

Definition initial : state :=
  {| foregroundOnly := 0;
     sigTSTPChange := 0;
     lfStatus := NEVER_RUN;
     bgStatus := 0;
     bgRunning := repeat 0 1000;
     children := [] |}.

Definition set_foregroundOnly (v : Z) (s : state) : state :=
  State v (sigTSTPChange s) (lfStatus s) (bgStatus s) (bgRunning s) (children s).
Definition set_sigTSTPChange (v : Z) (s : state) : state :=
  State (foregroundOnly s) v (lfStatus s) (bgStatus s) (bgRunning s) (children s).
Definition set_lfStatus (v : Z) (s : state) : state :=
  State (foregroundOnly s) (sigTSTPChange s) v (bgStatus s) (bgRunning s) (children s).
Definition set_bgStatus (v : Z) (s : state) : state :=
  State (foregroundOnly s) (sigTSTPChange s) (lfStatus s) v (bgRunning s) (children s).
Definition set_bgRunning (v : list Z) (s : state) : state :=
  State (foregroundOnly s) (sigTSTPChange s) (lfStatus s) (bgStatus s) v (children s).
Definition set_children (v : list (Z * pstate)) (s : state) : state :=
  State (foregroundOnly s) (sigTSTPChange s) (lfStatus s) (bgStatus s) (bgRunning s) v.

(** [tstpHandler] (lines 66-76). *)
Definition tstpHandler (s : state) : state :=
  set_sigTSTPChange 1
    (if foregroundOnly s =? 0 then set_foregroundOnly 1 s else set_foregroundOnly 0 s).

(** The macros of [<sys/wait.h>] as Linux defines them. *)
Module Wait.

Definition WTERMSIG (status : Z) : Z := Z.land status 127.
Definition WEXITSTATUS (status : Z) : Z := Z.shiftr (Z.land status 65280) 8.
Definition WIFEXITED (status : Z) : bool := WTERMSIG status =? 0.
Definition signed_char (v : Z) : Z :=
  let b := Z.land v 255 in if 128 <=? b then b - 256 else b.
Definition WIFSIGNALED (status : Z) : bool :=
  0 <? Z.shiftr (signed_char (Z.land status 127 + 1)) 1.

(** The status of a child that called [exit(code)], and of one killed
    by signal [sig]. *)
Definition exited_with (code : Z) : Z := Z.shiftl (Z.land code 255) 8.
Definition killed_by (sig : Z) : Z := sig.

End Wait.
Import Wait.

Module Kernel.

Fixpoint lookup (pid : Z) (t : list (Z * pstate)) : option pstate :=
  match t with
  | [] => None
  | (p, st) :: t' => if p =? pid then Some st else lookup pid t'
  end.

Fixpoint remove (pid : Z) (t : list (Z * pstate)) : list (Z * pstate) :=
  match t with
  | [] => []
  | (p, st) :: t' => if p =? pid then t' else (p, st) :: remove pid t'
  end.

(** [waitpid(pid, &status, options)] for [pid > 0]: the value returned,
    the status stored (if any), and the table afterwards.  A child that
    is not in the table has been waited for already (or never existed):
    the call fails and stores nothing.  A blocking wait returns with the
    child still running only when a signal handler interrupts it. *)
Definition waitpid (pid : Z) (nohang : bool) (t : list (Z * pstate))
  : Z * option Z * list (Z * pstate) :=
  match lookup pid t with
  | None => (-1, None, t)
  | Some Running => (if nohang then 0 else -1, None, t)
  | Some (Zombie status) => (pid, Some status, remove pid t)
  end.

(** [kill(pid, SIGKILL)]: the value returned and the table afterwards. *)
Definition kill (pid : Z) (t : list (Z * pstate)) : Z * list (Z * pstate) :=
  match lookup pid t with
  | None => (-1, t)
  | Some Running => (0, (pid, Zombie (killed_by 9)) :: remove pid t)
  | Some (Zombie _) => (0, t)
  end.

End Kernel.

(** ** What an iteration does to the outside *)

Inductive signal : Type := SIGINT | SIGTSTP.
Inductive disposition : Type := SIG_IGN | SIG_DFL.

(** The steps of the child between [fork] and [execvp] (lines 313-354),
    each in the order the child takes it; a redirection that fails ends
    the child with status 1, and so does a failing [execvp]. *)
Inductive child_action : Type :=
| Sigaction (sig : signal) (d : disposition)
| Stdin_from (path : string)
| Stdout_to (path : string)
| Execvp (file : option string) (vector : option (list string)).

Inductive event : Type :=
| Output (text : string)
| Perror (text : string)
| Chdir (path : option string)
| Kill (pid : Z)
| Fork (pid : Z) (child : list child_action)
| Waitpid (pid : Z) (nohang : bool).

(** What each iteration gets from outside the program. *)
Record oracle : Type := Oracle {
  o_childStatus : Z;              (* the uninitialised local [childStatus] *)
  o_getline : option (list ascii);  (* the bytes read; [None] when getline returns -1 *)
  o_slack : list ascii;           (* the allocation after the line and its NUL *)
  o_getpid : Z;
  o_stray : option string;        (* what [arguments[-1]] points to *)
  o_home : option string;         (* [getenv("HOME")] *)
  o_fork : option Z;              (* the child's pid; [None] when fork returns -1 *)
  o_child : pstate                (* the child when the parent's [waitpid] returns *)
}.

(** ** The monad *)

Inductive ending (A : Type) : Type :=
| Next (a : A)          (* the statement completed *)
| Returned (r : Z)      (* [return r;] *)
| Exited (code : Z)     (* [exit(code);] *)
| Fault.                (* undefined behaviour *)
Arguments Next {A} a.
Arguments Returned {A} r.
Arguments Exited {A} code.
Arguments Fault {A}.

Record result (A : Type) : Type := Result {
  events : list event;
  how : ending A;
  after : state
}.
Arguments Result {A} events how after.
Arguments events {A} r.
Arguments how {A} r.
Arguments after {A} r.

Definition M (A : Type) : Type := state -> result A.

Definition ret {A : Type} (a : A) : M A := fun s => Result [] (Next a) s.

Definition bind {A B : Type} (c : M A) (k : A -> M B) : M B :=
  fun s =>
    let r := c s in
    match how r with
    | Next a =>
        let r' := k a (after r) in
        Result (events r ++ events r') (how r') (after r')
    | Returned v => Result (events r) (Returned v) (after r)
    | Exited v => Result (events r) (Exited v) (after r)
    | Fault => Result (events r) Fault (after r)
    end.

Notation "x <- c ;; k" := (bind c (fun x => k))
  (at level 61, c at next level, right associativity).
Notation "c ;; k" := (bind c (fun _ => k))
  (at level 61, right associativity).

Definition emit (e : event) : M unit := fun s => Result [e] (Next tt) s.
Definition get : M state := fun s => Result [] (Next s) s.
Definition modify (f : state -> state) : M unit := fun s => Result [] (Next tt) (f s).
Definition return_ {A : Type} (r : Z) : M A := fun s => Result [] (Returned r) s.
Definition exit_ {A : Type} (code : Z) : M A := fun s => Result [] (Exited code) s.
Definition fault {A : Type} : M A := fun s => Result [] Fault s.

Fixpoint foldM {A B : Type} (body : B -> A -> M B) (l : list A) (b : B) : M B :=
  match l with
  | [] => ret b
  | x :: t => b' <- body b x ;; foldM body t b'
  end.

Definition newline : string := String LF EmptyString.

(** [printf(text); fflush(stdout);] *)
Definition printf (text : string) : M unit := emit (Output text).

(** [waitpid(pid, &var, options)], [var] holding [old] before the call:
    the value returned and the content of [var] afterwards. *)
Definition waitpid (pid : Z) (old : Z) (nohang : bool) : M (Z * Z) :=
  s <- get ;;
  emit (Waitpid pid nohang) ;;
  match Kernel.waitpid pid nohang (children s) with
  | (r, stored, t) =>
      modify (set_children t) ;;
      ret (r, match stored with Some v => v | None => old end)
  end.

(** ** [runShell] *)

Definition entering : string :=
  "Entering foreground-only mode (& is now ignored)" ++ newline.
Definition exiting : string := "Exiting foreground-only mode" ++ newline.

(** Lines 92-101. *)
Definition mode_notice : M unit :=
  s <- get ;;
  if (sigTSTPChange s =? 1) && (foregroundOnly s =? 1) then
    printf entering ;; modify (set_sigTSTPChange 0)
  else if (sigTSTPChange s =? 1) && (foregroundOnly s =? 0) then
    printf exiting ;; modify (set_sigTSTPChange 0)
  else ret tt.

Definition done_exit (pid status : Z) : string :=
  "background pid " ++ dec pid ++ " is done. exit value "
    ++ dec (WEXITSTATUS status) ++ newline.
Definition done_signal (pid status : Z) : string :=
  "background pid " ++ dec pid ++ " is done: terminated by signal "
    ++ dec (WTERMSIG status) ++ newline.

Definition clear_slot (ind : nat) : M unit :=
  modify (fun s => set_bgRunning (update ind 0 (bgRunning s)) s).

(** The body of the loop of lines 120-137, for the slot [ind].  The
    local [childStatus] is not initialised: it holds what the last
    [waitpid] of this sweep that stored a status has left in it, and
    before that whatever was there. *)
Definition sweep_slot (childStatus : Z) (ind : nat) : M Z :=
  s <- get ;;
  let pid := nth ind (bgRunning s) 0 in
  if pid =? 0 then ret childStatus
  else
    w <- waitpid pid childStatus true ;;
    let (testPID, childStatus') := w in
    if testPID =? 0 then ret childStatus'
    else if WIFEXITED childStatus' then
      printf (done_exit pid childStatus') ;; clear_slot ind ;; ret childStatus'
    else if WIFSIGNALED childStatus' then
      printf (done_signal pid childStatus') ;; clear_slot ind ;; ret childStatus'
    else ret childStatus'.

(** The loop itself, over the slots of [bgRunning] (1000 in the
    program). *)
Definition sweep (childStatus : Z) : M Z :=
  s <- get ;;
  foldM sweep_slot (seq 0 (List.length (bgRunning s))) childStatus.

(** The loop of lines 257-272. *)
Definition kill_slot (_ : unit) (ind : nat) : M unit :=
  s <- get ;;
  let pid := nth ind (bgRunning s) 0 in
  if pid =? 0 then ret tt
  else
    printf ("Attempting to kill " ++ dec pid ++ newline) ;;
    emit (Kill pid) ;;
    match Kernel.kill pid (children s) with
    | (killReturn, t) =>
        modify (set_children t) ;;
        if killReturn =? -1 then printf ("Process " ++ dec pid ++ " was not killed" ++ newline)
        else printf ("Process " ++ dec pid ++ " was killed" ++ newline)
    end.

Definition kill_all : M unit :=
  s <- get ;;
  foldM kill_slot (seq 0 (List.length (bgRunning s))) tt.

(** The text [status] prints (lines 290-303). *)
Definition status_text (lf : Z) : string :=
  if lf =? NEVER_RUN then "exit value 0" ++ newline
  else if WIFEXITED lf then "exit value " ++ dec (WEXITSTATUS lf) ++ newline
  else "terminated by signal " ++ dec (WTERMSIG lf) ++ newline.

(** [execvp] reads [com.args] up to its first NULL; [None] when the
    512 entries hold none. *)
Definition exec_vector (cargs : list (option string)) : option (list string) :=
  if existsb (fun a => match a with None => true | Some _ => false end) cargs
  then Some (argv cargs) else None.

Definition null_device : string := "/dev/null".

(** The child, lines 313-354. *)
Definition child (com : command) : list child_action :=
  [Sigaction SIGTSTP SIG_IGN;
   Sigaction SIGINT (if background com =? 0 then SIG_DFL else SIG_IGN)]
  ++ (if String.eqb (input com) EmptyString then [] else [Stdin_from (input com)])
  ++ (if String.eqb (output com) EmptyString then [] else [Stdout_to (output com)])
  ++ (if (background com =? 1) && String.eqb (input com) EmptyString
      then [Stdin_from null_device] else [])
  ++ (if (background com =? 1) && String.eqb (output com) EmptyString
      then [Stdout_to null_device] else [])
  ++ [Execvp (nth 0 (args com) None) (exec_vector (args com))].

(** The first empty slot of [bgRunning] receives the pid (lines 360-365). *)
Fixpoint register (pid : Z) (slots : list Z) : list Z :=
  match slots with
  | [] => []
  | p :: t => if p =? 0 then pid :: t else p :: register pid t
  end.

(** The notices of the parent (lines 357 and 372). *)
Definition started (pid : Z) : string :=
  "PID " ++ dec pid ++ " started in background " ++ newline.

Definition interrupted : string := "terminated by signal 2" ++ newline.

(** The parent after [fork] (lines 355-375). *)
Definition parent (spawnPid : Z) (com : command) : M unit :=
  if background com =? 1 then
    printf (started spawnPid) ;;
    modify (fun s => set_bgRunning (register spawnPid (bgRunning s)) s) ;;
    s <- get ;;
    w <- waitpid spawnPid (bgStatus s) true ;;
    modify (set_bgStatus (snd w))
  else
    s <- get ;;
    w <- waitpid spawnPid (lfStatus s) false ;;
    modify (set_lfStatus (snd w)) ;;
    if (snd w =? 2) && (background com =? 0)
    then printf interrupted
    else ret tt.

(** Lines 253-379: the built-ins and [fork].  When [fork] succeeds the
    kernel has a new child; it is entered in the table in the state
    [o_child] it has reached when the parent first waits for it.  What
    the child does is [child com]. *)
Definition dispatch (o : oracle) (com : command) : M unit :=
  match nth 0 (args com) None with
  | None => fault   (* [strcmp(NULL, "exit")] *)
  | Some name =>
      if String.eqb name "exit" then kill_all ;; exit_ 0
      else if String.eqb name "cd" then
        (if numArgs com =? 1 then emit (Chdir (o_home o))
         else if numArgs com =? 2 then emit (Chdir (nth 1 (args com) None))
         else ret tt) ;;
        return_ 0
      else if String.eqb name "status" then
        s <- get ;;
        printf (status_text (lfStatus s)) ;;
        return_ 0
      else
        match o_fork o with
        | None => emit (Perror ("fork()" ++ newline)) ;; exit_ 1
        | Some spawnPid =>
            emit (Fork spawnPid (child com)) ;;
            modify (fun s => set_children ((spawnPid, o_child o) :: children s) s) ;;
            parent spawnPid com ;;
            return_ 0
        end
  end.

(** Lines 249-251. *)
Definition apply_mode (fo : Z) (com : command) : command :=
  if fo =? 1
  then Command (args com) (input com) (output com) 0 (numArgs com)
  else com.

(** Lines 173-379 on the expanded line. *)
Definition interpret (o : oracle) (line : string) : M unit :=
  match parse_tokens (o_stray o) (token_stream line) with
  | IsComment => printf newline ;; return_ 0
  | Undefined => fault
  | Built com =>
      if numArgs com =? 0 then return_ 0
      else
        s <- get ;;
        dispatch o (apply_mode (foregroundOnly s) com)
  end.

(** Lines 86-141: the notice, the sweep and the prompt. *)
Definition prelude (o : oracle) : M unit :=
  mode_notice ;;
  sweep (o_childStatus o) ;;
  printf ":".

(** Lines 142-379: the line is read, expanded and interpreted. *)
Definition command_part (o : oracle) : M unit :=
  match o_getline o with
  | None => printf newline ;; return_ (-1)
  | Some bytes =>
      match expanded_line (o_getpid o) bytes (o_slack o) with
      | None => fault
      | Some line => interpret o line
      end
  end.

Definition runShell (o : oracle) : M unit :=
  prelude o ;; command_part o.

(** ** [main] and what happens around it *)

Inductive arrival : Type :=
| Toggle                             (* the handler runs for a SIGTSTP *)
| Ends (pid : Z) (status : Z)        (* a running child terminates *)
| Iteration (o : oracle).            (* [main] calls [runShell] *)

Fixpoint terminate (pid status : Z) (t : list (Z * pstate)) : list (Z * pstate) :=
  match t with
  | [] => []
  | (p, Running) :: t' =>
      if p =? pid then (p, Zombie status) :: t' else (p, Running) :: terminate pid status t'
  | e :: t' => e :: terminate pid status t'
  end.

(** [while (1) runShell();] over a finite history.  Signals and the
    death of children are taken between two calls, or inside the call
    that blocks in [getline] or [waitpid]: the oracle of that call then
    says the call was interrupted, or what the child had become. *)
Fixpoint main (history : list arrival) (s : state) : result unit :=
  match history with
  | [] => Result [] (Next tt) s
  | Toggle :: rest => main rest (tstpHandler s)
  | Ends pid status :: rest =>
      main rest (set_children (terminate pid status (children s)) s)
  | Iteration o :: rest =>
      let r := runShell o s in
      match how r with
      | Exited _ | Fault => r
      | _ =>
          let r' := main rest (after r) in
          Result (events r ++ events r') (how r') (after r')
      end
  end.

(** [k] deliveries of SIGTSTP in a row. *)
Fixpoint deliver (k : nat) (s : state) : state :=
  match k with
  | O => s
  | S k' => deliver k' (tstpHandler s)
  end.

(** An oracle for a line typed at the prompt. *)
Definition typed (line : string) : oracle :=
  {| o_childStatus := 0;
     o_getline := Some (bytes_of line);
     o_slack := room 120;
     o_getpid := 4567;
     o_stray := None;
     o_home := Some "/home/user"%string;
     o_fork := Some 77;
     o_child := Zombie 0 |}.

(** The same, with another fate for the child, or another content of
    the uninitialised local. *)
Definition with_child (c : pstate) (o : oracle) : oracle :=
  Oracle (o_childStatus o) (o_getline o) (o_slack o) (o_getpid o)
         (o_stray o) (o_home o) (o_fork o) c.

Definition with_fork (pid : Z) (o : oracle) : oracle :=
  Oracle (o_childStatus o) (o_getline o) (o_slack o) (o_getpid o)
         (o_stray o) (o_home o) (Some pid) (o_child o).

Definition with_stray (stray : option string) (o : oracle) : oracle :=
  Oracle (o_childStatus o) (o_getline o) (o_slack o) (o_getpid o)
         stray (o_home o) (o_fork o) (o_child o).

Definition with_childStatus (v : Z) (o : oracle) : oracle :=
  Oracle v (o_getline o) (o_slack o) (o_getpid o)
         (o_stray o) (o_home o) (o_fork o) (o_child o).

(** ** Vocabulary of the properties *)

(** [emits P c]: every event of [c] satisfies [P]. *)
Definition emits {A : Type} (P : event -> Prop) (c : M A) : Prop :=
  forall s, Forall P (events (c s)).

(** [keeps R c]: [c] takes a state to one related to it by [R]. *)
Definition keeps {A : Type} (R : state -> state -> Prop) (c : M A) : Prop :=
  forall s, R s (after (c s)).

(** [completes c]: [c] always reaches its end, never leaving the
    function and never undefined. *)
Definition completes {A : Type} (c : M A) : Prop :=
  forall s, exists a, how (c s) = Next a.

Definition is_notice (e : event) : bool :=
  match e with
  | Output text => String.eqb text entering || String.eqb text exiting
  | _ => false
  end.

(** The number of mode-change notices among some events. *)
Definition notices (l : list event) : nat := List.length (filter is_notice l).

Definition quiet (e : event) : Prop := is_notice e = false.

Definition not_fork (e : event) : Prop :=
  match e with
  | Fork _ _ => False
  | _ => True
  end.

(** The variables the handler owns. *)
Definition mode_kept (s s' : state) : Prop :=
  foregroundOnly s' = foregroundOnly s /\ sigTSTPChange s' = sigTSTPChange s.

(** The record of the last foreground command. *)
Definition status_kept (s s' : state) : Prop := lfStatus s' = lfStatus s.

(** Everything but the job table and the children. *)
Definition globals_kept (s s' : state) : Prop :=
  mode_kept s s' /\ status_kept s s' /\ bgStatus s' = bgStatus s.


Definition notice_for (mode : Z) : string := if mode =? 1 then entering else exiting.

(** *** The command builder, as the specification words it *)

Definition is_redirect (tok : string) : bool :=
  String.eqb tok "<" || String.eqb tok ">".

Definition has_redirect (tokens : list string) : bool := existsb is_redirect tokens.

(** The tokens before the first [<] or [>]. *)
Fixpoint before_redirect (tokens : list string) : list string :=
  match tokens with
  | [] => []
  | tok :: more => if is_redirect tok then [] else tok :: before_redirect more
  end.

(** The token that follows operator [op]; with several occurrences the
    last one that has a token after it decides, with none it is
    [default]. *)
Fixpoint path_after (op : string) (tokens : list string) (default : string) : string :=
  match tokens with
  | tok :: (next :: _) as more =>
      path_after op more (if String.eqb tok op then next else default)
  | _ => default
  end.

(** The argument vector: the tokens before the first redirection
    operator if there is one; otherwise all tokens, without a final [&]. *)
Definition expected_argv (tokens : list string) : list string :=
  if has_redirect tokens then before_redirect tokens
  else if String.eqb (last tokens EmptyString) "&" then removelast tokens
  else tokens.

(** The count the builder stores in [numArgs]. *)
Definition counted (tokens : list string) : nat :=
  if has_redirect tokens then List.length (before_redirect tokens)
  else List.length tokens.

(** A whitespace character of the command line. *)
Definition blank (c : ascii) : Prop := c = SPACE \/ c = TAB.

(** A byte that the expansion passes through when it is in front of
    the first [$]: not a terminator, not a directive, not a dollar. *)
Definition inert (c : ascii) : Prop := c <> NUL /\ c <> LF /\ c <> PERCENT /\ c <> DOLLAR.

(** The fields of a built command, for the examples. *)
Definition summary (p : parsed) :=
  match p with
  | Built com => Some (argv (args com), input com, output com, background com, numArgs com)
  | _ => None
  end.

(** [c] either leaves the recorded status as it is or makes a blocking
    wait. *)
Definition waits_or_keeps {A : Type} (c : M A) : Prop :=
  forall s, status_kept s (after (c s)) \/
            exists pid, In (Waitpid pid false) (events (c s)).

(** ** Vocabulary of the further properties *)

(** The characters of a string. *)
Definition chars (s : string) : list ascii := list_ascii_of_string s.

(** A word: not empty, and without a space or a tab. *)
Definition word (s : string) : Prop :=
  s <> EmptyString /\ ~ In SPACE (chars s) /\ ~ In TAB (chars s).

(** Words put on a line with one space between them. *)
Fixpoint unwords (ws : list string) : string :=
  match ws with
  | [] => EmptyString
  | [w] => w
  | w :: more => w ++ String SPACE (unwords more)
  end.

(** A character that the line reader and the expansion leave alone
    when no [sprintf] is involved. *)
Definition ordinary (c : ascii) : Prop := c <> NUL /\ c <> LF /\ c <> DOLLAR.

(** *** The job table *)

(** A status that the sweep reports: a normal exit or a signal. *)
Definition settled (status : Z) : bool := WIFEXITED status || WIFSIGNALED status.

(** What the sweep leaves in a slot holding [pid], by the kernel's
    table [t] at the start of the sweep. *)
Definition slot_after (t : list (Z * pstate)) (pid : Z) : Z :=
  if pid =? 0 then 0
  else match Kernel.lookup pid t with
       | Some (Zombie status) => if settled status then 0 else pid
       | _ => pid
       end.

(** What the sweep does for a slot holding [pid]. *)
Definition slot_events (t : list (Z * pstate)) (pid : Z) : list event :=
  if pid =? 0 then []
  else Waitpid pid true ::
       match Kernel.lookup pid t with
       | Some (Zombie status) =>
           if WIFEXITED status then [Output (done_exit pid status)]
           else if WIFSIGNALED status then [Output (done_signal pid status)]
           else []
       | _ => []
       end.

(** Every pid in the job table is a child the kernel still knows. *)
Definition tracked_known (s : state) : Prop :=
  forall pid, In pid (bgRunning s) -> pid <> 0 -> Kernel.lookup pid (children s) <> None.

Definition occupied (pid : Z) : bool := negb (pid =? 0).

(** What [exit] does for a slot holding [pid]. *)
Definition kill_report (t : list (Z * pstate)) (pid : Z) : list event :=
  if pid =? 0 then []
  else [Output ("Attempting to kill " ++ dec pid ++ newline);
        Kill pid;
        Output (match Kernel.lookup pid t with
                | None => "Process " ++ dec pid ++ " was not killed" ++ newline
                | Some _ => "Process " ++ dec pid ++ " was killed" ++ newline
                end)].

(** *** The loop *)

Definition is_prompt (e : event) : bool :=
  match e with
  | Output text => String.eqb text ":"
  | _ => false
  end.

Definition not_prompt (e : event) : Prop := is_prompt e = false.

Definition is_iteration (a : arrival) : bool :=
  match a with
  | Iteration _ => true
  | _ => false
  end.

(** A history in which every read fails (end of input, or a read
    interrupted by a signal). *)
Definition reads_nothing (history : list arrival) : Prop :=
  Forall (fun a => match a with Iteration o => o_getline o = None | _ => True end) history.

(** The values the handler and the loop give the two flags. *)
Definition flags_valid (s : state) : Prop :=
  (foregroundOnly s = 0 \/ foregroundOnly s = 1) /\
  (sigTSTPChange s = 0 \/ sigTSTPChange s = 1).

Definition same_size (s s' : state) : Prop :=
  List.length (bgRunning s') = List.length (bgRunning s).

(** ** The child between [fork] and [execvp], with its descriptors
       (lines 31-62 and 313-354) *)

(** How a file is opened: [O_RDONLY] at line 33,
    [O_WRONLY | O_CREAT | O_TRUNC] with mode 0644 at line 50. *)
Inductive access : Type :=
| O_RDONLY
| O_WRONLY_CREAT_TRUNC.

Record file : Type := File {
  f_path : string;
  f_access : access
}.

(** The open descriptors of a process. *)
Definition descriptors : Type := list (Z * file).

Module Fd.

Fixpoint lookup (fd : Z) (t : descriptors) : option file :=
  match t with
  | [] => None
  | (d, f) :: t' => if d =? fd then Some f else lookup fd t'
  end.

(** [close(fd)]. *)
Fixpoint close (fd : Z) (t : descriptors) : descriptors :=
  match t with
  | [] => []
  | (d, f) :: t' => if d =? fd then close fd t' else (d, f) :: close fd t'
  end.

(** Descriptor [fd] now refers to [f]. *)
Definition set (fd : Z) (f : file) (t : descriptors) : descriptors :=
  (fd, f) :: close fd t.

End Fd.

(** What the kernel answers to the child: the descriptor [open]
    returns for a path (-1 when it fails), whether a [dup2] that could
    succeed does, and whether [execvp] finds the program. *)
Record files_oracle : Type := Files_oracle {
  c_open : string -> access -> Z;
  c_dup2 : Z -> Z -> bool;
  c_execvp : bool
}.

(** [open(path, flags)]: the value returned and the table afterwards. *)
Definition open (k : files_oracle) (path : string) (acc : access) (t : descriptors)
  : Z * descriptors :=
  let fd := c_open k path acc in
  if fd =? -1 then (-1, t) else (fd, Fd.set fd (File path acc) t).

(** [dup2(oldfd, newfd)]: it fails on a descriptor that is not open;
    with [oldfd = newfd] it changes nothing; otherwise [newfd] is closed
    if need be and made to refer to the file of [oldfd]. *)
Definition dup2 (k : files_oracle) (oldfd newfd : Z) (t : descriptors) : Z * descriptors :=
  match Fd.lookup oldfd t with
  | None => (-1, t)
  | Some f =>
      if negb (c_dup2 k oldfd newfd) then (-1, t)
      else if oldfd =? newfd then (newfd, t)
      else (newfd, Fd.set newfd f t)
  end.

(** The code both redirection functions share, for the descriptor
    [target] they redirect; used to state what they have in common. *)
Definition redirect_to (k : files_oracle) (path : string) (acc : access) (target : Z)
           (t : descriptors) : Z * list event * descriptors :=
  let (new, t1) := open k path acc t in
  if new =? -1 then (1, [Perror path], t1)
  else
    let (result, t2) := dup2 k new target t1 in
    let t3 := Fd.close new t2 in
    if result =? -1 then (1, [Perror path], t3)
    else (0, [], t3).

(** [inputRedirection] (lines 32-45): the value returned, what
    [perror] reported, and the descriptors afterwards. *)
Definition inputRedirection (k : files_oracle) (input : string) (t : descriptors)
  : Z * list event * descriptors :=
  let (newInFD, t1) := open k input O_RDONLY t in
  if newInFD =? -1 then (1, [Perror input], t1)
  else
    let (result, t2) := dup2 k newInFD 0 t1 in
    let t3 := Fd.close newInFD t2 in
    if result =? -1 then (1, [Perror input], t3)
    else (0, [], t3).

(** [outputRedirection] (lines 48-62). *)
Definition outputRedirection (k : files_oracle) (output : string) (t : descriptors)
  : Z * list event * descriptors :=
  let (newOutFD, t1) := open k output O_WRONLY_CREAT_TRUNC t in
  if newOutFD =? -1 then (1, [Perror output], t1)
  else
    let (result, t2) := dup2 k newOutFD 1 t1 in
    let t3 := Fd.close newOutFD t2 in
    if result =? -1 then (1, [Perror output], t3)
    else (0, [], t3).

(** How a signal is handled in a process. *)
Inductive handling : Type :=
| By_default
| Ignored
| By_handler.

(** How the child's code ends: its image is replaced by the program,
    or it calls [exit]. *)
Inductive child_end : Type :=
| Replaced (program : option string) (vector : option (list string))
| Ended (status : Z).

(** The child so far: the steps taken, what [perror] reported, the
    descriptors. *)
Record child_state : Type := Child_state {
  steps : list child_action;
  reports : list event;
  descr : descriptors
}.

(** [if (wanted) { if (redir(...) == 1) exit(1); }]: the state after
    the statement and whether the child goes on. *)
Definition attempt (wanted : bool) (act : child_action)
           (redir : descriptors -> Z * list event * descriptors)
           (st : child_state) : child_state * bool :=
  if wanted then
    match redir (descr st) with
    | (result, said, t) =>
        (Child_state (steps st ++ [act]) (reports st ++ said) t, negb (result =? 1))
    end
  else (st, true).

Record child_run : Type := Child_run {
  run_state : child_state;
  run_sigint : handling;
  run_sigtstp : handling;
  run_end : child_end
}.

(** The child, lines 313-354, from the descriptors it inherits. *)
Definition run_child (k : files_oracle) (com : command) (t : descriptors) : child_run :=
  let sigtstp := Ignored in
  let sigint := if background com =? 0 then By_default else Ignored in
  let stop := fun st => Child_run st sigint sigtstp (Ended 1) in
  let st0 :=
    Child_state
      [Sigaction SIGTSTP SIG_IGN;
       Sigaction SIGINT (if background com =? 0 then SIG_DFL else SIG_IGN)]
      [] t in
  match attempt (negb (String.eqb (input com) EmptyString))
                (Stdin_from (input com)) (inputRedirection k (input com)) st0 with
  | (st1, false) => stop st1
  | (st1, true) =>
  match attempt (negb (String.eqb (output com) EmptyString))
                (Stdout_to (output com)) (outputRedirection k (output com)) st1 with
  | (st2, false) => stop st2
  | (st2, true) =>
  match attempt ((background com =? 1) && String.eqb (input com) EmptyString)
                (Stdin_from null_device) (inputRedirection k null_device) st2 with
  | (st3, false) => stop st3
  | (st3, true) =>
  match attempt ((background com =? 1) && String.eqb (output com) EmptyString)
                (Stdout_to null_device) (outputRedirection k null_device) st3 with
  | (st4, false) => stop st4
  | (st4, true) =>
      let exec := Execvp (nth 0 (args com) None) (exec_vector (args com)) in
      let st5 := Child_state (steps st4 ++ [exec]) (reports st4) (descr st4) in
      if c_execvp k
      then Child_run st5 sigint sigtstp
                     (Replaced (nth 0 (args com) None) (exec_vector (args com)))
      else Child_run (Child_state (steps st5) (reports st5 ++ [Perror "execvp"]) (descr st5))
                     sigint sigtstp (Ended 1)
  end end end end.

(** What descriptor [fd] refers to once a redirection to [path] has
    been asked for it, or the null device for a background command,
    or nothing. *)
Definition redirected (path : string) (acc : access) (bg : Z) (before : option file)
  : option file :=
  if negb (String.eqb path EmptyString) then Some (File path acc)
  else if bg =? 1 then Some (File null_device acc)
  else before.

(** The parts of what a redirection function gives. *)
Definition returned (r : Z * list event * descriptors) : Z := fst (fst r).
Definition reported (r : Z * list event * descriptors) : list event := snd (fst r).
Definition table_after (r : Z * list event * descriptors) : descriptors := snd r.

(** * Properties *)

(** ** The monad: what a computation emits, keeps and how it ends *)

Section Monad_facts.

Context {A B : Type}.

Lemma bind_next (c : M A) (k : A -> M B) (s : state) (a : A) :
  how (c s) = Next a ->
  bind c k s =
  Result (events (c s) ++ events (k a (after (c s))))
         (how (k a (after (c s)))) (after (k a (after (c s)))).
Proof. intros H. unfold bind. rewrite H. reflexivity. Qed.

Lemma bind_events (c : M A) (k : A -> M B) (s : state) :
  events (bind c k s) =
  events (c s) ++
  match how (c s) with
  | Next a => events (k a (after (c s)))
  | _ => []
  end.
Proof.
  unfold bind. destruct (how (c s)); cbn; try reflexivity;
    now rewrite app_nil_r.
Qed.

Lemma bind_result (c : M A) (k : A -> M B) (s s' : state) (ev : list event) (a : A) :
  c s = Result ev (Next a) s' ->
  bind c k s = Result (ev ++ events (k a s')) (how (k a s')) (after (k a s')).
Proof. intros H. unfold bind. rewrite H. reflexivity. Qed.

Lemma bind_get (k : state -> M B) (s : state) : bind get k s = k s s.
Proof. unfold bind, get. cbn. now destruct (k s s). Qed.

End Monad_facts.


Section Emits.

Variable P : event -> Prop.

Lemma emits_ret {A} (a : A) : emits P (ret a).
Proof. intros s. constructor. Qed.

Lemma emits_get : emits P get.
Proof. intros s. constructor. Qed.

Lemma emits_modify f : emits P (modify f).
Proof. intros s. constructor. Qed.

Lemma emits_return {A} r : emits P (@return_ A r).
Proof. intros s. constructor. Qed.

Lemma emits_exit {A} r : emits P (@exit_ A r).
Proof. intros s. constructor. Qed.

Lemma emits_fault {A} : emits P (@fault A).
Proof. intros s. constructor. Qed.

Lemma emits_emit e : P e -> emits P (emit e).
Proof. intros H s. cbn. auto. Qed.

Lemma emits_bind {A B} (c : M A) (k : A -> M B) :
  emits P c -> (forall a, emits P (k a)) -> emits P (bind c k).
Proof.
  intros Hc Hk s. rewrite bind_events. apply Forall_app. split; [apply Hc|].
  destruct (how (c s)); auto. apply Hk.
Qed.

Lemma emits_foldM {A B} (body : B -> A -> M B) (l : list A) :
  (forall b x, emits P (body b x)) -> forall b, emits P (foldM body l b).
Proof.
  intros Hb. induction l as [|x l IH]; intros b; cbn [foldM].
  - apply emits_ret.
  - apply emits_bind; auto.
Qed.

End Emits.

Section Keeps.

Variable R : state -> state -> Prop.
Hypothesis R_refl : forall s, R s s.
Hypothesis R_trans : forall s1 s2 s3, R s1 s2 -> R s2 s3 -> R s1 s3.

Lemma keeps_ret {A} (a : A) : keeps R (ret a).
Proof. intros s. apply R_refl. Qed.

Lemma keeps_get : keeps R get.
Proof. intros s. apply R_refl. Qed.

Lemma keeps_emit e : keeps R (emit e).
Proof. intros s. apply R_refl. Qed.

Lemma keeps_return {A} r : keeps R (@return_ A r).
Proof. intros s. apply R_refl. Qed.

Lemma keeps_exit {A} r : keeps R (@exit_ A r).
Proof. intros s. apply R_refl. Qed.

Lemma keeps_fault {A} : keeps R (@fault A).
Proof. intros s. apply R_refl. Qed.

Lemma keeps_modify f : (forall s, R s (f s)) -> keeps R (modify f).
Proof. intros H s. apply H. Qed.

Lemma keeps_bind {A B} (c : M A) (k : A -> M B) :
  keeps R c -> (forall a, keeps R (k a)) -> keeps R (bind c k).
Proof.
  intros Hc Hk s. unfold bind.
  destruct (how (c s)) eqn:E; cbn; try apply Hc.
  eapply R_trans; [apply Hc | apply Hk].
Qed.

Lemma keeps_foldM {A B} (body : B -> A -> M B) (l : list A) :
  (forall b x, keeps R (body b x)) -> forall b, keeps R (foldM body l b).
Proof.
  intros Hb. induction l as [|x l IH]; intros b; cbn [foldM].
  - apply keeps_ret.
  - apply keeps_bind; auto.
Qed.

End Keeps.

Section Completes.

Lemma completes_ret {A} (a : A) : completes (ret a).
Proof. intros s. now exists a. Qed.

Lemma completes_get : completes get.
Proof. intros s. now exists s. Qed.

Lemma completes_emit e : completes (emit e).
Proof. intros s. now exists tt. Qed.

Lemma completes_modify f : completes (modify f).
Proof. intros s. now exists tt. Qed.

Lemma completes_bind {A B} (c : M A) (k : A -> M B) :
  completes c -> (forall a, completes (k a)) -> completes (bind c k).
Proof.
  intros Hc Hk s. destruct (Hc s) as [a Ha].
  rewrite (bind_next _ _ _ _ Ha). cbn. apply Hk.
Qed.

Lemma completes_foldM {A B} (body : B -> A -> M B) (l : list A) :
  (forall b x, completes (body b x)) -> forall b, completes (foldM body l b).
Proof.
  intros Hb. induction l as [|x l IH]; intros b; cbn [foldM].
  - apply completes_ret.
  - apply completes_bind; auto.
Qed.

End Completes.

(** Composition, one step at a time, by the shape of the computation. *)
Ltac step_emits :=
  lazymatch goal with
  | |- emits _ (bind _ _) => apply emits_bind; [|intros ?]
  | |- emits _ (ret _) => apply emits_ret
  | |- emits _ get => apply emits_get
  | |- emits _ (modify _) => apply emits_modify
  | |- emits _ (return_ _) => apply emits_return
  | |- emits _ (exit_ _) => apply emits_exit
  | |- emits _ fault => apply emits_fault
  | |- emits _ (foldM _ _ _) => apply emits_foldM; intros ? ?
  end.

Ltac step_keeps rfl trs :=
  lazymatch goal with
  | |- keeps _ (bind _ _) => apply (keeps_bind _ trs); [|intros ?]
  | |- keeps _ (ret _) => apply (keeps_ret _ rfl)
  | |- keeps _ get => apply (keeps_get _ rfl)
  | |- keeps _ (emit _) => apply (keeps_emit _ rfl)
  | |- keeps _ (return_ _) => apply (keeps_return _ rfl)
  | |- keeps _ (exit_ _) => apply (keeps_exit _ rfl)
  | |- keeps _ fault => apply (keeps_fault _ rfl)
  | |- keeps _ (foldM _ _ _) => apply (keeps_foldM _ rfl trs); intros ? ?
  end.

Ltac step_completes :=
  lazymatch goal with
  | |- completes (bind _ _) => apply completes_bind; [|intros ?]
  | |- completes (ret _) => apply completes_ret
  | |- completes get => apply completes_get
  | |- completes (emit _) => apply completes_emit
  | |- completes (modify _) => apply completes_modify
  | |- completes (foldM _ _ _) => apply completes_foldM; intros ? ?
  end.

(** ** Events and globals of the parts of [runShell] *)


Lemma mode_kept_refl s : mode_kept s s.
Proof. now split. Qed.

Lemma mode_kept_trans s1 s2 s3 : mode_kept s1 s2 -> mode_kept s2 s3 -> mode_kept s1 s3.
Proof. unfold mode_kept. intros [? ?] [? ?]. split; congruence. Qed.

Lemma status_kept_refl s : status_kept s s.
Proof. reflexivity. Qed.

Lemma status_kept_trans s1 s2 s3 :
  status_kept s1 s2 -> status_kept s2 s3 -> status_kept s1 s3.
Proof. unfold status_kept. congruence. Qed.

Lemma globals_kept_refl s : globals_kept s s.
Proof. repeat split. Qed.

Lemma globals_kept_trans s1 s2 s3 :
  globals_kept s1 s2 -> globals_kept s2 s3 -> globals_kept s1 s3.
Proof.
  unfold globals_kept, mode_kept, status_kept.
  intros (? & ? & ?) (? & ? & ?). intuition congruence.
Qed.

Lemma notices_quiet l : Forall quiet l -> notices l = 0%nat.
Proof.
  unfold notices. induction 1 as [|e l He _ IH]; cbn; [reflexivity|].
  unfold quiet in He. now rewrite He.
Qed.

(** A computation that is a conditional: one goal per branch. *)
Ltac cases :=
  lazymatch goal with
  | |- _ _ (if ?b then _ else _) => destruct b eqn:?
  | |- _ _ (match ?x with _ => _ end) => destruct x eqn:?
  | |- _ (if ?b then _ else _) => destruct b eqn:?
  | |- _ (match ?x with _ => _ end) => destruct x eqn:?
  end.

Ltac emits_all tac :=
  repeat first
    [ step_emits
    | lazymatch goal with |- emits _ (emit _) => apply emits_emit; tac end
    | cases ].

Ltac keeps_all rfl trs tac :=
  repeat first
    [ step_keeps rfl trs
    | lazymatch goal with
      | |- keeps _ (modify _) => apply keeps_modify; intros ?; tac
      end
    | cases ].

Ltac completes_all := repeat first [ step_completes | cases ].

Section Parts.

Variable P : event -> Prop.
Hypothesis P_print_done_exit : forall pid st, P (Output (done_exit pid st)).
Hypothesis P_print_done_signal : forall pid st, P (Output (done_signal pid st)).
Hypothesis P_waitpid : forall pid nohang, P (Waitpid pid nohang).

Lemma waitpid_emits pid old nohang : emits P (waitpid pid old nohang).
Proof. unfold waitpid. emits_all ltac:(auto). Qed.

Lemma sweep_emits cs : emits P (sweep cs).
Proof.
  unfold sweep. step_emits; [step_emits|]. step_emits.
  unfold sweep_slot, clear_slot, printf.
  step_emits; [step_emits|]. cases; [step_emits|].
  step_emits; [apply waitpid_emits|].
  emits_all ltac:(auto).
Qed.

End Parts.

Lemma waitpid_keeps pid old nohang : keeps globals_kept (waitpid pid old nohang).
Proof.
  unfold waitpid.
  keeps_all globals_kept_refl globals_kept_trans ltac:(repeat split).
Qed.

Lemma waitpid_completes pid old nohang : completes (waitpid pid old nohang).
Proof. unfold waitpid. completes_all. Qed.

Lemma sweep_keeps cs : keeps globals_kept (sweep cs).
Proof.
  unfold sweep, sweep_slot, clear_slot, printf.
  step_keeps globals_kept_refl globals_kept_trans.
  - step_keeps globals_kept_refl globals_kept_trans.
  - step_keeps globals_kept_refl globals_kept_trans.
    step_keeps globals_kept_refl globals_kept_trans;
      [step_keeps globals_kept_refl globals_kept_trans|].
    cases; [step_keeps globals_kept_refl globals_kept_trans|].
    step_keeps globals_kept_refl globals_kept_trans; [apply waitpid_keeps|].
    keeps_all globals_kept_refl globals_kept_trans ltac:(repeat split).
Qed.

Lemma sweep_completes cs : completes (sweep cs).
Proof.
  unfold sweep, sweep_slot, clear_slot, printf.
  step_completes; [step_completes|]. step_completes.
  step_completes; [step_completes|]. cases; [step_completes|].
  step_completes; [apply waitpid_completes|].
  completes_all.
Qed.

Lemma mode_notice_completes : completes mode_notice.
Proof. unfold mode_notice, printf. completes_all. Qed.

Lemma prelude_completes o s : how (prelude o s) = Next tt.
Proof.
  assert (H : completes (prelude o)).
  { unfold prelude, printf. step_completes; [apply mode_notice_completes|].
    step_completes; [apply sweep_completes|]. step_completes. }
  destruct (H s) as [[] E]. exact E.
Qed.

Lemma prelude_keeps_status o : keeps status_kept (prelude o).
Proof.
  unfold prelude, mode_notice, printf.
  step_keeps status_kept_refl status_kept_trans.
  - keeps_all status_kept_refl status_kept_trans ltac:(reflexivity).
  - step_keeps status_kept_refl status_kept_trans.
    + intros s. apply (sweep_keeps (o_childStatus o) s).
    + step_keeps status_kept_refl status_kept_trans.
Qed.

Lemma prelude_keeps_mode o s :
  foregroundOnly (after (prelude o s)) = foregroundOnly s.
Proof.
  assert (H : keeps (fun s s' => foregroundOnly s' = foregroundOnly s) (prelude o)).
  { assert (Hr : forall s : state, foregroundOnly s = foregroundOnly s) by reflexivity.
    assert (Ht : forall s1 s2 s3 : state,
               foregroundOnly s2 = foregroundOnly s1 ->
               foregroundOnly s3 = foregroundOnly s2 ->
               foregroundOnly s3 = foregroundOnly s1) by (intros; congruence).
    unfold prelude, mode_notice, printf.
    apply (keeps_bind _ Ht).
    - keeps_all Hr Ht ltac:(reflexivity).
    - intros _. apply (keeps_bind _ Ht).
      + intros s0. apply (sweep_keeps (o_childStatus o) s0).
      + intros _. apply (keeps_emit _ Hr). }
  apply H.
Qed.

Lemma prelude_no_fork o : emits not_fork (prelude o).
Proof.
  unfold prelude, mode_notice, printf.
  step_emits; [emits_all ltac:(exact I)|].
  step_emits; [apply sweep_emits; intros; exact I|].
  apply emits_emit. exact I.
Qed.

Ltac solve_quiet :=
  unfold quiet, status_text;
  repeat match goal with |- context [if ?b then _ else _] => destruct b end;
  reflexivity.

Lemma kill_all_quiet : emits quiet kill_all.
Proof. unfold kill_all, kill_slot, printf. emits_all solve_quiet. Qed.

Lemma parent_quiet pid com : emits quiet (parent pid com).
Proof.
  unfold parent, printf. cases.
  - step_emits; [emits_all solve_quiet|]. step_emits; [step_emits|].
    step_emits; [step_emits|]. step_emits; [|step_emits].
    apply waitpid_emits; intros; reflexivity.
  - step_emits; [step_emits|]. step_emits.
    + apply waitpid_emits; intros; reflexivity.
    + emits_all solve_quiet.
Qed.

Lemma dispatch_quiet o com : emits quiet (dispatch o com).
Proof.
  unfold dispatch, printf. cases; [|step_emits].
  cases; [step_emits; [apply kill_all_quiet|step_emits]|].
  cases; [emits_all solve_quiet|].
  cases; [emits_all solve_quiet|].
  cases; [|emits_all solve_quiet].
  step_emits; [emits_all solve_quiet|]. step_emits; [step_emits|].
  step_emits; [apply parent_quiet|step_emits].
Qed.

Lemma interpret_quiet o line : emits quiet (interpret o line).
Proof.
  unfold interpret, printf. cases; [emits_all solve_quiet|step_emits|].
  cases; [step_emits|]. step_emits; [step_emits|]. apply dispatch_quiet.
Qed.


Lemma command_part_quiet o : emits quiet (command_part o).
Proof.
  unfold command_part, printf. cases.
  - cases; [apply interpret_quiet|step_emits].
  - emits_all solve_quiet.
Qed.

Lemma kill_all_keeps_mode : keeps mode_kept kill_all.
Proof.
  unfold kill_all, kill_slot, printf.
  keeps_all mode_kept_refl mode_kept_trans ltac:(split; reflexivity).
Qed.

Lemma waitpid_keeps_mode pid old nohang : keeps mode_kept (waitpid pid old nohang).
Proof. intros s. apply (waitpid_keeps pid old nohang s). Qed.

Lemma parent_keeps_mode pid com : keeps mode_kept (parent pid com).
Proof.
  unfold parent, printf. cases.
  - step_keeps mode_kept_refl mode_kept_trans;
      [step_keeps mode_kept_refl mode_kept_trans|].
    step_keeps mode_kept_refl mode_kept_trans;
      [keeps_all mode_kept_refl mode_kept_trans ltac:(split; reflexivity)|].
    step_keeps mode_kept_refl mode_kept_trans;
      [step_keeps mode_kept_refl mode_kept_trans|].
    step_keeps mode_kept_refl mode_kept_trans; [apply waitpid_keeps_mode|].
    keeps_all mode_kept_refl mode_kept_trans ltac:(split; reflexivity).
  - step_keeps mode_kept_refl mode_kept_trans;
      [step_keeps mode_kept_refl mode_kept_trans|].
    step_keeps mode_kept_refl mode_kept_trans; [apply waitpid_keeps_mode|].
    keeps_all mode_kept_refl mode_kept_trans ltac:(split; reflexivity).
Qed.

Lemma dispatch_keeps_mode o com : keeps mode_kept (dispatch o com).
Proof.
  unfold dispatch, printf. cases; [|step_keeps mode_kept_refl mode_kept_trans].
  cases.
  { step_keeps mode_kept_refl mode_kept_trans;
      [apply kill_all_keeps_mode|step_keeps mode_kept_refl mode_kept_trans]. }
  cases; [keeps_all mode_kept_refl mode_kept_trans ltac:(split; reflexivity)|].
  cases; [keeps_all mode_kept_refl mode_kept_trans ltac:(split; reflexivity)|].
  cases; [|keeps_all mode_kept_refl mode_kept_trans ltac:(split; reflexivity)].
  step_keeps mode_kept_refl mode_kept_trans;
    [step_keeps mode_kept_refl mode_kept_trans|].
  step_keeps mode_kept_refl mode_kept_trans;
    [keeps_all mode_kept_refl mode_kept_trans ltac:(split; reflexivity)|].
  step_keeps mode_kept_refl mode_kept_trans;
    [apply parent_keeps_mode|step_keeps mode_kept_refl mode_kept_trans].
Qed.

Lemma command_part_keeps_mode o : keeps mode_kept (command_part o).
Proof.
  unfold command_part, interpret, printf. cases.
  - cases; [|step_keeps mode_kept_refl mode_kept_trans].
    cases; [keeps_all mode_kept_refl mode_kept_trans ltac:(split; reflexivity)
           |step_keeps mode_kept_refl mode_kept_trans|].
    cases; [step_keeps mode_kept_refl mode_kept_trans|].
    step_keeps mode_kept_refl mode_kept_trans;
      [step_keeps mode_kept_refl mode_kept_trans|apply dispatch_keeps_mode].
  - keeps_all mode_kept_refl mode_kept_trans ltac:(split; reflexivity).
Qed.

(** An iteration is its prelude followed by its command part. *)
Lemma runShell_parts o s :
  let p := prelude o s in
  let c := command_part o (after p) in
  runShell o s = Result (events p ++ events c) (how c) (after c).
Proof.
  cbn zeta. unfold runShell.
  now rewrite (bind_next _ _ _ _ (prelude_completes o s)).
Qed.

(** The prelude is the notice followed by the sweep and the prompt. *)
Lemma prelude_parts o s :
  let n := mode_notice s in
  exists rest,
    events (prelude o s) = events n ++ rest /\ Forall quiet rest /\
    mode_kept (after n) (after (prelude o s)).
Proof.
  cbn zeta. unfold prelude.
  destruct (mode_notice_completes s) as [[] E].
  rewrite (bind_next _ _ _ _ E). cbn [events after].
  eexists. split; [reflexivity|]. split.
  - assert (H : emits quiet (sweep (o_childStatus o);; printf ":")).
    { unfold printf. step_emits; [|emits_all solve_quiet].
      apply sweep_emits; intros; reflexivity. }
    apply H.
  - assert (H : keeps mode_kept (sweep (o_childStatus o);; printf ":")).
    { unfold printf. step_keeps mode_kept_refl mode_kept_trans.
      + intros s0. apply (sweep_keeps (o_childStatus o) s0).
      + step_keeps mode_kept_refl mode_kept_trans. }
    apply H.
Qed.

(** ** The command builder *)

Section List_facts.

Context {A : Type}.

Lemma update_at_end (p q : list A) (x y : A) :
  update (List.length p) x (p ++ y :: q) = p ++ x :: q.
Proof. induction p as [|h p IH]; cbn; [reflexivity|now rewrite IH]. Qed.

Lemma firstn_next (l : list A) (n : nat) (x : A) :
  nth_error l n = Some x -> firstn (S n) l = firstn n l ++ [x].
Proof.
  revert n. induction l as [|h l IH]; intros [|n] H; cbn in *; try discriminate.
  - now injection H as ->.
  - f_equal. now apply IH.
Qed.

Lemma nth_error_last (l : list A) (d : A) :
  l <> [] -> nth_error l (List.length l - 1) = Some (last l d).
Proof.
  induction l as [|x l IH] using rev_ind; [congruence|intros _].
  rewrite last_last, length_app. cbn [List.length].
  replace (List.length l + 1 - 1)%nat with (List.length l) by lia.
  rewrite nth_error_app2 by lia. now rewrite Nat.sub_diag.
Qed.

End List_facts.

Lemma argv_prefix (l : list string) (k : nat) :
  argv (map Some l ++ repeat None k) = l.
Proof.
  induction l as [|x l IH]; cbn.
  - destruct k; reflexivity.
  - now rewrite IH.
Qed.

(** *** The scan *)

Lemma scan_set tokens : forall acc ai arguments argIndex,
  ai <> NO_REDIRECT ->
  (List.length acc <= 512)%nat ->
  scan tokens acc ai = Args arguments argIndex ->
  arguments = acc ++ tokens /\ argIndex = ai /\ (List.length arguments <= 512)%nat.
Proof.
  induction tokens as [|t more IH]; intros acc ai arguments argIndex Hai Hlen H; cbn in H.
  - injection H as <- <-. now rewrite app_nil_r.
  - destruct (512 <=? Z.of_nat (List.length acc)) eqn:E1; [discriminate|].
    destruct (first_char_is HASH t && (Z.of_nat (List.length acc) =? 0)); [discriminate|].
    apply Z.leb_gt in E1.
    replace (if (t =? "<")%string || (t =? ">")%string
             then if ai =? NO_REDIRECT then Z.of_nat (List.length acc) - 1 else ai
             else ai) with ai in H.
    + apply IH in H; auto.
      * rewrite <- app_assoc in H. exact H.
      * rewrite length_app. cbn. lia.
    + apply Z.eqb_neq in Hai. rewrite Hai. now destruct (_ || _).
Qed.

Lemma scan_unset tokens : forall acc arguments argIndex,
  (List.length acc <= 512)%nat ->
  scan tokens acc NO_REDIRECT = Args arguments argIndex ->
  arguments = acc ++ tokens /\ (List.length arguments <= 512)%nat /\
  argIndex =
    (if has_redirect tokens
     then Z.of_nat (List.length acc + List.length (before_redirect tokens)) - 1
     else NO_REDIRECT).
Proof.
  induction tokens as [|t more IH]; intros acc arguments argIndex Hlen H; cbn in H.
  - injection H as <- <-. now rewrite app_nil_r.
  - destruct (512 <=? Z.of_nat (List.length acc)) eqn:E1; [discriminate|].
    destruct (first_char_is HASH t && (Z.of_nat (List.length acc) =? 0)); [discriminate|].
    apply Z.leb_gt in E1.
    assert (Hlen' : (List.length (acc ++ [t]) <= 512)%nat)
      by (rewrite length_app; cbn; lia).
    cbn [has_redirect existsb before_redirect]. unfold is_redirect at 1 3.
    destruct ((t =? "<")%string || (t =? ">")%string) eqn:E2; cbn [orb].
    + cbn in H. apply scan_set in H; auto.
      * rewrite <- app_assoc in H. destruct H as (-> & -> & H).
        cbn [List.length app]. repeat split; auto. f_equal. lia.
      * unfold NO_REDIRECT. lia.
    + apply IH in H; auto. rewrite <- app_assoc in H. destruct H as (-> & H & ->).
      repeat split; auto.
      fold (has_redirect more). destruct (has_redirect more); [|reflexivity].
      rewrite length_app. cbn [List.length]. f_equal. lia.
Qed.

Lemma scan_spec tokens arguments argIndex :
  scan tokens [] NO_REDIRECT = Args arguments argIndex ->
  arguments = tokens /\ (List.length tokens <= 512)%nat /\
  (if argIndex =? NO_REDIRECT then Z.of_nat (List.length tokens) - 1 else argIndex) + 1
  = Z.of_nat (counted tokens).
Proof.
  intros H. apply scan_unset in H; [|cbn; lia]. cbn [app List.length Nat.add] in H.
  destruct H as (-> & Hlen & ->). repeat split; auto. unfold counted.
  destruct (has_redirect tokens) eqn:E.
  - assert (List.length (before_redirect tokens) <= List.length tokens)%nat.
    { clear. induction tokens as [|t l IH]; cbn; [lia|].
      destruct (is_redirect t); cbn; lia. }
    replace (Z.of_nat (List.length (before_redirect tokens)) - 1 =? NO_REDIRECT)
      with false; [lia|].
    symmetry. apply Z.eqb_neq. unfold NO_REDIRECT. lia.
  - cbn. lia.
Qed.

(** *** The copy of lines 222-229 *)

Lemma copy_plain arguments i n :
  (n <= List.length arguments)%nat -> (n <= 512)%nat ->
  (forall j, (j < n)%nat ->
             (i =? Z.of_nat j) && is_amp (nth_error arguments (Z.to_nat i)) = false) ->
  fold_left (copy_arg arguments i) (seq 0 n) (repeat None 512)
  = map Some (firstn n arguments) ++ repeat None (512 - n).
Proof.
  induction n as [|n IH]; intros H1 H2 H3.
  - reflexivity.
  - rewrite seq_S, fold_left_app, IH by (auto; lia). cbn [Nat.add fold_left].
    unfold copy_arg. rewrite H3 by lia.
    destruct (nth_error arguments n) as [x|] eqn:E.
    2:{ apply nth_error_None in E. lia. }
    rewrite (firstn_next _ _ _ E), map_app, <- app_assoc. cbn [map app].
    replace (512 - n)%nat with (S (512 - S n)) by lia. cbn [repeat].
    replace n with (List.length (map Some (firstn n arguments))) at 1.
    + apply update_at_end.
    + rewrite length_map, length_firstn. lia.
Qed.

Lemma before_redirect_firstn tokens :
  firstn (List.length (before_redirect tokens)) tokens = before_redirect tokens.
Proof.
  induction tokens as [|t l IH]; cbn; [reflexivity|].
  destruct (is_redirect t); cbn; [reflexivity|now rewrite IH].
Qed.

Lemma before_redirect_shorter tokens :
  has_redirect tokens = true ->
  (List.length (before_redirect tokens) < List.length tokens)%nat.
Proof.
  induction tokens as [|t l IH]; cbn; [discriminate|].
  destruct (is_redirect t); cbn; [lia|]. intros H. apply IH in H. lia.
Qed.

Lemma copy_spec tokens :
  (List.length tokens <= 512)%nat ->
  fold_left (copy_arg tokens (Z.of_nat (List.length tokens) - 1))
            (seq 0 (counted tokens)) (repeat None 512)
  = map Some (expected_argv tokens)
      ++ repeat None (512 - List.length (expected_argv tokens)).
Proof.
  intros Hlen. unfold counted, expected_argv.
  destruct (has_redirect tokens) eqn:E.
  - pose proof (before_redirect_shorter tokens E).
    rewrite copy_plain by lia. now rewrite before_redirect_firstn.
  - destruct tokens as [|t0 l0] eqn:Et; [reflexivity|]. rewrite <- Et in *.
    assert (Hne : tokens <> []) by (rewrite Et; discriminate).
    pose proof (nth_error_last tokens EmptyString Hne) as Hlast.
    assert (Hl : List.length tokens = S (List.length tokens - 1)).
    { rewrite Et. cbn. lia. }
    destruct (last tokens EmptyString =? "&")%string eqn:Eamp.
    + rewrite Hl at 2. rewrite seq_S, fold_left_app. cbn [Nat.add fold_left].
      rewrite copy_plain by lia.
      unfold copy_arg.
      replace (Z.to_nat (Z.of_nat (List.length tokens) - 1))
        with (List.length tokens - 1)%nat by lia.
      rewrite Hlast. cbn [is_amp]. rewrite Eamp.
      replace (_ =? _) with true by (symmetry; apply Z.eqb_eq; lia).
      cbn [andb]. rewrite removelast_firstn_len.
      replace (Nat.pred (List.length tokens)) with (List.length tokens - 1)%nat by lia.
      rewrite length_firstn.
      replace (Init.Nat.min (List.length tokens - 1) (List.length tokens))
        with (List.length tokens - 1)%nat by lia.
      reflexivity.
    + rewrite copy_plain; try lia.
      * now rewrite firstn_all.
      * intros j Hj.
        destruct (Z.of_nat (List.length tokens) - 1 =? Z.of_nat j) eqn:Ej; [|reflexivity].
        replace (Z.to_nat (Z.of_nat (List.length tokens) - 1))
          with (List.length tokens - 1)%nat by lia.
        rewrite Hlast. cbn [is_amp andb]. exact Eamp.
Qed.

(** *** The redirections of lines 232-241 *)

Lemma redirect_stuck arguments l : fold_left (redirect arguments) l None = None.
Proof. induction l as [|j l IH]; cbn; auto. Qed.

Lemma redirect_spec suffix : forall prefix a b inp out,
  fold_left (redirect (prefix ++ suffix))
            (seq (List.length prefix) (List.length suffix - 1)) (Some (a, b))
  = Some (inp, out) ->
  inp = path_after "<" suffix a /\ out = path_after ">" suffix b.
Proof.
  induction suffix as [|t rest IH]; intros prefix a b inp out H.
  - cbn in H. now injection H as <- <-.
  - destruct rest as [|n rest'].
    + cbn in H. now injection H as <- <-.
    + cbn [List.length Nat.sub] in H.
      cbn [seq fold_left] in H.
      assert (Ht : nth (List.length prefix) (prefix ++ t :: n :: rest') EmptyString = t)
        by apply nth_middle.
      assert (Hn : nth (S (List.length prefix)) (prefix ++ t :: n :: rest') EmptyString = n).
      { replace (prefix ++ t :: n :: rest') with ((prefix ++ [t]) ++ n :: rest')
          by (now rewrite <- app_assoc).
        replace (S (List.length prefix)) with (List.length (prefix ++ [t]))
          by (rewrite length_app; cbn; lia).
        apply nth_middle. }
      assert (Hstep :
                redirect (prefix ++ t :: n :: rest') (Some (a, b)) (List.length prefix)
                = match (if (t =? "<")%string then strcpy128 n else Some a) with
                  | None => None
                  | Some a' =>
                      match (if (t =? ">")%string then strcpy128 n else Some b) with
                      | None => None
                      | Some b' => Some (a', b')
                      end
                  end).
      { unfold redirect. rewrite Ht, Hn. reflexivity. }
      rewrite Hstep in H. clear Hstep.
      destruct (if (t =? "<")%string then strcpy128 n else Some a) as [a'|] eqn:Ea;
        [|now rewrite redirect_stuck in H].
      destruct (if (t =? ">")%string then strcpy128 n else Some b) as [b'|] eqn:Eb;
        [|now rewrite redirect_stuck in H].
      replace (prefix ++ t :: n :: rest') with ((prefix ++ [t]) ++ n :: rest') in H
        by (now rewrite <- app_assoc).
      replace (S (List.length prefix)) with (List.length (prefix ++ [t])) in H
        by (rewrite length_app; cbn; lia).
      replace (List.length rest') with (List.length (n :: rest') - 1)%nat in H
        by (cbn; lia).
      apply IH in H. destruct H as [-> ->].
      assert (a' = if (t =? "<")%string then n else a) as ->.
      { destruct (t =? "<")%string; [|congruence].
        unfold strcpy128 in Ea. destruct (_ <? _)%nat; congruence. }
      assert (b' = if (t =? ">")%string then n else b) as ->.
      { destruct (t =? ">")%string; [|congruence].
        unfold strcpy128 in Eb. destruct (_ <? _)%nat; congruence. }
      split; reflexivity.
Qed.

(** *** What a built command holds *)

Lemma parse_tokens_built stray tokens com :
  parse_tokens stray tokens = Built com ->
  args com = map Some (expected_argv tokens)
               ++ repeat None (512 - List.length (expected_argv tokens)) /\
  numArgs com = Z.of_nat (counted tokens) /\
  input com = path_after "<" tokens EmptyString /\
  output com = path_after ">" tokens EmptyString /\
  (tokens <> [] ->
   background com = if String.eqb (last tokens EmptyString) "&" then 1 else 0).
Proof.
  unfold parse_tokens. intros H.
  destruct (scan tokens [] NO_REDIRECT) as [| |arguments argIndex] eqn:Es;
    try discriminate.
  apply scan_spec in Es. destruct Es as (-> & Hlen & Hz).
  unfold build in H.
  set (i := Z.of_nat (List.length tokens) - 1) in *.
  destruct (if i <? 0 then stray else nth_error tokens (Z.to_nat i)) as [lst|] eqn:El;
    [|discriminate].
  destruct (fold_left (redirect tokens) (seq 0 (Z.to_nat i)) (Some (EmptyString, EmptyString)))
    as [[inp out]|] eqn:Er; [|discriminate].
  injection H as <-. cbn [args numArgs input output background].
  rewrite Hz, Nat2Z.id. split; [|split; [reflexivity|]].
  - subst i. now apply copy_spec.
  - replace (Z.to_nat i) with (List.length tokens - 1)%nat in Er by lia.
    apply (redirect_spec tokens []) in Er. destruct Er as [-> ->].
    repeat split. intros Hne.
    assert (Hi : (i <? 0) = false).
    { apply Z.ltb_ge. destruct tokens; [congruence|]. subst i. cbn [List.length]. lia. }
    rewrite Hi in El.
    replace (Z.to_nat i) with (List.length tokens - 1)%nat in El by lia.
    rewrite (nth_error_last tokens EmptyString Hne) in El. injection El as <-.
    reflexivity.
Qed.

Lemma before_redirect_plain tokens :
  Forall (fun tok => is_redirect tok = false) (before_redirect tokens).
Proof.
  induction tokens as [|t l IH]; cbn; [constructor|].
  destruct (is_redirect t) eqn:E; constructor; auto.
Qed.

Lemma expected_argv_plain tokens :
  Forall (fun tok => is_redirect tok = false) (expected_argv tokens).
Proof.
  unfold expected_argv. destruct (has_redirect tokens) eqn:E.
  - apply before_redirect_plain.
  - assert (H : Forall (fun tok => is_redirect tok = false) tokens).
    { apply Forall_forall. intros t Ht.
      destruct (is_redirect t) eqn:Et; [|reflexivity].
      assert (has_redirect tokens = true); [|congruence].
      apply existsb_exists. eauto. }
    destruct (_ =? _)%string; [|exact H].
    clear - H. induction H as [|t l Ht Hl IH]; [constructor|].
    cbn [removelast]. destruct l; [constructor|]. constructor; auto.
Qed.

(** C2, as amended: when the builder yields a command, its argument
    vector is the tokens before the first [<] or [>] (the earlier of the
    two) or, without such an operator, all tokens except a final [&];
    [input_path] is the token following [<] and [output_path] the token
    following [>] (the last occurrence that has a token after it, if
    there are several); the vector holds no redirection operator.  An
    [&] that is not the final token is an ordinary argument and stays
    in the vector. *)
Theorem builder_result (stray : option string) (tokens : list string) (com : command) :
  parse_tokens stray tokens = Built com ->
  argv (args com) = expected_argv tokens /\
  input com = path_after "<" tokens EmptyString /\
  output com = path_after ">" tokens EmptyString /\
  Forall (fun tok => tok <> "<"%string /\ tok <> ">"%string) (argv (args com)) /\
  (has_redirect tokens = false -> last tokens EmptyString = "&"%string ->
   argv (args com) = removelast tokens).
Proof.
  intros H. apply parse_tokens_built in H. destruct H as (Ha & _ & Hi & Ho & _).
  assert (Hv : argv (args com) = expected_argv tokens)
    by (rewrite Ha; apply argv_prefix).
  rewrite Hv. repeat split; auto.
  - eapply Forall_impl; [|apply expected_argv_plain].
    intros t Ht. unfold is_redirect in Ht. apply orb_false_iff in Ht.
    destruct Ht as [H1 H2]. apply String.eqb_neq in H1, H2. auto.
  - intros Hr Hl. unfold expected_argv. rewrite Hr, Hl. reflexivity.
Qed.

Lemma builder_result_witness :
  let tokens := ["sort"; "-r"; "<"; "in"; ">"; "out"; "&"]%string in
  exists com,
    parse_tokens None tokens = Built com /\
    (argv (args com) = expected_argv tokens /\
     input com = path_after "<" tokens EmptyString /\
     output com = path_after ">" tokens EmptyString /\
     Forall (fun tok => tok <> "<"%string /\ tok <> ">"%string) (argv (args com)) /\
     (has_redirect tokens = false -> last tokens EmptyString = "&"%string ->
      argv (args com) = removelast tokens)).
Proof.
  cbn zeta. eexists. split.
  - vm_compute. reflexivity.
  - apply (builder_result None). vm_compute. reflexivity.
Defined.

(** C2 as stated fails: an [&] that is not the final token is kept in
    the argument vector. *)
Lemma amp_inside_stays_in_argv :
  exists com,
    parse_tokens None ["sleep"; "&"; "5"]%string = Built com /\
    In "&"%string (argv (args com)).
Proof.
  eexists. split; [vm_compute; reflexivity|]. cbn. auto.
Qed.

(** ** An iteration that reaches the dispatch *)

Lemma expected_argv_counted tokens :
  (List.length (expected_argv tokens) <= counted tokens)%nat.
Proof.
  unfold expected_argv, counted. destruct (has_redirect tokens); [lia|].
  destruct (_ =? _)%string; [|lia].
  rewrite removelast_firstn_len, length_firstn. lia.
Qed.

(** A command with a first argument has a positive count. *)
Lemma built_first_arg stray tokens com name :
  parse_tokens stray tokens = Built com ->
  nth 0 (args com) None = Some name ->
  numArgs com <> 0.
Proof.
  intros H Hn. apply parse_tokens_built in H. destruct H as (Ha & Hc & _).
  pose proof (expected_argv_counted tokens) as Hle.
  rewrite Ha in Hn. destruct (expected_argv tokens) as [|a l].
  - cbn in Hn. discriminate.
  - cbn [List.length] in Hle. lia.
Qed.

Lemma apply_mode_args fo com : args (apply_mode fo com) = args com.
Proof. unfold apply_mode. now destruct (fo =? 1). Qed.

Lemma apply_mode_numArgs fo com : numArgs (apply_mode fo com) = numArgs com.
Proof. unfold apply_mode. now destruct (fo =? 1). Qed.

Lemma runShell_built o s bytes line com :
  o_getline o = Some bytes ->
  expanded_line (o_getpid o) bytes (o_slack o) = Some line ->
  parse_tokens (o_stray o) (token_stream line) = Built com ->
  numArgs com <> 0 ->
  let p := prelude o s in
  let d := dispatch o (apply_mode (foregroundOnly s) com) (after p) in
  runShell o s = Result (events p ++ events d) (how d) (after d).
Proof.
  intros Hg He Hp Hn. cbn zeta. rewrite runShell_parts. cbn zeta.
  unfold command_part. rewrite Hg, He. unfold interpret. rewrite Hp.
  apply Z.eqb_neq in Hn. rewrite Hn.
  rewrite bind_get. now rewrite prelude_keeps_mode.
Qed.

(** ** [status] *)

Lemma dispatch_status o com s :
  nth 0 (args com) None = Some "status"%string ->
  dispatch o com s = Result [Output (status_text (lfStatus s))] (Returned 0) s.
Proof. intros H. unfold dispatch. rewrite H. reflexivity. Qed.

Lemma land_low7_shifted c : Z.land (Z.shiftl c 8) 127 = 0.
Proof.
  apply Z.bits_inj'. intros n Hn. rewrite Z.land_spec, Z.bits_0.
  destruct (Z.ltb_spec n 8).
  - rewrite Z.shiftl_spec_low by lia. reflexivity.
  - change 127 with (Z.ones 7). rewrite Z.ones_spec_high by lia.
    apply andb_false_r.
Qed.

Lemma exit_code_back c : 0 <= c < 256 -> WEXITSTATUS (exited_with c) = c.
Proof.
  intros Hc. unfold WEXITSTATUS, exited_with.
  change 255 with (Z.ones 8). rewrite Z.land_ones by lia.
  rewrite Z.mod_small by (change (2 ^ 8) with 256; lia).
  change 65280 with (Z.shiftl (Z.ones 8) 8).
  rewrite <- Z.shiftl_land, Z.land_ones by lia.
  rewrite Z.mod_small by (change (2 ^ 8) with 256; lia).
  rewrite Z.shiftr_shiftl_l by lia. now rewrite Z.sub_diag.
Qed.

Lemma status_text_never : status_text NEVER_RUN = ("exit value 0" ++ newline)%string.
Proof. reflexivity. Qed.

Lemma status_text_exited c :
  0 <= c < 256 ->
  status_text (exited_with c) = ("exit value " ++ dec c ++ newline)%string.
Proof.
  intros Hc. unfold status_text.
  assert (H0 : 0 <= exited_with c).
  { unfold exited_with. apply Z.shiftl_nonneg. apply Z.land_nonneg. lia. }
  replace (exited_with c =? NEVER_RUN) with false
    by (symmetry; apply Z.eqb_neq; unfold NEVER_RUN; lia).
  unfold WIFEXITED, WTERMSIG. unfold exited_with at 1.
  rewrite land_low7_shifted. cbn [Z.eqb]. now rewrite exit_code_back.
Qed.

Lemma status_text_killed sig :
  1 <= sig < 128 ->
  status_text (killed_by sig)
  = ("terminated by signal " ++ dec sig ++ newline)%string.
Proof.
  intros Hs. unfold status_text, killed_by.
  replace (sig =? NEVER_RUN) with false
    by (symmetry; apply Z.eqb_neq; unfold NEVER_RUN; lia).
  assert (Hl : Z.land sig 127 = sig).
  { change 127 with (Z.ones 7). rewrite Z.land_ones by lia.
    apply Z.mod_small. change (2 ^ 7) with 128. lia. }
  unfold WIFEXITED, WTERMSIG. rewrite Hl.
  replace (sig =? 0) with false by (symmetry; apply Z.eqb_neq; lia).
  reflexivity.
Qed.

Lemma status_text_dumped sig :
  1 <= sig < 128 ->
  status_text (killed_by sig + 128)
  = ("terminated by signal " ++ dec sig ++ newline)%string.
Proof.
  intros Hs. unfold status_text, killed_by.
  replace (sig + 128 =? NEVER_RUN) with false
    by (symmetry; apply Z.eqb_neq; unfold NEVER_RUN; lia).
  assert (Hl : Z.land (sig + 128) 127 = sig).
  { change 127 with (Z.ones 7). rewrite Z.land_ones by lia.
    change (2 ^ 7) with 128. rewrite <- (Z.mul_1_l 128) at 1.
    rewrite Z.mod_add by lia. apply Z.mod_small. lia. }
  unfold WIFEXITED, WTERMSIG. rewrite Hl.
  replace (sig =? 0) with false by (symmetry; apply Z.eqb_neq; lia).
  reflexivity.
Qed.

(** An iteration whose command is [status] prints, after the prelude,
    the text for the content of [lfStatus] and nothing else: "exit
    value 0" for the initial -1234, the exit code for the status of an
    exit, "terminated by signal N" for the status of a death by signal
    N, with or without a core dump.  It creates no process and leaves
    [lfStatus] as it was.  Whose status [lfStatus] holds is another
    matter: see [status_after_foreground] and
    [status_after_interrupted_wait]. *)
Lemma status_builtin (o : oracle) (s : state)
        (bytes : list ascii) (line : string) (com : command) :
  o_getline o = Some bytes ->
  expanded_line (o_getpid o) bytes (o_slack o) = Some line ->
  parse_tokens (o_stray o) (token_stream line) = Built com ->
  nth 0 (args com) None = Some "status"%string ->
  let r := runShell o s in
  let text := status_text (lfStatus s) in
  how r = Returned 0 /\
  events r = events (prelude o s) ++ [Output text] /\
  Forall not_fork (events r) /\
  after r = after (prelude o s) /\
  lfStatus (after r) = lfStatus s /\
  (lfStatus s = NEVER_RUN -> text = ("exit value 0" ++ newline)%string) /\
  (forall code, 0 <= code < 256 -> lfStatus s = exited_with code ->
                text = ("exit value " ++ dec code ++ newline)%string) /\
  (forall sig, 1 <= sig < 128 ->
               lfStatus s = killed_by sig \/ lfStatus s = killed_by sig + 128 ->
               text = ("terminated by signal " ++ dec sig ++ newline)%string).
Proof.
  intros Hg He Hp Hn. cbn zeta.
  rewrite (runShell_built o s bytes line com Hg He Hp (built_first_arg _ _ _ _ Hp Hn)).
  cbn zeta. rewrite dispatch_status by (now rewrite apply_mode_args).
  cbn [how events after]. rewrite (prelude_keeps_status o s).
  split; [reflexivity|]. split; [reflexivity|]. split; [|split; [reflexivity|]].
  - apply Forall_app. split; [apply prelude_no_fork|]. repeat constructor.
  - split; [reflexivity|]. split; [|split].
    + intros ->. apply status_text_never.
    + intros code Hc ->. now apply status_text_exited.
    + intros sig Hs [-> | ->]; [now apply status_text_killed|now apply status_text_dumped].
Qed.

(** ** External commands: foreground and background *)

Arguments dec : simpl never.

Lemma dispatch_external o com s name pid :
  nth 0 (args com) None = Some name ->
  name <> "exit"%string -> name <> "cd"%string -> name <> "status"%string ->
  o_fork o = Some pid ->
  let r := parent pid com (set_children ((pid, o_child o) :: children s) s) in
  how r = Next tt ->
  dispatch o com s = Result (Fork pid (child com) :: events r) (Returned 0) (after r).
Proof.
  intros Hn H1 H2 H3 Hf r Hr. unfold dispatch. rewrite Hn, Hf.
  apply String.eqb_neq in H1, H2, H3. rewrite H1, H2, H3.
  rewrite (bind_next (emit _) _ s tt eq_refl). cbn [emit events after].
  rewrite (bind_next (modify _) _ s tt eq_refl). cbn [modify events after].
  fold r. rewrite (bind_next _ _ _ tt Hr).
  cbn [return_ events how after app]. now rewrite app_nil_r.
Qed.

Lemma waitpid_result pid old nohang s :
  waitpid pid old nohang s =
  match Kernel.waitpid pid nohang (children s) with
  | (r, stored, t) =>
      Result [Waitpid pid nohang]
             (Next (r, match stored with Some v => v | None => old end))
             (set_children t s)
  end.
Proof.
  unfold waitpid. rewrite bind_get.
  rewrite (bind_next (emit _) _ s tt eq_refl). cbn [emit events after how].
  destruct (Kernel.waitpid pid nohang (children s)) as [[r stored] t].
  rewrite (bind_next (modify _) _ s tt eq_refl). reflexivity.
Qed.

Lemma kernel_waitpid_head pid nohang c t :
  Kernel.waitpid pid nohang ((pid, c) :: t) =
  match c with
  | Running => (if nohang then 0 else -1, None, (pid, c) :: t)
  | Zombie status => (pid, Some status, t)
  end.
Proof.
  unfold Kernel.waitpid. cbn [Kernel.lookup Kernel.remove]. rewrite Z.eqb_refl.
  now destruct c.
Qed.

Lemma waitpid_child pid old nohang s c t :
  children s = (pid, c) :: t ->
  waitpid pid old nohang s =
  match c with
  | Running =>
      Result [Waitpid pid nohang] (Next (if nohang then 0 else -1, old))
             (set_children ((pid, c) :: t) s)
  | Zombie status =>
      Result [Waitpid pid nohang] (Next (pid, status)) (set_children t s)
  end.
Proof.
  intros Hc. rewrite waitpid_result, Hc, kernel_waitpid_head. now destruct c.
Qed.

Lemma parent_foreground pid com s c t :
  background com = 0 ->
  children s = (pid, c) :: t ->
  let r := parent pid com s in
  how r = Next tt /\
  bgRunning (after r) = bgRunning s /\
  (exists tail, events r = Waitpid pid false :: tail /\
                (tail = [] \/ tail = [Output interrupted])) /\
  (forall st, c = Zombie st -> lfStatus (after r) = st /\ children (after r) = t).
Proof.
  intros Hb Hc. cbn zeta. unfold parent. rewrite Hb. cbn [Z.eqb andb].
  rewrite bind_get.
  pose proof (waitpid_child pid (lfStatus s) false s c t Hc) as Hw.
  destruct c as [|st]; rewrite (bind_result _ _ _ _ _ _ Hw);
    rewrite (bind_next (modify _) _ _ tt eq_refl);
    cbn [modify events how after app snd]; rewrite andb_true_r; unfold printf.
  - destruct (lfStatus s =? 2); cbn [emit ret how events after];
      (split; [reflexivity|]); (split; [reflexivity|]);
      (split; [eexists; split; [reflexivity|]; auto|]); discriminate.
  - destruct (st =? 2); cbn [emit ret how events after];
      (split; [reflexivity|]); (split; [reflexivity|]);
      (split; [eexists; split; [reflexivity|]; auto|]);
      intros st0 E; injection E as <-; split; reflexivity.
Qed.


(** An external command whose flag is 0 when it is dispatched: the
    parent blocks on the child and records its status. *)
Lemma external_foreground o s bytes line com name pid :
  o_getline o = Some bytes ->
  expanded_line (o_getpid o) bytes (o_slack o) = Some line ->
  parse_tokens (o_stray o) (token_stream line) = Built com ->
  nth 0 (args com) None = Some name ->
  name <> "exit"%string -> name <> "cd"%string -> name <> "status"%string ->
  o_fork o = Some pid ->
  let p := prelude o s in
  let r := runShell o s in
  let run := apply_mode (foregroundOnly s) com in
  background run = 0 ->
  (exists tail,
     events r = events p ++ Fork pid (child run) :: Waitpid pid false :: tail /\
     (tail = [] \/ tail = [Output interrupted])) /\
  bgRunning (after r) = bgRunning (after p) /\
  (forall st, o_child o = Zombie st -> lfStatus (after r) = st).
Proof.
  intros Hg He Hp Hn H1 H2 H3 Hf. cbn zeta. intros Hb.
  rewrite (runShell_built o s bytes line com Hg He Hp (built_first_arg _ _ _ _ Hp Hn)).
  cbn zeta. cbn [events after].
  set (s0 := after (prelude o s)).
  set (s1 := set_children ((pid, o_child o) :: children s0) s0).
  set (run := apply_mode (foregroundOnly s) com) in *.
  assert (Hc : children s1 = (pid, o_child o) :: children s0) by reflexivity.
  assert (Hn' : nth 0 (args run) None = Some name)
    by (unfold run; now rewrite apply_mode_args).
  destruct (parent_foreground pid run s1 _ _ Hb Hc) as (Hh & Hbg & (tail & Hev & Ht) & Hst).
  rewrite (dispatch_external o run s0 name pid Hn' H1 H2 H3 Hf Hh).
  cbn [events after]. fold s1. rewrite Hev.
  split; [eauto|]. split; [exact Hbg|].
  intros st Hz. now apply Hst.
Qed.

(** The blocking wait of line 369 when a signal handler interrupts it:
    [waitpid] returns -1 and stores nothing, so [lfStatus] keeps what
    it held, and the child, still running, stays in the kernel's table
    and is in no slot of the job table. *)
Lemma interrupted_foreground o s bytes line com name pid :
  o_getline o = Some bytes ->
  expanded_line (o_getpid o) bytes (o_slack o) = Some line ->
  parse_tokens (o_stray o) (token_stream line) = Built com ->
  nth 0 (args com) None = Some name ->
  name <> "exit"%string -> name <> "cd"%string -> name <> "status"%string ->
  o_fork o = Some pid ->
  o_child o = Running ->
  let p := after (prelude o s) in
  let r := runShell o s in
  let run := apply_mode (foregroundOnly s) com in
  background run = 0 ->
  how r = Returned 0 /\
  lfStatus (after r) = lfStatus s /\
  bgRunning (after r) = bgRunning p /\
  children (after r) = (pid, Running) :: children p.
Proof.
  intros Hg He Hp Hn H1 H2 H3 Hf Hc. cbn zeta. intros Hb.
  rewrite (runShell_built o s bytes line com Hg He Hp (built_first_arg _ _ _ _ Hp Hn)).
  cbn zeta. set (p := after (prelude o s)).
  set (run := apply_mode (foregroundOnly s) com) in *.
  assert (Hn' : nth 0 (args run) None = Some name)
    by (unfold run; now rewrite apply_mode_args).
  set (s1 := set_children ((pid, o_child o) :: children p) p).
  assert (Hpar : parent pid run s1
                 = Result (Waitpid pid false
                             :: (if lfStatus s1 =? 2 then [Output interrupted] else []))
                          (Next tt)
                          (set_lfStatus (lfStatus s1)
                             (set_children ((pid, Running) :: children p) s1))).
  { unfold parent. rewrite Hb. cbn [Z.eqb andb]. rewrite bind_get.
    assert (Hc1 : children s1 = (pid, Running) :: children p)
      by (unfold s1; cbn; now rewrite Hc).
    pose proof (waitpid_child pid (lfStatus s1) false s1 Running (children p) Hc1) as Hw.
    rewrite (bind_result _ _ _ _ _ _ Hw).
    rewrite (bind_next (modify _) _ _ tt eq_refl).
    cbn [modify events how after app snd]. rewrite andb_true_r. unfold printf.
    destruct (lfStatus s1 =? 2); reflexivity. }
  rewrite (dispatch_external o run p name pid Hn' H1 H2 H3 Hf)
    by (fold s1; rewrite Hpar; reflexivity).
  fold s1. rewrite Hpar. cbn [events how after].
  split; [reflexivity|]. split; [|split; reflexivity].
  cbn. unfold p. apply (prelude_keeps_status o s).
Qed.

(** [status] after a foreground command whose child the parent waited
    for: the text is that of the child's status. *)
Lemma status_after_foreground o1 o2 s bytes1 line1 com1 name pid st bytes2 line2 com2 :
  o_getline o1 = Some bytes1 ->
  expanded_line (o_getpid o1) bytes1 (o_slack o1) = Some line1 ->
  parse_tokens (o_stray o1) (token_stream line1) = Built com1 ->
  nth 0 (args com1) None = Some name ->
  name <> "exit"%string -> name <> "cd"%string -> name <> "status"%string ->
  o_fork o1 = Some pid ->
  o_child o1 = Zombie st ->
  background (apply_mode (foregroundOnly s) com1) = 0 ->
  o_getline o2 = Some bytes2 ->
  expanded_line (o_getpid o2) bytes2 (o_slack o2) = Some line2 ->
  parse_tokens (o_stray o2) (token_stream line2) = Built com2 ->
  nth 0 (args com2) None = Some "status"%string ->
  let r1 := runShell o1 s in
  let r2 := runShell o2 (after r1) in
  events r2 = events (prelude o2 (after r1)) ++ [Output (status_text st)].
Proof.
  intros Hg He Hp Hn H1 H2 H3 Hf Hz Hb Hg2 He2 Hp2 Hn2. cbn zeta.
  destruct (external_foreground o1 s bytes1 line1 com1 name pid
              Hg He Hp Hn H1 H2 H3 Hf Hb) as (_ & _ & Hst).
  destruct (status_builtin o2 (after (runShell o1 s)) bytes2 line2 com2 Hg2 He2 Hp2 Hn2)
    as (_ & Hev & _).
  rewrite Hev, (Hst st Hz). reflexivity.
Qed.

(** [status] after a foreground command whose wait was interrupted:
    the text is that of whatever [lfStatus] held before that command,
    the status of an earlier command or the initial value. *)
Lemma status_after_interrupted_wait o1 o2 s bytes1 line1 com1 name pid bytes2 line2 com2 :
  o_getline o1 = Some bytes1 ->
  expanded_line (o_getpid o1) bytes1 (o_slack o1) = Some line1 ->
  parse_tokens (o_stray o1) (token_stream line1) = Built com1 ->
  nth 0 (args com1) None = Some name ->
  name <> "exit"%string -> name <> "cd"%string -> name <> "status"%string ->
  o_fork o1 = Some pid ->
  o_child o1 = Running ->
  background (apply_mode (foregroundOnly s) com1) = 0 ->
  o_getline o2 = Some bytes2 ->
  expanded_line (o_getpid o2) bytes2 (o_slack o2) = Some line2 ->
  parse_tokens (o_stray o2) (token_stream line2) = Built com2 ->
  nth 0 (args com2) None = Some "status"%string ->
  let r1 := runShell o1 s in
  let r2 := runShell o2 (after r1) in
  events r2 = events (prelude o2 (after r1)) ++ [Output (status_text (lfStatus s))].
Proof.
  intros Hg He Hp Hn H1 H2 H3 Hf Hc Hb Hg2 He2 Hp2 Hn2. cbn zeta.
  destruct (interrupted_foreground o1 s bytes1 line1 com1 name pid
              Hg He Hp Hn H1 H2 H3 Hf Hc Hb) as (_ & Hst & _).
  destruct (status_builtin o2 (after (runShell o1 s)) bytes2 line2 com2 Hg2 He2 Hp2 Hn2)
    as (_ & Hev & _).
  rewrite Hev, Hst. reflexivity.
Qed.



(** ** The recorded status changes only in a foreground wait *)

Lemma waits_or_keeps_of_keeps {A} (c : M A) :
  keeps status_kept c -> waits_or_keeps c.
Proof. intros H s. left. apply H. Qed.

Lemma waits_or_keeps_bind {A B} (c : M A) (k : A -> M B) :
  waits_or_keeps c -> (forall a, waits_or_keeps (k a)) -> waits_or_keeps (bind c k).
Proof.
  intros Hc Hk s. rewrite bind_events. unfold bind.
  destruct (Hc s) as [H|[pid H]].
  - destruct (how (c s)) as [a| | |]; cbn [after]; [|now left..].
    destruct (Hk a (after (c s))) as [H'|[pid H']].
    + left. unfold status_kept in *. congruence.
    + right. exists pid. apply in_or_app. now right.
  - right. exists pid. apply in_or_app. now left.
Qed.

Lemma kill_all_keeps_status : keeps status_kept kill_all.
Proof.
  unfold kill_all, kill_slot, printf.
  keeps_all status_kept_refl status_kept_trans ltac:(reflexivity).
Qed.

Lemma waitpid_keeps_status pid old nohang : keeps status_kept (waitpid pid old nohang).
Proof. intros s. apply (waitpid_keeps pid old nohang s). Qed.

Lemma parent_waits_or_keeps pid com : waits_or_keeps (parent pid com).
Proof.
  unfold parent, printf. destruct (background com =? 1).
  - apply waits_or_keeps_of_keeps.
    step_keeps status_kept_refl status_kept_trans;
      [step_keeps status_kept_refl status_kept_trans|].
    step_keeps status_kept_refl status_kept_trans;
      [keeps_all status_kept_refl status_kept_trans ltac:(reflexivity)|].
    step_keeps status_kept_refl status_kept_trans;
      [step_keeps status_kept_refl status_kept_trans|].
    step_keeps status_kept_refl status_kept_trans; [apply waitpid_keeps_status|].
    keeps_all status_kept_refl status_kept_trans ltac:(reflexivity).
  - intros s. right. exists pid. rewrite bind_get, bind_events.
    apply in_or_app. left. rewrite waitpid_result.
    destruct (Kernel.waitpid pid false (children s)) as [[r stored] t].
    cbn. now left.
Qed.

Lemma dispatch_waits_or_keeps o com : waits_or_keeps (dispatch o com).
Proof.
  unfold dispatch, printf.
  destruct (nth 0 (args com) None) as [name|];
    [|apply waits_or_keeps_of_keeps; step_keeps status_kept_refl status_kept_trans].
  destruct (name =? "exit")%string.
  { apply waits_or_keeps_of_keeps.
    step_keeps status_kept_refl status_kept_trans;
      [apply kill_all_keeps_status|step_keeps status_kept_refl status_kept_trans]. }
  destruct (name =? "cd")%string.
  { apply waits_or_keeps_of_keeps.
    keeps_all status_kept_refl status_kept_trans ltac:(reflexivity). }
  destruct (name =? "status")%string.
  { apply waits_or_keeps_of_keeps.
    keeps_all status_kept_refl status_kept_trans ltac:(reflexivity). }
  destruct (o_fork o) as [pid|].
  2:{ apply waits_or_keeps_of_keeps.
      keeps_all status_kept_refl status_kept_trans ltac:(reflexivity). }
  apply waits_or_keeps_bind; [apply waits_or_keeps_of_keeps;
    step_keeps status_kept_refl status_kept_trans|intros _].
  apply waits_or_keeps_bind; [apply waits_or_keeps_of_keeps;
    keeps_all status_kept_refl status_kept_trans ltac:(reflexivity)|intros _].
  apply waits_or_keeps_bind; [apply parent_waits_or_keeps|intros _].
  apply waits_or_keeps_of_keeps. step_keeps status_kept_refl status_kept_trans.
Qed.

(** An iteration leaves the recorded status alone unless it makes the
    blocking wait of line 369: background commands, built-ins, comments
    and the sweep never touch it. *)
Lemma status_set_only_by_foreground_wait o : waits_or_keeps (runShell o).
Proof.
  unfold runShell.
  apply waits_or_keeps_bind;
    [apply waits_or_keeps_of_keeps, prelude_keeps_status|intros _].
  unfold command_part, interpret, printf.
  destruct (o_getline o) as [bytes|].
  2:{ apply waits_or_keeps_of_keeps.
      keeps_all status_kept_refl status_kept_trans ltac:(reflexivity). }
  destruct (expanded_line _ _ _) as [line|];
    [|apply waits_or_keeps_of_keeps; step_keeps status_kept_refl status_kept_trans].
  destruct (parse_tokens _ _) as [| |com].
  - apply waits_or_keeps_of_keeps.
    keeps_all status_kept_refl status_kept_trans ltac:(reflexivity).
  - apply waits_or_keeps_of_keeps. step_keeps status_kept_refl status_kept_trans.
  - destruct (numArgs com =? 0);
      [apply waits_or_keeps_of_keeps; step_keeps status_kept_refl status_kept_trans|].
    apply waits_or_keeps_bind;
      [apply waits_or_keeps_of_keeps; step_keeps status_kept_refl status_kept_trans|].
    intros s0. apply dispatch_waits_or_keeps.
Qed.

(** ** The foreground-only toggle *)





(** The check of lines 92-101 on a valid mode. *)
Lemma mode_notice_pending s :
  sigTSTPChange s = 1 ->
  foregroundOnly s = 0 \/ foregroundOnly s = 1 ->
  mode_notice s =
  Result [Output (notice_for (foregroundOnly s))] (Next tt) (set_sigTSTPChange 0 s).
Proof.
  intros Hc [H|H]; unfold mode_notice, bind, get, printf, emit, modify, notice_for;
    cbn; rewrite Hc, H; reflexivity.
Qed.

Lemma mode_notice_idle s :
  sigTSTPChange s = 0 -> mode_notice s = Result [] (Next tt) s.
Proof.
  intros Hc. unfold mode_notice, bind, get. cbn. rewrite Hc. reflexivity.
Qed.

(** An iteration entered with a valid mode: a notice first if the flag
    is set, no notice afterwards, and the flag is clear at the end. *)
Lemma iteration_notice o s :
  foregroundOnly s = 0 \/ foregroundOnly s = 1 ->
  sigTSTPChange s = 0 \/ sigTSTPChange s = 1 ->
  let r := runShell o s in
  foregroundOnly (after r) = foregroundOnly s /\
  sigTSTPChange (after r) = 0 /\
  exists rest,
    events r =
      (if sigTSTPChange s =? 1 then [Output (notice_for (foregroundOnly s))] else [])
      ++ rest /\
    notices rest = 0%nat.
Proof.
  intros Hm Hc. cbn zeta. rewrite runShell_parts. cbn [events after].
  destruct (prelude_parts o s) as (rest & Hev & Hq & Hk1 & Hk2).
  destruct (command_part_keeps_mode o (after (prelude o s))) as [Hk3 Hk4].
  pose proof (command_part_quiet o (after (prelude o s))) as Hq2.
  rewrite Hk3, Hk4, Hk1, Hk2, Hev.
  destruct Hc as [Hc|Hc]; rewrite Hc; cbn [Z.eqb Pos.eqb].
  - rewrite (mode_notice_idle s Hc). cbn [events after app].
    repeat split; auto.
    exists (rest ++ events (command_part o (after (prelude o s)))).
    split; [reflexivity|]. apply notices_quiet, Forall_app. auto.
  - rewrite (mode_notice_pending s Hc Hm). cbn [events after app].
    repeat split; auto.
    exists (rest ++ events (command_part o (after (prelude o s)))).
    split; [reflexivity|]. apply notices_quiet, Forall_app. auto.
Qed.




(** ** [cd] *)

(** Without a final [&] that the copy loop skips, the count is the
    length of the argument vector. *)
Lemma counted_argv tokens :
  has_redirect tokens = true \/ last tokens EmptyString <> "&"%string ->
  counted tokens = List.length (expected_argv tokens).
Proof.
  unfold counted, expected_argv. intros [H|H].
  - now rewrite H.
  - destruct (has_redirect tokens); [reflexivity|].
    apply String.eqb_neq in H. now rewrite H.
Qed.

(** C7, as amended, for a [cd] line that does not end with [&] or that
    holds a redirection operator: with no argument [cd] changes to the
    value of HOME; with exactly one argument it changes to that path;
    with more than one argument it changes nothing: no argument is
    used.  The arguments are the tokens after [cd] and before any
    redirection operator.  It returns to the prompt with every variable
    of the interpreter as the prelude left it.  (On a line that ends
    with [&] and holds no redirection operator the builder counts the
    [&] as an argument: see [cd_with_marker].) *)
Theorem cd_builtin (o : oracle) (s : state)
        (bytes : list ascii) (line : string) (com : command)
        (operands : list string) :
  o_getline o = Some bytes ->
  expanded_line (o_getpid o) bytes (o_slack o) = Some line ->
  parse_tokens (o_stray o) (token_stream line) = Built com ->
  argv (args com) = "cd"%string :: operands ->
  has_redirect (token_stream line) = true \/
    last (token_stream line) EmptyString <> "&"%string ->
  let r := runShell o s in
  how r = Returned 0 /\
  after r = after (prelude o s) /\
  events r =
    events (prelude o s) ++
    match operands with
    | [] => [Chdir (o_home o)]
    | [path] => [Chdir (Some path)]
    | _ => []
    end.
Proof.
  intros Hg He Hp Hv Hl. cbn zeta.
  pose proof (parse_tokens_built _ _ _ Hp) as (Ha & Hc & _).
  assert (Hv' : expected_argv (token_stream line) = "cd"%string :: operands).
  { rewrite <- Hv, Ha. symmetry. apply argv_prefix. }
  rewrite (counted_argv _ Hl), Hv' in Hc. rewrite Hv' in Ha.
  assert (Hn : nth 0 (args com) None = Some "cd"%string) by (now rewrite Ha).
  rewrite (runShell_built o s bytes line com Hg He Hp (built_first_arg _ _ _ _ Hp Hn)).
  cbn zeta. unfold dispatch.
  rewrite apply_mode_args, apply_mode_numArgs, Hn, Hc.
  cbn [String.eqb Ascii.eqb Bool.eqb].
  destruct operands as [|path [|path2 more]].
  - cbn. auto.
  - rewrite Ha. cbn. auto.
  - replace (Z.of_nat (List.length ("cd"%string :: path :: path2 :: more)) =? 1)
      with false by (symmetry; apply Z.eqb_neq; cbn [List.length]; lia).
    replace (Z.of_nat (List.length ("cd"%string :: path :: path2 :: more)) =? 2)
      with false by (symmetry; apply Z.eqb_neq; cbn [List.length]; lia).
    cbn. rewrite ?app_nil_r. auto.
Qed.

Lemma cd_builtin_witness :
  let o := typed "cd /tmp" in
  let r := runShell o initial in
  how r = Returned 0 /\
  after r = after (prelude o initial) /\
  events r = events (prelude o initial) ++ [Chdir (Some "/tmp"%string)].
Proof.
  cbn zeta.
  refine (cd_builtin (typed "cd /tmp") initial (bytes_of "cd /tmp") "cd /tmp"%string
            _ ["/tmp"%string] eq_refl _ _ _ _).
  - vm_compute. reflexivity.
  - vm_compute. reflexivity.
  - vm_compute. reflexivity.
  - right. vm_compute. discriminate.
Defined.

(** C7 as stated fails: with two arguments [cd] does not change to the
    first one; no directory change is made at all. *)
Lemma cd_two_arguments_no_chdir :
  let r := runShell (typed "cd a b") initial in
  events r = [Output ":"] /\
  ~ In (Chdir (Some "a"%string)) (events r).
Proof.
  vm_compute. split; [reflexivity|]. intros [H|[]]. discriminate.
Qed.

(** Outside the amended claim: on a [cd] line that ends with [&] the
    builder counts the [&] though it does not store it, so [cd &] passes
    the NULL of [args[1]] to [chdir] and [cd /tmp &] calls no [chdir]. *)
Lemma cd_with_marker :
  events (runShell (typed "cd &") initial) = [Output ":"; Chdir None] /\
  events (runShell (typed "cd /tmp &") initial) = [Output ":"].
Proof. vm_compute. split; reflexivity. Qed.

(** ** Blank lines and comments *)

Lemma blank_inert c : blank c -> inert c.
Proof. intros [-> | ->]; repeat split; discriminate. Qed.

Lemma hash_inert : inert HASH.
Proof. repeat split; discriminate. Qed.

Lemma eqb_false_of_neq (c d : ascii) : c <> d -> Ascii.eqb c d = false.
Proof. intros H. now apply Ascii.eqb_neq. Qed.

Lemma chomp_prefix p l :
  Forall inert p -> chomp (p ++ l) = p ++ chomp l.
Proof.
  induction 1 as [|c p (H1 & H2 & _) _ IH]; [reflexivity|]. cbn.
  rewrite (eqb_false_of_neq _ _ H1), (eqb_false_of_neq _ _ H2). now rewrite IH.
Qed.

Lemma cstr_prefix p l : Forall inert p -> cstr (p ++ l) = p ++ cstr l.
Proof.
  induction 1 as [|c p (H1 & _) _ IH]; [reflexivity|]. cbn.
  rewrite (eqb_false_of_neq _ _ H1). now rewrite IH.
Qed.

Lemma sprintf_prefix p fmt arg :
  Forall inert p -> sprintf (p ++ fmt) arg = option_map (app p) (sprintf fmt arg).
Proof.
  induction 1 as [|c p (_ & _ & H3 & _) _ IH]; cbn.
  - now destruct (sprintf fmt arg).
  - rewrite (eqb_false_of_neq _ _ H3), IH. now destruct (sprintf fmt arg).
Qed.

Lemma update_prefix {A} (p l : list A) n x :
  (List.length p <= n)%nat -> update n x (p ++ l) = p ++ update (n - List.length p) x l.
Proof.
  revert n. induction p as [|h p IH]; intros n Hn; cbn.
  - now rewrite Nat.sub_0_r.
  - destruct n as [|n]; cbn in Hn; [lia|]. cbn. rewrite IH by lia.
    destruct l; reflexivity.
Qed.

Lemma overwrite_prefix src : forall buf r,
  overwrite src buf = Some r -> exists t, r = src ++ t.
Proof.
  induction src as [|c src IH]; intros buf r H; cbn in H.
  - injection H as <-. now exists buf.
  - destruct buf as [|b buf]; [discriminate|].
    destruct (overwrite src buf) as [r'|] eqn:E; [|discriminate].
    injection H as <-. destruct (IH _ _ E) as [t ->]. now exists t.
Qed.

(** The replacement leaves the bytes in front of index [i-1] alone. *)
Lemma replace_at_prefix pid p t i r :
  Forall inert p -> (List.length p < i)%nat ->
  Expand.replace_at pid (p ++ t) i = Some r -> exists t', r = p ++ t'.
Proof.
  intros Hp Hi H. unfold Expand.replace_at in H.
  destruct i as [|i1]; [discriminate|].
  destruct (S i1 <? strlen (p ++ t))%nat; [|discriminate].
  rewrite (cstr_prefix _ _ Hp) in H.
  rewrite (update_prefix p) in H by lia.
  rewrite (update_prefix p) in H by lia.
  rewrite (sprintf_prefix _ _ _ Hp) in H.
  destruct (sprintf _ _) as [printed|]; [|discriminate]. cbn [option_map] in H.
  apply overwrite_prefix in H. destruct H as [t' ->].
  exists (printed ++ [NUL] ++ t'). now rewrite <- !app_assoc.
Qed.

Lemma nth_error_prefix_inert p t i c :
  Forall inert p -> nth_error (p ++ t) i = Some c -> c = DOLLAR ->
  (List.length p <= i)%nat.
Proof.
  intros Hp Hn ->. destruct (Nat.ltb_spec i (List.length p)) as [Hlt|]; [|assumption].
  rewrite nth_error_app1 in Hn by assumption.
  apply nth_error_In in Hn. rewrite Forall_forall in Hp.
  destruct (Hp _ Hn) as (_ & _ & _ & H). congruence.
Qed.

(** The loop keeps an inert prefix of the line: a pair of [$] is only
    ever found behind it. *)
Lemma expansion_loop_prefix pid p n : forall k t e r,
  Forall inert p ->
  (e = 0 \/ (e = 1 /\ (List.length p < k)%nat)) ->
  fold_left (Expand.step pid) (seq k n) (Some (p ++ t, e)) = Some r ->
  exists t', fst r = p ++ t'.
Proof.
  induction n as [|n IH]; intros k t e r Hp He H; cbn [seq fold_left] in H.
  - injection H as <-. now exists t.
  - unfold Expand.step at 2 in H.
    destruct (nth_error (p ++ t) k) as [c|] eqn:Ec.
    2:{ exfalso. clear - H. induction (seq _ _) in H |- *; cbn in H; [discriminate|auto]. }
    destruct (Ascii.eqb c DOLLAR) eqn:Ed.
    + apply Ascii.eqb_eq in Ed.
      pose proof (nth_error_prefix_inert _ _ _ _ Hp Ec Ed) as Hk.
      destruct He as [-> | [-> Hlt]]; cbn [andb Z.eqb Pos.eqb] in H.
      * apply (IH (S k) t 1 r Hp) in H; [exact H|]. right. split; [reflexivity|lia].
      * destruct (Expand.replace_at pid (p ++ t) k) as [l|] eqn:Er.
        2:{ exfalso. cbn in H. clear - H.
            induction (seq _ _) in H |- *; cbn in H; [discriminate|auto]. }
        destruct (replace_at_prefix _ _ _ _ _ Hp Hlt Er) as [t' ->].
        cbn [option_map] in H. apply (IH (S k) t' 0 r Hp) in H; auto.
    + cbn [andb] in H. apply (IH (S k) t e r Hp) in H; [exact H|].
      destruct He as [He | [He Hlt]]; [left; exact He|right; split; [exact He|lia]].
Qed.

(** Without a [$] in the bytes read the line is left as it is. *)
Lemma expansion_loop_plain pid buf n : forall k,
  (forall i c, (k <= i < k + n)%nat -> nth_error buf i = Some c -> c <> DOLLAR) ->
  (k + n <= List.length buf)%nat ->
  fold_left (Expand.step pid) (seq k n) (Some (buf, 0)) = Some (buf, 0).
Proof.
  induction n as [|n IH]; intros k Hc Hl; cbn [seq fold_left]; [reflexivity|].
  unfold Expand.step at 2.
  destruct (nth_error buf k) as [c|] eqn:Ec.
  2:{ apply nth_error_None in Ec. lia. }
  rewrite (eqb_false_of_neq c DOLLAR) by (apply (Hc k); [lia|exact Ec]).
  cbn [andb]. apply IH; [|lia]. intros i d Hi. apply Hc. lia.
Qed.

Lemma skip_blanks ws l :
  Forall blank ws -> skip_delims [SPACE; TAB] (ws ++ l) = skip_delims [SPACE; TAB] l.
Proof.
  induction 1 as [|c ws [-> | ->] _ IH]; [reflexivity| |]; cbn; exact IH.
Qed.

(** A blank line: the expansion changes nothing and there is no token. *)
Lemma blank_line_tokens pid ws slack :
  Forall blank ws ->
  exists line, expanded_line pid (ws ++ [LF]) slack = Some line /\ token_stream line = [].
Proof.
  intros Hw.
  assert (Hi : Forall inert ws) by (eapply Forall_impl; [apply blank_inert|exact Hw]).
  exists (string_of_list_ascii ws). unfold expanded_line, getline_buffer, Expand.expansion.
  rewrite <- app_assoc, (chomp_prefix _ _ Hi). cbn [app chomp Ascii.eqb Bool.eqb NUL LF].
  fold NUL. rewrite expansion_loop_plain.
  - cbn [option_map fst]. rewrite (cstr_prefix _ _ Hi). cbn. rewrite app_nil_r.
    split; [reflexivity|]. unfold token_stream, strtok.
    rewrite list_ascii_of_string_of_list_ascii.
    rewrite <- (app_nil_r ws), (skip_blanks _ _ Hw). reflexivity.
  - intros i c Hr Hn Hd. subst c. rewrite length_app in Hr. cbn in Hr.
    destruct (Nat.ltb_spec i (List.length ws)).
    + rewrite nth_error_app1 in Hn by assumption. apply nth_error_In in Hn.
      rewrite Forall_forall in Hi. destruct (Hi _ Hn) as (_ & _ & _ & Hx). congruence.
    + rewrite nth_error_app2 in Hn by assumption.
      replace (i - List.length ws)%nat with O in Hn by lia. discriminate.
  - rewrite !length_app. cbn. lia.
Qed.

(** A comment: whatever the expansion does behind the [#], the first
    token still starts with it. *)
Lemma comment_line_tokens pid ws rest slack line :
  Forall blank ws ->
  expanded_line pid (ws ++ HASH :: rest) slack = Some line ->
  exists tok more, token_stream line = tok :: more /\ first_char_is HASH tok = true.
Proof.
  intros Hw H.
  assert (Hi : Forall inert (ws ++ [HASH])).
  { apply Forall_app. split; [|repeat constructor; apply hash_inert].
    eapply Forall_impl; [apply blank_inert|exact Hw]. }
  unfold expanded_line, getline_buffer, Expand.expansion in H.
  replace ((ws ++ HASH :: rest) ++ [NUL] ++ slack)
    with ((ws ++ [HASH]) ++ rest ++ [NUL] ++ slack) in H
    by (now rewrite <- !app_assoc).
  rewrite (chomp_prefix _ _ Hi) in H.
  destruct (fold_left _ _ _) as [r|] eqn:E; [|discriminate].
  apply expansion_loop_prefix in E; auto. destruct E as [t' E].
  cbn [option_map] in H. injection H as <-. rewrite E, (cstr_prefix _ _ Hi).
  unfold token_stream, strtok. rewrite list_ascii_of_string_of_list_ascii.
  rewrite <- app_assoc, (skip_blanks _ _ Hw). cbn [app skip_delims is_delim existsb].
  cbn [HASH SPACE TAB Ascii.eqb Bool.eqb orb]. cbn [cut is_delim existsb Ascii.eqb Bool.eqb orb].
  destruct (cut [SPACE; TAB] (cstr t')) as [tok rest'].
  eexists. eexists. split; [reflexivity|]. reflexivity.
Qed.

(** What the iteration does with a blank line: nothing when the slot in
    front of [arguments] is a readable string, undefined otherwise. *)
Lemma blank_line_iteration o s ws :
  Forall blank ws ->
  o_getline o = Some (ws ++ [LF]) ->
  let r := runShell o s in
  events r = events (prelude o s) /\
  after r = after (prelude o s) /\
  how r = match o_stray o with Some _ => Returned 0 | None => Fault end.
Proof.
  intros Hw Hg. cbn zeta. rewrite runShell_parts. cbn zeta.
  destruct (blank_line_tokens (o_getpid o) ws (o_slack o) Hw) as (line & He & Ht).
  unfold command_part. rewrite Hg, He. unfold interpret. rewrite Ht.
  unfold parse_tokens. cbn [scan]. unfold build. cbn [List.length Z.of_nat Z.sub Z.add Z.opp Z.ltb Z.compare].
  destruct (o_stray o) as [x|]; cbn; rewrite app_nil_r; auto.
Qed.

(** What the iteration does with a comment: it prints a newline. *)
Lemma comment_line_iteration o s ws rest line :
  Forall blank ws ->
  o_getline o = Some (ws ++ HASH :: rest) ->
  expanded_line (o_getpid o) (ws ++ HASH :: rest) (o_slack o) = Some line ->
  let r := runShell o s in
  events r = events (prelude o s) ++ [Output newline] /\
  after r = after (prelude o s) /\
  how r = Returned 0.
Proof.
  intros Hw Hg He. cbn zeta. rewrite runShell_parts. cbn zeta.
  destruct (comment_line_tokens _ _ _ _ _ Hw He) as (tok & more & Ht & Hh).
  unfold command_part. rewrite Hg, He. unfold interpret. rewrite Ht.
  unfold parse_tokens. cbn [scan List.length Z.of_nat Z.leb Z.compare].
  rewrite Hh. cbn. auto.
Qed.

(** C8 fails on a comment that holds a conversion and a pair of
    dollar signs.  The expansion of lines 157-171 comes before the test
    for a comment of lines 177-187 and passes the line itself to
    [sprintf] as the format, with the pid as the only argument: for
    [# %s $$] the format is [# %s %d], [%s] takes the [int] for a
    pointer to a string, and the call is undefined (in practice the
    interpreter dies on the read through that pointer).  The iteration
    does not get as far as the test that would drop the comment,
    whatever the slot in front of [arguments] holds.  A comment the
    expansion leaves defined is dropped after a newline
    ([comment_line_iteration]); a blank line is dropped with nothing
    printed when the slot in front of [arguments], which line 202
    reads, holds a readable string ([blank_line_iteration]). *)
Theorem comment_line_is_a_format (stray : option string) (s : state) :
  let o := with_stray stray (typed "# %s $$") in
  sprintf (list_ascii_of_string "# %s %d") (Some (o_getpid o)) = None /\
  expanded_line (o_getpid o) (bytes_of "# %s $$") (o_slack o) = None /\
  how (runShell o s) = Fault /\
  events (runShell o s) = events (prelude o s).
Proof.
  cbn zeta. split; [reflexivity|].
  assert (He : expanded_line 4567 (bytes_of "# %s $$") (room 120) = None)
    by (vm_compute; reflexivity).
  split; [exact He|].
  rewrite runShell_parts. cbn zeta. unfold command_part.
  cbn [with_stray typed o_getline o_getpid o_slack].
  rewrite He. cbn [fault how events]. rewrite app_nil_r. split; reflexivity.
Qed.

(** ** The tokens of a line *)

Lemma skip_delims_shorter delims s :
  (List.length (skip_delims delims s) <= List.length s)%nat.
Proof.
  induction s as [|c s IH]; cbn; [lia|]. destruct (is_delim delims c); cbn; lia.
Qed.

Lemma cut_shorter delims s :
  (List.length (snd (cut delims s)) <= List.length s)%nat.
Proof.
  induction s as [|c s IH]; cbn; [lia|].
  destruct (is_delim delims c); cbn; [lia|].
  destruct (cut delims s) as [tok rest]. cbn in *. lia.
Qed.

Lemma skip_delims_head delims s c t :
  skip_delims delims s = c :: t -> is_delim delims c = false.
Proof.
  induction s as [|d s IH]; cbn; [discriminate|].
  destruct (is_delim delims d) eqn:E; [exact IH|].
  intros H. injection H as -> _. exact E.
Qed.

(** Each call of [strtok] that returns a token moves the cursor on. *)
Lemma strtok_shorter delims s tok rest :
  strtok delims s = Some (tok, rest) ->
  (List.length rest < List.length s)%nat.
Proof.
  unfold strtok. pose proof (skip_delims_shorter delims s) as Hs.
  destruct (skip_delims delims s) as [|c t] eqn:E; [discriminate|].
  intros H. injection H as H. cbn in H.
  rewrite (skip_delims_head _ _ _ _ E) in H.
  pose proof (cut_shorter delims t) as Hc.
  destruct (cut delims t) as [tok' rest']. injection H as _ <-.
  cbn in *. lia.
Qed.

(** The fuel of [more_tokens] is enough: the tokens collected are the
    same with any larger amount, so the stream ends with [strtok]
    returning NULL, not with the fuel running out. *)
Lemma more_tokens_fuel f1 : forall f2 rest,
  (List.length rest <= f1)%nat -> (List.length rest <= f2)%nat ->
  more_tokens f1 rest = more_tokens f2 rest.
Proof.
  induction f1 as [|f1 IH]; intros f2 rest H1 H2.
  - destruct rest; [|cbn in H1; lia]. destruct f2; reflexivity.
  - destruct f2 as [|f2].
    + destruct rest; [reflexivity|cbn in H2; lia].
    + cbn [more_tokens]. destruct (strtok [SPACE] rest) as [[tok rest']|] eqn:E;
        [|reflexivity].
      apply strtok_shorter in E. f_equal. apply IH; lia.
Qed.

(** C9 fails on the code: a tab ends the first token only.  The first
    call is [strtok(line, " \t")], every later call is
    [strtok(NULL, " ")], so a tab after the first token is part of a
    token. *)
Theorem tab_separates_first_token_only :
  token_stream ("ls" ++ String TAB "-l -a") = ["ls"; "-l"; "-a"]%string /\
  token_stream ("ls -l" ++ String TAB "-a") = ["ls"; "-l" ++ String TAB "-a"]%string /\
  events (runShell (typed ("ls -l" ++ String TAB "-a")) initial)
  = [Output ":";
     Fork 77 [Sigaction SIGTSTP SIG_IGN; Sigaction SIGINT SIG_DFL;
              Execvp (Some "ls"%string)
                     (Some ["ls"; "-l" ++ String TAB "-a"]%string)];
     Waitpid 77 false].
Proof. vm_compute. repeat split. Qed.

(** ** The expansion of [$$] *)

(** C1 fails on the code.  After the first replacement the line is
    longer than before but the loop goes on from the old index and
    stops at the old length, so a second pair is not replaced when the
    pid has more than two digits; and [expand] is not reset by another
    character, so two [$] that are apart are taken for a pair and the
    character in front of the second is lost. *)
Theorem expansion_misses_pairs :
  expanded_line 4567 (bytes_of "echo $$ $$") (room 120) = Some "echo 4567 $$"%string /\
  expanded_line 4567 (bytes_of "a$b$") (room 120) = Some "a$4567"%string /\
  events (runShell (typed "echo $$ $$") initial)
  = [Output ":";
     Fork 77 [Sigaction SIGTSTP SIG_IGN; Sigaction SIGINT SIG_DFL;
              Execvp (Some "echo"%string) (Some ["echo"; "4567"; "$$"]%string)];
     Waitpid 77 false].
Proof. vm_compute. repeat split. Qed.

(** ** Background children *)

(** C3 fails on the code when the child has terminated before the
    parent polls it at line 366.  That call reaps the child and stores
    its status in [bgStatus], which nothing reads; the pid stays in the
    table.  The sweep of the next iteration calls [waitpid] on it again,
    the call fails and stores nothing, and the notice is made from
    whatever the local [childStatus] holds: with 0 there, a child that
    exited with 3 is reported with exit value 0; with 127 there, no
    notice is printed and the slot is not freed. *)
Theorem early_exit_is_misreported :
  let spawn := with_child (Zombie (exited_with 3)) (typed "sleep 1 &") in
  let r := main [Iteration spawn; Iteration (typed "status")] initial in
  let r' := main [Iteration spawn; Iteration (with_childStatus 127 (typed "status"))]
                 initial in
  events r
  = [Output ":";
     Fork 77 [Sigaction SIGTSTP SIG_IGN; Sigaction SIGINT SIG_IGN;
              Stdin_from null_device; Stdout_to null_device;
              Execvp (Some "sleep"%string) (Some ["sleep"; "1"]%string)];
     Output (started 77); Waitpid 77 true;
     Waitpid 77 true; Output (done_exit 77 (exited_with 0));
     Output ":"; Output (status_text NEVER_RUN)] /\
  bgStatus (after r) = exited_with 3 /\
  done_exit 77 (exited_with 0) <> done_exit 77 (exited_with 3) /\
  events r'
  = [Output ":";
     Fork 77 [Sigaction SIGTSTP SIG_IGN; Sigaction SIGINT SIG_IGN;
              Stdin_from null_device; Stdout_to null_device;
              Execvp (Some "sleep"%string) (Some ["sleep"; "1"]%string)];
     Output (started 77); Waitpid 77 true;
     Waitpid 77 true;
     Output ":"; Output (status_text NEVER_RUN)] /\
  nth 0 (bgRunning (after r')) 0 = 77.
Proof. vm_compute. repeat split. discriminate. Qed.

(** ** The status after an interrupted wait *)

(** C4 fails on the code when a signal handler interrupts the blocking
    wait of line 369.  The handler of SIGTSTP is installed without
    SA_RESTART, so [waitpid] returns -1 and stores nothing; the
    interpreter goes back to the prompt, the child runs on and is never
    waited for, and [lfStatus] still holds the status of the command
    before.  Here [false] exits with 1, [sleep 2] is interrupted and
    later exits with 0, and [status] then prints "exit value 1": not
    the status of the last foreground command. *)
Theorem interrupted_wait_leaves_stale_status :
  let r := main [Iteration (with_child (Zombie (exited_with 1)) (typed "false"));
                 Iteration (with_fork 78 (with_child Running (typed "sleep 2")));
                 Toggle;
                 Ends 78 (exited_with 0);
                 Iteration (typed "status")] initial in
  events r
  = [Output ":";
     Fork 77 [Sigaction SIGTSTP SIG_IGN; Sigaction SIGINT SIG_DFL;
              Execvp (Some "false"%string) (Some ["false"%string])];
     Waitpid 77 false;
     Output ":";
     Fork 78 [Sigaction SIGTSTP SIG_IGN; Sigaction SIGINT SIG_DFL;
              Execvp (Some "sleep"%string) (Some ["sleep"; "2"]%string)];
     Waitpid 78 false;
     Output entering; Output ":";
     Output ("exit value 1" ++ newline)] /\
  status_text (exited_with 0) = ("exit value 0" ++ newline)%string /\
  lfStatus (after r) = exited_with 1 /\
  children (after r) = [(78, Zombie (exited_with 0))].
Proof. vm_compute. repeat split. Qed.

(** ** The guard on an empty argument vector *)

(** C10 fails on the code: for the line [&] the builder counts one
    argument and skips the copy of the only token, so [numArgs] is 1,
    the guard of line 244 lets the command through with [args[0]] still
    NULL, and line 254 passes it to [strcmp]. *)
Theorem lone_amp_reaches_dispatch (s : state) :
  let com := Command (repeat None 512) EmptyString EmptyString 1 1 in
  parse_tokens None (token_stream "&") = Built com /\
  numArgs com <> 0 /\
  nth 0 (args com) None = None /\
  how (runShell (typed "&") s) = Fault.
Proof.
  cbn zeta. split; [vm_compute; reflexivity|]. split; [discriminate|].
  split; [reflexivity|].
  rewrite (runShell_built (typed "&") s (bytes_of "&") "&"%string
             (Command (repeat None 512) EmptyString EmptyString 1 1)).
  - cbn zeta. cbn [how]. unfold dispatch. rewrite apply_mode_args. reflexivity.
  - reflexivity.
  - vm_compute. reflexivity.
  - vm_compute. reflexivity.
  - discriminate.
Qed.

(** * Further properties *)

(** ** Tokens: what [strtok] hands to the loop *)

Lemma cut_token delims s :
  Forall (fun c => is_delim delims c = false) (fst (cut delims s)).
Proof.
  induction s as [|c s IH]; cbn; [constructor|].
  destruct (is_delim delims c) eqn:E; cbn; [constructor|].
  destruct (cut delims s) as [tok rest]. cbn in *. constructor; assumption.
Qed.

Lemma strtok_token delims s tok rest :
  strtok delims s = Some (tok, rest) ->
  tok <> [] /\ Forall (fun c => is_delim delims c = false) tok.
Proof.
  unfold strtok. destruct (skip_delims delims s) as [|c t] eqn:E; [discriminate|].
  intros H. injection H as H. change (cut delims (c :: t) = (tok, rest)) in H.
  pose proof (cut_token delims (c :: t)) as Hc.
  rewrite H in Hc. cbn [fst] in Hc. split; [|exact Hc].
  cbn in H. rewrite (skip_delims_head _ _ _ _ E) in H.
  destruct (cut delims t). injection H as <- _. discriminate.
Qed.

Lemma string_of_list_nonempty l : l <> [] -> string_of_list_ascii l <> EmptyString.
Proof. destruct l; [congruence|discriminate]. Qed.

Lemma delim_space_only c : is_delim [SPACE] c = false -> c <> SPACE.
Proof. intros H ->. discriminate. Qed.

Lemma delim_space_tab c : is_delim [SPACE; TAB] c = false -> c <> SPACE /\ c <> TAB.
Proof. intros H. split; intros ->; discriminate. Qed.

Lemma more_tokens_spaceless fuel : forall rest,
  Forall (fun tok => tok <> EmptyString /\ ~ In SPACE (chars tok)) (more_tokens fuel rest).
Proof.
  induction fuel as [|fuel IH]; intros rest; cbn [more_tokens]; [constructor|].
  destruct (strtok [SPACE] rest) as [[tok rest']|] eqn:E; [|constructor].
  apply strtok_token in E. destruct E as [Hne Hd]. constructor; [|apply IH].
  split; [now apply string_of_list_nonempty|].
  unfold chars. rewrite list_ascii_of_string_of_list_ascii. intros Hin.
  rewrite Forall_forall in Hd. now apply (delim_space_only _ (Hd _ Hin)).
Qed.

(** X1. Every token is non-empty and holds no space; the first one holds
    no tab either.  (A later token may hold tabs.) *)
Theorem tokens_are_spaceless (line : string) :
  Forall (fun tok => tok <> EmptyString /\ ~ In SPACE (chars tok)) (token_stream line) /\
  (forall tok more, token_stream line = tok :: more -> ~ In TAB (chars tok)).
Proof.
  unfold token_stream.
  destruct (strtok [SPACE; TAB] (list_ascii_of_string line)) as [[tok rest]|] eqn:E.
  2:{ split; [constructor|discriminate]. }
  apply strtok_token in E. destruct E as [Hne Hd]. rewrite Forall_forall in Hd.
  split.
  - constructor; [|apply more_tokens_spaceless].
    split; [now apply string_of_list_nonempty|].
    unfold chars. rewrite list_ascii_of_string_of_list_ascii. intros Hin.
    destruct (delim_space_tab _ (Hd _ Hin)) as [H _]. now apply H.
  - intros tok' more H. injection H as <- _.
    unfold chars. rewrite list_ascii_of_string_of_list_ascii. intros Hin.
    destruct (delim_space_tab _ (Hd _ Hin)) as [_ H]. now apply H.
Qed.

Lemma word_chars w :
  word w -> chars w <> [] /\
            Forall (fun c => is_delim [SPACE; TAB] c = false) (chars w) /\
            Forall (fun c => is_delim [SPACE] c = false) (chars w).
Proof.
  intros (Hne & Hs & Ht). split.
  - unfold chars. destruct w; [congruence|discriminate].
  - split; apply Forall_forall; intros c Hc; unfold is_delim; cbn [existsb];
      rewrite ?orb_false_r.
    + apply orb_false_iff. split; apply Ascii.eqb_neq; intros ->; auto.
    + apply Ascii.eqb_neq. intros ->. auto.
Qed.

Lemma skip_delims_word delims w l :
  w <> [] -> Forall (fun c => is_delim delims c = false) w ->
  skip_delims delims (w ++ l) = w ++ l.
Proof.
  intros Hne Hw. destruct w as [|c w]; [congruence|].
  inversion Hw as [|? ? Hc _]; subst. cbn. now rewrite Hc.
Qed.

Lemma strtok_word delims w l :
  w <> [] -> Forall (fun c => is_delim delims c = false) w ->
  strtok delims (w ++ l) = Some (cut delims (w ++ l)).
Proof.
  intros Hne Hw. unfold strtok. rewrite (skip_delims_word _ _ _ Hne Hw).
  destruct w; [congruence|reflexivity].
Qed.

Lemma cut_word_end delims w :
  Forall (fun c => is_delim delims c = false) w -> cut delims w = (w, []).
Proof.
  induction 1 as [|c w Hc _ IH]; cbn; [reflexivity|]. now rewrite Hc, IH.
Qed.

Lemma cut_word_delim delims w d l :
  Forall (fun c => is_delim delims c = false) w -> is_delim delims d = true ->
  cut delims (w ++ d :: l) = (w, l).
Proof.
  intros Hw Hd. induction Hw as [|c w Hc _ IH]; cbn; [now rewrite Hd|].
  now rewrite Hc, IH.
Qed.

Lemma chars_append a b : chars (a ++ b) = chars a ++ chars b.
Proof. unfold chars. induction a as [|c a IH]; cbn; [reflexivity|now rewrite IH]. Qed.

Lemma chars_unwords w more :
  more <> [] -> chars (unwords (w :: more)) = chars w ++ SPACE :: chars (unwords more).
Proof.
  intros Hm. destruct more as [|w' more]; [congruence|].
  cbn [unwords]. rewrite chars_append. reflexivity.
Qed.

Lemma string_of_chars w : string_of_list_ascii (chars w) = w.
Proof. apply string_of_list_ascii_of_string. Qed.

Lemma more_tokens_unwords ws : forall fuel,
  Forall word ws ->
  (List.length (chars (unwords ws)) <= fuel)%nat ->
  more_tokens fuel (chars (unwords ws)) = ws.
Proof.
  induction ws as [|w more IH]; intros fuel Hw Hf.
  - destruct fuel; reflexivity.
  - inversion Hw as [|? ? Hw1 Hw2]; subst.
    destruct (word_chars w Hw1) as (Hne & _ & Hd).
    destruct more as [|w' more'].
    + cbn [unwords] in *. destruct fuel as [|fuel].
      { destruct (chars w); [congruence|cbn in Hf; lia]. }
      cbn [more_tokens]. rewrite <- (app_nil_r (chars w)) at 1.
      rewrite (strtok_word _ _ _ Hne Hd), app_nil_r, (cut_word_end _ _ Hd), string_of_chars.
      destruct fuel; reflexivity.
    + rewrite chars_unwords in * by discriminate.
      destruct fuel as [|fuel]; [rewrite length_app in Hf; cbn in Hf; lia|].
      cbn [more_tokens].
      rewrite (strtok_word _ _ _ Hne Hd),
        (cut_word_delim [SPACE] _ SPACE _ Hd eq_refl), string_of_chars.
      f_equal. apply IH; [assumption|].
      rewrite length_app in Hf. cbn [List.length] in Hf. lia.
Qed.

(** X2. Round trip: words joined by single spaces are the tokens of the
    line they make. *)
Theorem tokens_of_unwords (ws : list string) :
  Forall word ws -> token_stream (unwords ws) = ws.
Proof.
  intros Hw. unfold token_stream. fold (chars (unwords ws)).
  destruct ws as [|w more]; [reflexivity|].
  inversion Hw as [|? ? Hw1 Hw2]; subst.
  destruct (word_chars w Hw1) as (Hne & Hd & _).
  destruct more as [|w' more'].
  - cbn [unwords]. rewrite <- (app_nil_r (chars w)) at 1.
    rewrite (strtok_word _ _ _ Hne Hd), app_nil_r, (cut_word_end _ _ Hd), string_of_chars.
    reflexivity.
  - rewrite chars_unwords by discriminate.
    rewrite (strtok_word _ _ _ Hne Hd),
      (cut_word_delim [SPACE; TAB] _ SPACE _ Hd eq_refl), string_of_chars.
    f_equal. now apply more_tokens_unwords.
Qed.

Lemma tokens_of_unwords_witness :
  token_stream (unwords ["ls"; "-l"; "/tmp"]%string) = ["ls"; "-l"; "/tmp"]%string.
Proof.
  apply tokens_of_unwords.
  repeat constructor; try discriminate;
    cbn; intros H; repeat (destruct H as [H|H]; [discriminate|]); exact H.
Defined.

(** ** The expansion, where it does what it is meant to *)

Lemma ordinary_of_inert c : inert c -> ordinary c.
Proof. intros (H1 & H2 & _ & H4). repeat split; assumption. Qed.

Lemma chomp_ordinary p l : Forall ordinary p -> chomp (p ++ l) = p ++ chomp l.
Proof.
  induction 1 as [|c p (H1 & H2 & _) _ IH]; [reflexivity|]. cbn.
  rewrite (eqb_false_of_neq _ _ H1), (eqb_false_of_neq _ _ H2). now rewrite IH.
Qed.

Lemma cstr_ordinary p l : Forall ordinary p -> cstr (p ++ l) = p ++ cstr l.
Proof.
  induction 1 as [|c p (H1 & _) _ IH]; [reflexivity|]. cbn.
  rewrite (eqb_false_of_neq _ _ H1). now rewrite IH.
Qed.

Lemma ordinary_prefix_no_dollar p t i c :
  Forall ordinary p -> (i < List.length p)%nat ->
  nth_error (p ++ t) i = Some c -> c <> DOLLAR.
Proof.
  intros Hp Hi Hn. rewrite nth_error_app1 in Hn by assumption.
  apply nth_error_In in Hn. rewrite Forall_forall in Hp.
  now destruct (Hp _ Hn) as (_ & _ & H).
Qed.

(** X3. A line without a dollar sign goes through the expansion unchanged,
    percent signs included: [sprintf] is not called at all. *)
Theorem line_without_dollar_unchanged (pid : Z) (text slack : list ascii) :
  Forall ordinary text ->
  expanded_line pid (text ++ [LF]) slack = Some (string_of_list_ascii text).
Proof.
  intros Ht. unfold expanded_line, getline_buffer, Expand.expansion.
  rewrite <- app_assoc, (chomp_ordinary _ _ Ht).
  cbn [app chomp Ascii.eqb Bool.eqb NUL LF]. fold NUL.
  rewrite expansion_loop_plain.
  - cbn [option_map fst]. rewrite (cstr_ordinary _ _ Ht). cbn. now rewrite app_nil_r.
  - intros i c Hr Hn. rewrite length_app in Hr. cbn in Hr.
    destruct (Nat.ltb_spec i (List.length text)).
    + now apply (ordinary_prefix_no_dollar _ _ _ _ Ht H Hn).
    + rewrite nth_error_app2 in Hn by assumption.
      replace (i - List.length text)%nat with O in Hn by lia.
      injection Hn as <-. discriminate.
  - rewrite !length_app. cbn. lia.
Qed.

Lemma line_without_dollar_unchanged_witness :
  expanded_line 4567 (chars "echo 100%" ++ [LF]) (room 10)
  = Some (string_of_list_ascii (chars "echo 100%")).
Proof.
  apply line_without_dollar_unchanged.
  repeat constructor; discriminate.
Defined.

(** The characters [printf("%d")] produces. *)
Lemma uint_chars_inert d : Forall inert (chars (NilEmpty.string_of_uint d)).
Proof.
  induction d; cbn; constructor; try assumption; repeat split; discriminate.
Qed.

Lemma dec_chars_inert v : Forall inert (chars (dec v)).
Proof.
  unfold dec. destruct (Z.to_int v) as [d|d]; cbn [NilZero.string_of_int].
  - destruct d; try apply uint_chars_inert.
    cbn. repeat constructor; discriminate.
  - cbn. constructor; [repeat split; discriminate|].
    destruct d; try apply uint_chars_inert.
    cbn. repeat constructor; discriminate.
Qed.

Lemma sprintf_plain l arg : Forall inert l -> sprintf l arg = Some l.
Proof.
  intros H. rewrite <- (app_nil_r l) at 1. rewrite (sprintf_prefix _ _ _ H).
  cbn. now rewrite app_nil_r.
Qed.

Lemma overwrite_fits src : forall buf,
  (List.length src <= List.length buf)%nat ->
  overwrite src buf = Some (src ++ skipn (List.length src) buf).
Proof.
  induction src as [|c src IH]; intros buf H; [reflexivity|].
  destruct buf as [|b buf]; [cbn in H; lia|]. cbn in *.
  rewrite IH by lia. reflexivity.
Qed.

Lemma inert_no_dollar l c : Forall inert l -> In c l -> c <> DOLLAR.
Proof.
  intros H Hin. rewrite Forall_forall in H. now destruct (H _ Hin) as (_ & _ & _ & ?).
Qed.

(** The replacement of line 165-168 on a line with one pair. *)
Lemma replace_single_pair pid pre post tail :
  Forall inert pre -> Forall inert post ->
  let printed := pre ++ chars (dec pid) ++ post in
  let line := pre ++ DOLLAR :: DOLLAR :: post ++ NUL :: tail in
  (List.length printed + 1 <= List.length line)%nat ->
  Expand.replace_at pid line (S (List.length pre))
  = Some ((printed ++ [NUL]) ++ skipn (List.length printed + 1) line).
Proof.
  intros Hpre Hpost printed line Hfit. unfold Expand.replace_at.
  assert (Hc : cstr line = pre ++ DOLLAR :: DOLLAR :: post).
  { unfold line. rewrite (cstr_prefix _ _ Hpre). cbn [cstr Ascii.eqb Bool.eqb DOLLAR NUL].
    fold NUL. rewrite (cstr_prefix _ _ Hpost). cbn. now rewrite app_nil_r. }
  unfold strlen. rewrite Hc.
  replace (S (List.length pre) <? List.length (pre ++ DOLLAR :: DOLLAR :: post))%nat
    with true by (symmetry; apply Nat.ltb_lt; rewrite length_app; cbn; lia).
  rewrite update_at_end.
  replace (pre ++ PERCENT :: DOLLAR :: post) with ((pre ++ [PERCENT]) ++ DOLLAR :: post)
    by (now rewrite <- app_assoc).
  replace (S (List.length pre)) with (List.length (pre ++ [PERCENT]))
    by (rewrite length_app; cbn; lia).
  rewrite update_at_end, <- app_assoc. cbn [app].
  rewrite (sprintf_prefix _ _ _ Hpre).
  cbn [sprintf Ascii.eqb Bool.eqb PERCENT]. rewrite (sprintf_plain _ _ Hpost).
  cbn [option_map]. change (pre ++ list_ascii_of_string (dec pid) ++ post) with printed.
  rewrite overwrite_fits by (rewrite length_app; cbn [List.length]; exact Hfit).
  rewrite length_app. reflexivity.
Qed.

(** X4. A line with one pair of dollar signs, and neither another dollar
    nor a percent sign, has the pair replaced by the decimal pid and
    everything else kept, when the allocation has room for the result. *)
Theorem single_pair_expanded (pid : Z) (pre post slack : list ascii) :
  Forall inert pre -> Forall inert post ->
  (List.length (chars (dec pid)) <= 3 + List.length slack)%nat ->
  expanded_line pid (pre ++ DOLLAR :: DOLLAR :: post ++ [LF]) slack
  = Some (string_of_list_ascii (pre ++ chars (dec pid) ++ post)).
Proof.
  intros Hpre Hpost Hroom.
  unfold expanded_line, getline_buffer, Expand.expansion.
  set (printed := pre ++ chars (dec pid) ++ post).
  set (line := pre ++ DOLLAR :: DOLLAR :: post ++ NUL :: NUL :: slack).
  assert (Hline : chomp ((pre ++ DOLLAR :: DOLLAR :: post ++ [LF]) ++ [NUL] ++ slack) = line).
  { rewrite <- app_assoc, (chomp_prefix _ _ Hpre). cbn [app chomp Ascii.eqb Bool.eqb DOLLAR NUL LF].
    fold NUL LF. rewrite <- app_assoc, (chomp_prefix _ _ Hpost). reflexivity. }
  rewrite Hline.
  assert (Hinert : Forall inert printed).
  { unfold printed. repeat (apply Forall_app; split); auto. apply dec_chars_inert. }
  assert (Hlen : List.length line = (List.length pre + 2 + List.length post + 2 + List.length slack)%nat).
  { unfold line. rewrite length_app. cbn [List.length]. rewrite length_app. cbn. lia. }
  assert (Hplen : List.length printed
                  = (List.length pre + List.length (chars (dec pid)) + List.length post)%nat).
  { unfold printed. rewrite !length_app. lia. }
  replace (List.length (pre ++ DOLLAR :: DOLLAR :: post ++ [LF]))
    with (List.length pre + (2 + (List.length post + 1)))%nat
    by (rewrite length_app; cbn [List.length]; rewrite length_app; cbn; lia).
  rewrite seq_app, fold_left_app.
  rewrite expansion_loop_plain.
  2:{ intros i c Hi Hn. unfold line in Hn.
      eapply ordinary_prefix_no_dollar; [|
        |exact Hn]; [|lia].
      eapply Forall_impl; [apply ordinary_of_inert|exact Hpre]. }
  2:{ lia. }
  cbn [Nat.add seq fold_left].
  assert (H1 : nth_error line (List.length pre) = Some DOLLAR).
  { unfold line. rewrite nth_error_app2 by lia. now rewrite Nat.sub_diag. }
  assert (H2 : nth_error line (S (List.length pre)) = Some DOLLAR).
  { unfold line. rewrite nth_error_app2 by lia.
    replace (S (List.length pre) - List.length pre)%nat with 1%nat by lia. reflexivity. }
  unfold Expand.step at 3. rewrite H1. cbn [Ascii.eqb Bool.eqb DOLLAR andb Z.eqb].
  unfold Expand.step at 2. rewrite H2. cbn [Ascii.eqb Bool.eqb DOLLAR andb Z.eqb Pos.eqb].
  fold line.
  pose proof (replace_single_pair pid pre post (NUL :: slack) Hpre Hpost) as Hr.
  cbn zeta in Hr. fold printed in Hr. fold line in Hr.
  rewrite Hr by lia. cbn [option_map].
  set (line' := (printed ++ [NUL]) ++ skipn (List.length printed + 1) line).
  rewrite expansion_loop_plain.
  - cbn [option_map fst]. unfold line'. rewrite <- app_assoc, (cstr_prefix _ _ Hinert).
    cbn. now rewrite app_nil_r.
  - intros i c Hi Hn Hd. subst c. unfold line' in Hn.
    destruct (Nat.ltb_spec i (List.length (printed ++ [NUL]))) as [Hlt|Hge].
    + rewrite nth_error_app1 in Hn by assumption. apply nth_error_In in Hn.
      apply in_app_or in Hn. destruct Hn as [Hn|[Hn|[]]]; [|discriminate].
      now apply (inert_no_dollar _ _ Hinert Hn).
    + rewrite nth_error_app2 in Hn by assumption.
      rewrite nth_error_skipn in Hn. rewrite length_app in Hn, Hge. cbn [List.length] in Hn, Hge.
      replace (List.length printed + 1 + (i - (List.length printed + 1)))%nat with i in Hn by lia.
      unfold line in Hn.
      rewrite nth_error_app2 in Hn by lia.
      replace (i - List.length pre)%nat with (S (S (i - List.length pre - 2))) in Hn by lia.
      cbn [nth_error] in Hn.
      destruct (Nat.ltb_spec (i - List.length pre - 2) (List.length post)) as [Hp|Hp].
      * rewrite nth_error_app1 in Hn by assumption. apply nth_error_In in Hn.
        now apply (inert_no_dollar _ _ Hpost Hn).
      * rewrite nth_error_app2 in Hn by assumption.
        replace (i - List.length pre - 2 - List.length post)%nat with O in Hn by lia.
        discriminate.
  - unfold line'. rewrite length_app, length_skipn, length_app. cbn [List.length]. lia.
Qed.

Lemma single_pair_expanded_witness :
  expanded_line 4567 (chars "echo " ++ DOLLAR :: DOLLAR :: chars " > out" ++ [LF]) (room 1)
  = Some (string_of_list_ascii (chars "echo " ++ chars (dec 4567) ++ chars " > out")).
Proof.
  apply single_pair_expanded.
  - repeat constructor; discriminate.
  - repeat constructor; discriminate.
  - vm_compute. lia.
Defined.

(** ** The builder: where it is defined, and its counters *)

Lemma scan_defined tokens : forall acc ai,
  (List.length acc + List.length tokens <= 512)%nat ->
  (acc = [] -> forall tok more, tokens = tok :: more -> first_char_is HASH tok = false) ->
  exists argIndex, scan tokens acc ai = Args (acc ++ tokens) argIndex.
Proof.
  induction tokens as [|t more IH]; intros acc ai Hlen Hfirst; cbn [scan].
  - exists ai. now rewrite app_nil_r.
  - cbn [List.length] in Hlen.
    replace (512 <=? Z.of_nat (List.length acc)) with false
      by (symmetry; apply Z.leb_gt; lia).
    assert (Hc : first_char_is HASH t && (Z.of_nat (List.length acc) =? 0) = false).
    { destruct acc as [|a acc'].
      - rewrite (Hfirst eq_refl t more eq_refl). reflexivity.
      - cbn [List.length]. replace (_ =? 0) with false
          by (symmetry; apply Z.eqb_neq; lia).
        apply andb_false_r. }
    rewrite Hc.
    destruct (IH (acc ++ [t])
                 (if (t =? "<")%string || (t =? ">")%string
                  then if ai =? NO_REDIRECT then Z.of_nat (List.length acc) - 1 else ai
                  else ai)) as [ai' H].
    + rewrite length_app. cbn. lia.
    + intros E. destruct acc; discriminate.
    + exists ai'. rewrite H, <- app_assoc. reflexivity.
Qed.

Lemma redirect_defined arguments l : forall inp out,
  Forall (fun tok => (String.length tok < 128)%nat) arguments ->
  exists inp' out', fold_left (redirect arguments) l (Some (inp, out)) = Some (inp', out').
Proof.
  intros inp out Hshort. revert inp out.
  assert (Hnth : forall j, strcpy128 (nth j arguments EmptyString)
                           = Some (nth j arguments EmptyString)).
  { intros j. unfold strcpy128.
    destruct (nth_in_or_default j arguments EmptyString) as [Hin | Hd]; [|rewrite Hd; reflexivity].
    rewrite Forall_forall in Hshort. apply Hshort in Hin.
    apply Nat.ltb_lt in Hin. now rewrite Hin. }
  induction l as [|j l IH]; intros inp out; cbn [fold_left].
  - eauto.
  - unfold redirect at 2. rewrite Hnth.
    destruct (nth j arguments EmptyString =? "<")%string;
      destruct (nth j arguments EmptyString =? ">")%string; apply IH.
Qed.

(** X5. The builder is defined (no store outside [arguments], no overlong
    copy into [input] or [output]) on every line that has a token, at
    most 512 of them, each shorter than 128 characters, and that is not
    a comment. *)
Theorem builder_defined (stray : option string) (tokens : list string) :
  tokens <> [] ->
  (List.length tokens <= 512)%nat ->
  first_char_is HASH (hd EmptyString tokens) = false ->
  Forall (fun tok => (String.length tok < 128)%nat) tokens ->
  exists com, parse_tokens stray tokens = Built com.
Proof.
  intros Hne Hlen Hhash Hshort. unfold parse_tokens.
  destruct (scan_defined tokens [] NO_REDIRECT) as [ai Hs].
  - cbn. lia.
  - intros _ tok more E. rewrite E in Hhash. exact Hhash.
  - rewrite Hs. cbn [app]. unfold build.
    set (i := Z.of_nat (List.length tokens) - 1).
    assert (Hi : (i <? 0) = false).
    { apply Z.ltb_ge. destruct tokens; [congruence|]. subst i. cbn [List.length]. lia. }
    rewrite Hi.
    replace (Z.to_nat i) with (List.length tokens - 1)%nat by lia.
    rewrite (nth_error_last tokens EmptyString Hne).
    destruct (redirect_defined tokens (seq 0 (List.length tokens - 1))
                EmptyString EmptyString Hshort) as (inp & out & Hr).
    rewrite Hr. eauto.
Qed.

Lemma builder_defined_witness :
  exists com, parse_tokens None ["cat"; "<"; "in"]%string = Built com.
Proof.
  apply builder_defined.
  - discriminate.
  - cbn. lia.
  - reflexivity.
  - repeat constructor.
Defined.

(** X6. [numArgs] is not the length of the argument vector: a final [&]
    that is dropped from the vector is still counted.  The background
    flag is 1 exactly when the last token is [&]. *)
Theorem builder_counters (stray : option string) (tokens : list string) (com : command) :
  parse_tokens stray tokens = Built com ->
  tokens <> [] ->
  numArgs com
  = Z.of_nat (List.length (argv (args com)))
    + (if has_redirect tokens then 0
       else if String.eqb (last tokens EmptyString) "&" then 1 else 0) /\
  0 <= numArgs com <= 512 /\
  (background com = 1 <-> last tokens EmptyString = "&"%string) /\
  (background com = 0 <-> last tokens EmptyString <> "&"%string).
Proof.
  intros Hp Hne. pose proof Hp as Hp'.
  apply parse_tokens_built in Hp. destruct Hp as (Ha & Hn & _ & _ & Hb).
  specialize (Hb Hne).
  assert (Hv : argv (args com) = expected_argv tokens)
    by (rewrite Ha; apply argv_prefix).
  assert (Hlen : (List.length tokens <= 512)%nat).
  { unfold parse_tokens in Hp'.
    destruct (scan tokens [] NO_REDIRECT) as [| |arguments argIndex] eqn:Es;
      try discriminate.
    now apply scan_spec in Es. }
  rewrite Hn, Hv, Hb. unfold counted, expected_argv.
  split; [|split; [|split]].
  - destruct (has_redirect tokens); [lia|].
    destruct (last tokens EmptyString =? "&")%string; [|lia].
    rewrite removelast_firstn_len, length_firstn.
    destruct tokens; [congruence|]. cbn [List.length]. lia.
  - destruct (has_redirect tokens) eqn:E; [|lia].
    pose proof (before_redirect_shorter tokens E). lia.
  - destruct (String.eqb_spec (last tokens EmptyString) "&"); split; intros;
      try reflexivity; try assumption; try discriminate; contradiction.
  - destruct (String.eqb_spec (last tokens EmptyString) "&"); split; intros;
      try reflexivity; try assumption; try discriminate; contradiction.
Qed.

Lemma builder_counters_witness :
  exists com,
    parse_tokens None ["cd"; "&"]%string = Built com /\
    numArgs com = 2 /\ argv (args com) = ["cd"%string] /\ background com = 1.
Proof.
  eexists. split; [vm_compute; reflexivity|].
  pose proof (builder_counters None ["cd"; "&"]%string _ eq_refl) as H.
  destruct H as (Hn & _ & Hb & _); [discriminate|].
  split; [exact Hn|]. split; [reflexivity|]. apply Hb. reflexivity.
Defined.

Lemma path_after_no_operator op tokens default :
  ~ In op (removelast tokens) -> path_after op tokens default = default.
Proof.
  revert default. induction tokens as [|t more IH]; intros default Hn; [reflexivity|].
  destruct more as [|n more']; [reflexivity|].
  cbn [path_after]. cbn [removelast] in Hn.
  destruct (String.eqb_spec t op) as [->|Hne].
  - exfalso. apply Hn. now left.
  - apply IH. intros Hin. apply Hn. now right.
Qed.

Lemma before_redirect_app pre op :
  has_redirect pre = false -> is_redirect op = true ->
  before_redirect (pre ++ [op]) = pre /\ has_redirect (pre ++ [op]) = true.
Proof.
  intros Hp Ho. induction pre as [|t pre IH].
  - cbn. rewrite Ho. auto.
  - cbn in Hp. apply orb_false_iff in Hp. destruct Hp as [Ht Hp].
    destruct (IH Hp) as [H1 H2]. cbn [app before_redirect]. rewrite Ht, H1.
    split; [reflexivity|]. unfold has_redirect in *. cbn [existsb].
    rewrite H2. apply orb_true_r.
Qed.

(** X7. A redirection operator that is the last token has no token to
    name a file: it ends the argument vector and sets no path.  (The
    loop of lines 232-241 stops before the last index, so nothing is
    read past the tokens.) *)
Theorem trailing_operator_sets_no_path
        (stray : option string) (words : list string) (op : string) (com : command) :
  has_redirect words = false ->
  op = "<"%string \/ op = ">"%string ->
  parse_tokens stray (words ++ [op]) = Built com ->
  argv (args com) = words /\ input com = EmptyString /\ output com = EmptyString.
Proof.
  intros Hw Hop Hp. apply parse_tokens_built in Hp.
  destruct Hp as (Ha & _ & Hi & Ho & _).
  assert (Hr : is_redirect op = true) by (destruct Hop as [-> | ->]; reflexivity).
  destruct (before_redirect_app words op Hw Hr) as [Hb Hh].
  assert (Hplain : forall o, is_redirect o = true -> ~ In o (removelast (words ++ [op]))).
  { intros o Hor Hin. rewrite removelast_last in Hin.
    assert (has_redirect words = true); [|congruence].
    apply existsb_exists. eauto. }
  split; [|split].
  - rewrite Ha, argv_prefix. unfold expected_argv. now rewrite Hh.
  - rewrite Hi. apply path_after_no_operator, Hplain. reflexivity.
  - rewrite Ho. apply path_after_no_operator, Hplain. reflexivity.
Qed.

Lemma trailing_operator_sets_no_path_witness :
  exists com,
    parse_tokens None (["cat"; "file"]%string ++ ["<"%string])%list = Built com /\
    argv (args com) = ["cat"; "file"]%string /\
    input com = EmptyString /\ output com = EmptyString.
Proof.
  eexists. split; [vm_compute; reflexivity|].
  apply (trailing_operator_sets_no_path None ["cat"; "file"]%string "<"%string).
  - reflexivity.
  - now left.
  - vm_compute. reflexivity.
Defined.

(** ** The job table *)

Lemma register_length pid slots :
  List.length (register pid slots) = List.length slots.
Proof.
  induction slots as [|p t IH]; cbn; [reflexivity|].
  destruct (p =? 0); cbn; [reflexivity|now rewrite IH].
Qed.

(** X8. [register] puts the pid in the first empty slot and touches no
    other slot; when no slot is empty the table stays as it is and the
    job is not tracked. *)
Theorem register_first_empty (pid : Z) (slots : list Z) :
  List.length (register pid slots) = List.length slots /\
  (forall full rest,
     slots = full ++ 0 :: rest -> Forall (fun p => p <> 0) full ->
     register pid slots = full ++ pid :: rest) /\
  (Forall (fun p => p <> 0) slots -> register pid slots = slots).
Proof.
  split; [|split].
  - apply register_length.
  - intros full rest -> Hfull. induction Hfull as [|p full Hp _ IH]; cbn.
    + reflexivity.
    + apply Z.eqb_neq in Hp. now rewrite Hp, IH.
  - induction 1 as [|p t Hp _ IH]; cbn; [reflexivity|].
    apply Z.eqb_neq in Hp. now rewrite Hp, IH.
Qed.

Lemma set_children_same s : set_children (children s) s = s.
Proof. now destruct s. Qed.

Lemma lookup_remove_other p q t :
  q <> p -> Kernel.lookup q (Kernel.remove p t) = Kernel.lookup q t.
Proof.
  intros Hqp. induction t as [|[r st] t IH]; cbn; [reflexivity|].
  destruct (r =? p) eqn:Erp.
  - apply Z.eqb_eq in Erp. subst r.
    replace (p =? q) with false by (symmetry; apply Z.eqb_neq; congruence).
    reflexivity.
  - cbn. destruct (r =? q); [reflexivity|exact IH].
Qed.

(** One slot of the sweep, when the kernel knows the child. *)
Lemma sweep_slot_known cs ind s pid :
  nth ind (bgRunning s) 0 = pid ->
  (pid <> 0 -> Kernel.lookup pid (children s) <> None) ->
  let r := sweep_slot cs ind s in
  (exists cs', how r = Next cs') /\
  events r = slot_events (children s) pid /\
  bgRunning (after r)
  = (if pid =? slot_after (children s) pid then bgRunning s
     else update ind 0 (bgRunning s)) /\
  (forall q, q <> pid -> Kernel.lookup q (children (after r)) = Kernel.lookup q (children s)).
Proof.
  intros Hn Hk. cbn zeta. unfold sweep_slot, slot_events, slot_after.
  rewrite bind_get, Hn. destruct (pid =? 0) eqn:E0.
  { cbn. rewrite ?E0. repeat split; eauto. }
  apply Z.eqb_neq in E0. specialize (Hk E0).
  pose proof (waitpid_result pid cs true s) as Hw. unfold Kernel.waitpid in Hw.
  destruct (Kernel.lookup pid (children s)) as [[|status]|] eqn:El; [| |congruence].
  - rewrite (bind_result _ _ _ _ _ _ Hw). cbn. rewrite Z.eqb_refl.
    repeat split; eauto.
  - rewrite (bind_result _ _ _ _ _ _ Hw). cbn [fst snd].
    replace (pid =? 0) with false by (symmetry; now apply Z.eqb_neq).
    unfold settled, clear_slot, printf.
    destruct (WIFEXITED status) eqn:Ee; [|destruct (WIFSIGNALED status) eqn:Es]; cbn.
    + replace (pid =? 0) with false by (symmetry; now apply Z.eqb_neq).
      repeat split; eauto. intros q Hq. now apply lookup_remove_other.
    + replace (pid =? 0) with false by (symmetry; now apply Z.eqb_neq).
      repeat split; eauto. intros q Hq. now apply lookup_remove_other.
    + rewrite Z.eqb_refl. repeat split; eauto.
      intros q Hq. now apply lookup_remove_other.
Qed.

Lemma slot_same_table t t' pid :
  Kernel.lookup pid t' = Kernel.lookup pid t ->
  slot_after t' pid = slot_after t pid /\ slot_events t' pid = slot_events t pid.
Proof. intros H. unfold slot_after, slot_events. now rewrite H. Qed.

Lemma flat_map_same {A B} (f g : A -> list B) (l : list A) :
  (forall a, In a l -> f a = g a) -> flat_map f l = flat_map g l.
Proof.
  induction l as [|a l IH]; intros H; cbn; [reflexivity|].
  rewrite (H a (or_introl eq_refl)), IH; [reflexivity|].
  intros b Hb. apply H. now right.
Qed.

Lemma slot_after_cases t pid : slot_after t pid = pid \/ slot_after t pid = 0.
Proof.
  unfold slot_after. destruct (Z.eqb_spec pid 0) as [->|]; [now left|].
  destruct (Kernel.lookup pid t) as [[|status]|]; auto.
  destruct (settled status); auto.
Qed.

Lemma nth_middle_Z (pre rest : list Z) (p : Z) :
  nth (List.length pre) (pre ++ p :: rest) 0 = p.
Proof. apply nth_middle. Qed.

Lemma sweep_loop rest : forall pre s cs,
  bgRunning s = pre ++ rest ->
  NoDup (filter occupied rest) ->
  (forall pid, In pid rest -> pid <> 0 -> Kernel.lookup pid (children s) <> None) ->
  let r := foldM sweep_slot (seq (List.length pre) (List.length rest)) cs s in
  (exists cs', how r = Next cs') /\
  events r = flat_map (slot_events (children s)) rest /\
  bgRunning (after r) = pre ++ map (slot_after (children s)) rest.
Proof.
  induction rest as [|p rest IH]; intros pre s cs Hb Hnd Hk; cbn zeta.
  - cbn. rewrite app_nil_r in *. eauto.
  - cbn [List.length seq foldM].
    assert (Hn : nth (List.length pre) (bgRunning s) 0 = p)
      by (rewrite Hb; apply nth_middle_Z).
    destruct (sweep_slot_known cs (List.length pre) s p Hn (Hk p (or_introl eq_refl)))
      as ([cs1 Hh] & Hev & Hbg & Hch).
    set (s1 := after (sweep_slot cs (List.length pre) s)) in *.
    assert (Hb1 : bgRunning s1 = (pre ++ [slot_after (children s) p]) ++ rest).
    { rewrite Hbg, Hb, <- app_assoc. cbn [app].
      destruct (p =? slot_after (children s) p) eqn:E.
      - apply Z.eqb_eq in E. now rewrite <- E.
      - rewrite update_at_end.
        destruct (slot_after_cases (children s) p) as [H|H]; rewrite H in *;
          [now rewrite Z.eqb_refl in E|reflexivity]. }
    assert (Hother : forall q, In q rest -> q <> 0 ->
                               Kernel.lookup q (children s1) = Kernel.lookup q (children s)).
    { intros q Hq Hq0. apply Hch. intros Heq. subst q.
      cbn [filter] in Hnd. unfold occupied at 1 in Hnd.
      replace (p =? 0) with false in Hnd by (symmetry; now apply Z.eqb_neq).
      cbn [negb] in Hnd. apply NoDup_cons_iff in Hnd. destruct Hnd as [Hnotin _].
      apply Hnotin, filter_In. split; [exact Hq|].
      unfold occupied. now replace (p =? 0) with false by (symmetry; now apply Z.eqb_neq). }
    assert (Hnd1 : NoDup (filter occupied rest)).
    { cbn [filter] in Hnd.
      destruct (occupied p); [now apply NoDup_cons_iff in Hnd|exact Hnd]. }
    assert (Hk1 : forall pid, In pid rest -> pid <> 0 ->
                              Kernel.lookup pid (children s1) <> None).
    { intros q Hq Hq0. rewrite (Hother q Hq Hq0). apply Hk; [now right|exact Hq0]. }
    pose proof (IH (pre ++ [slot_after (children s) p]) s1 cs1 Hb1 Hnd1 Hk1) as IH1.
    cbn zeta in IH1. rewrite length_app in IH1. cbn [List.length] in IH1.
    replace (List.length pre + 1)%nat with (S (List.length pre)) in IH1 by lia.
    destruct IH1 as ([cs2 Hh2] & Hev2 & Hbg2).
    rewrite (bind_next _ _ _ _ Hh). cbn [how events after]. fold s1.
    split; [eauto|]. split.
    + rewrite Hev, Hev2. cbn [flat_map]. f_equal.
      apply flat_map_same. intros q Hq.
      destruct (Z.eq_dec q 0) as [->|Hq0]; [reflexivity|].
      apply slot_same_table, (Hother q Hq Hq0).
    + rewrite Hbg2, <- app_assoc. cbn [app map]. do 2 f_equal.
      apply map_ext_in. intros q Hq.
      destruct (Z.eq_dec q 0) as [->|Hq0]; [reflexivity|].
      apply slot_same_table, (Hother q Hq Hq0).
Qed.

(** X9. The sweep, when the pids in the table are distinct and known to
    the kernel: slot by slot it polls each pid once, prints one notice
    with the child's own status for each child that has exited or been
    killed and frees exactly those slots; a running child keeps its
    slot.  Nothing depends on what [childStatus] held before. *)
Theorem sweep_reports (cs : Z) (s : state) :
  NoDup (filter occupied (bgRunning s)) ->
  tracked_known s ->
  let r := sweep cs s in
  events r = flat_map (slot_events (children s)) (bgRunning s) /\
  bgRunning (after r) = map (slot_after (children s)) (bgRunning s).
Proof.
  intros Hnd Hk. cbn zeta. unfold sweep. rewrite bind_get.
  destruct (sweep_loop (bgRunning s) [] s cs eq_refl Hnd Hk) as (_ & Hev & Hbg).
  split; [exact Hev|exact Hbg].
Qed.

Lemma sweep_reports_witness :
  let s := set_children [(8, Running); (5, Zombie (exited_with 3)); (9, Zombie (killed_by 15))]
             (set_bgRunning [5; 0; 8; 9] initial) in
  events (sweep 0 s)
  = [Waitpid 5 true; Output (done_exit 5 (exited_with 3));
     Waitpid 8 true;
     Waitpid 9 true; Output (done_signal 9 (killed_by 15))] /\
  bgRunning (after (sweep 0 s)) = [0; 0; 8; 0].
Proof.
  cbn zeta.
  refine (sweep_reports 0
            (set_children [(8, Running); (5, Zombie (exited_with 3)); (9, Zombie (killed_by 15))]
               (set_bgRunning [5; 0; 8; 9] initial)) _ _).
  - cbn. repeat constructor; cbn; intuition discriminate.
  - intros pid Hin Hp. cbn in Hin.
    destruct Hin as [<-|[<-|[<-|[<-|[]]]]]; cbn; congruence.
Defined.

Lemma sweep_slot_running cs ind s :
  (forall pid, In pid (bgRunning s) -> pid <> 0 ->
               Kernel.lookup pid (children s) = Some Running) ->
  let r := sweep_slot cs ind s in
  how r = Next cs /\ after r = s /\
  Forall (fun e => exists pid, e = Waitpid pid true) (events r).
Proof.
  intros Hrun. cbn zeta. unfold sweep_slot. rewrite bind_get.
  destruct (nth ind (bgRunning s) 0 =? 0) eqn:E0.
  { cbn. repeat split. constructor. }
  apply Z.eqb_neq in E0.
  assert (Hin : In (nth ind (bgRunning s) 0) (bgRunning s)).
  { destruct (nth_in_or_default ind (bgRunning s) 0) as [H|H]; [exact H|congruence]. }
  pose proof (waitpid_result (nth ind (bgRunning s) 0) cs true s) as Hw.
  unfold Kernel.waitpid in Hw. rewrite (Hrun _ Hin E0) in Hw.
  rewrite (bind_result _ _ _ _ _ _ Hw). cbn.
  rewrite set_children_same. repeat split. repeat constructor. eauto.
Qed.

(** X10. While every tracked child is still running the sweep changes
    nothing and prints nothing: it only polls. *)
Theorem sweep_leaves_running (cs : Z) (s : state) :
  (forall pid, In pid (bgRunning s) -> pid <> 0 ->
               Kernel.lookup pid (children s) = Some Running) ->
  let r := sweep cs s in
  after r = s /\
  Forall (fun e => exists pid, e = Waitpid pid true) (events r).
Proof.
  intros Hrun. cbn zeta. unfold sweep. rewrite bind_get.
  generalize (seq 0 (List.length (bgRunning s))). intros l.
  induction l as [|ind l IH]; cbn [foldM].
  - cbn. split; [reflexivity|constructor].
  - destruct (sweep_slot_running cs ind s Hrun) as (Hh & Ha & He).
    rewrite (bind_next _ _ _ _ Hh). cbn [events after]. rewrite Ha.
    destruct IH as [IH1 IH2]. split; [exact IH1|].
    apply Forall_app. split; assumption.
Qed.

Lemma sweep_leaves_running_witness :
  let s := set_children [(8, Running); (5, Running)] (set_bgRunning [5; 0; 8] initial) in
  after (sweep 0 s) = s /\
  Forall (fun e => exists pid, e = Waitpid pid true) (events (sweep 0 s)).
Proof.
  cbn zeta. apply sweep_leaves_running.
  intros pid Hin Hp. cbn in Hin.
  destruct Hin as [<-|[<-|[<-|[]]]]; cbn; congruence.
Defined.

(** ** [exit] *)

Lemma kill_keeps_known p q t :
  Kernel.lookup q (snd (Kernel.kill p t)) = None <-> Kernel.lookup q t = None.
Proof.
  unfold Kernel.kill. destruct (Kernel.lookup p t) as [[|status]|] eqn:E; cbn [snd];
    try reflexivity.
  cbn [Kernel.lookup]. destruct (Z.eqb_spec p q) as [->|Hpq].
  - rewrite E. split; discriminate.
  - rewrite lookup_remove_other by congruence. reflexivity.
Qed.

Lemma kill_return p t :
  fst (Kernel.kill p t) = match Kernel.lookup p t with None => -1 | Some _ => 0 end.
Proof. unfold Kernel.kill. now destruct (Kernel.lookup p t) as [[|status]|]. Qed.

Lemma kill_report_same t t' pid :
  (Kernel.lookup pid t' = None <-> Kernel.lookup pid t = None) ->
  kill_report t' pid = kill_report t pid.
Proof.
  intros H. unfold kill_report. destruct (pid =? 0); [reflexivity|].
  destruct (Kernel.lookup pid t') eqn:E1; destruct (Kernel.lookup pid t) eqn:E2;
    try reflexivity.
  - destruct H as [_ H]. specialize (H eq_refl). discriminate.
  - destruct H as [H _]. specialize (H eq_refl). discriminate.
Qed.

Lemma kill_slot_result ind s :
  let pid := nth ind (bgRunning s) 0 in
  let r := kill_slot tt ind s in
  how r = Next tt /\
  events r = kill_report (children s) pid /\
  bgRunning (after r) = bgRunning s /\
  lfStatus (after r) = lfStatus s /\
  (forall q, Kernel.lookup q (children (after r)) = None <->
             Kernel.lookup q (children s) = None).
Proof.
  cbn zeta. unfold kill_slot, kill_report, printf. rewrite bind_get.
  destruct (nth ind (bgRunning s) 0 =? 0).
  { cbn. repeat split; auto. }
  rewrite (bind_next (emit _) _ s tt eq_refl). cbn [emit events after].
  rewrite (bind_next (emit _) _ s tt eq_refl). cbn [emit events after].
  pose proof (kill_keeps_known (nth ind (bgRunning s) 0)) as Hk.
  pose proof (kill_return (nth ind (bgRunning s) 0) (children s)) as Hr.
  destruct (Kernel.kill (nth ind (bgRunning s) 0) (children s)) as [killReturn t] eqn:Ek.
  cbn [fst] in Hr. subst killReturn.
  rewrite (bind_next (modify _) _ s tt eq_refl). cbn [modify events after].
  assert (Hq : forall q, Kernel.lookup q t = None <-> Kernel.lookup q (children s) = None).
  { intros q. specialize (Hk q (children s)). rewrite Ek in Hk. exact Hk. }
  destruct (Kernel.lookup (nth ind (bgRunning s) 0) (children s)) as [st|];
    cbn; repeat split; try reflexivity; apply Hq.
Qed.

Lemma kill_loop rest : forall pre s,
  bgRunning s = pre ++ rest ->
  let r := foldM kill_slot (seq (List.length pre) (List.length rest)) tt s in
  how r = Next tt /\
  events r = flat_map (kill_report (children s)) rest /\
  bgRunning (after r) = bgRunning s /\
  lfStatus (after r) = lfStatus s.
Proof.
  induction rest as [|p rest IH]; intros pre s Hb; cbn zeta.
  - cbn. auto.
  - cbn [List.length seq foldM].
    destruct (kill_slot_result (List.length pre) s) as (Hh & Hev & Hbg & Hlf & Hk).
    rewrite Hb, nth_middle_Z in Hev.
    set (s1 := after (kill_slot tt (List.length pre) s)) in *.
    assert (Hb1 : bgRunning s1 = (pre ++ [p]) ++ rest)
      by (rewrite Hbg, Hb, <- app_assoc; reflexivity).
    pose proof (IH (pre ++ [p]) s1 Hb1) as IH1. cbn zeta in IH1.
    rewrite length_app in IH1. cbn [List.length] in IH1.
    replace (List.length pre + 1)%nat with (S (List.length pre)) in IH1 by lia.
    destruct IH1 as (Hh2 & Hev2 & Hbg2 & Hlf2).
    rewrite (bind_next _ _ _ _ Hh). cbn [how events after]. fold s1.
    split; [exact Hh2|]. split; [|split; congruence].
    rewrite Hev, Hev2. cbn [flat_map]. f_equal.
    apply flat_map_same. intros q _. apply kill_report_same, Hk.
Qed.

(** X11. [exit] sends SIGKILL once to every pid in the job table, in slot
    order, and to nothing else; it reports "was not killed" exactly for
    the pids the kernel no longer knows; it waits for none of them,
    leaves the table as it is and ends the interpreter with status 0. *)
Theorem exit_builtin (o : oracle) (s : state)
        (bytes : list ascii) (line : string) (com : command) :
  o_getline o = Some bytes ->
  expanded_line (o_getpid o) bytes (o_slack o) = Some line ->
  parse_tokens (o_stray o) (token_stream line) = Built com ->
  nth 0 (args com) None = Some "exit"%string ->
  let p := after (prelude o s) in
  let r := runShell o s in
  how r = Exited 0 /\
  events r = events (prelude o s) ++ flat_map (kill_report (children p)) (bgRunning p) /\
  bgRunning (after r) = bgRunning p /\
  lfStatus (after r) = lfStatus s.
Proof.
  intros Hg He Hp Hn. cbn zeta.
  rewrite (runShell_built o s bytes line com Hg He Hp (built_first_arg _ _ _ _ Hp Hn)).
  cbn zeta. unfold dispatch. rewrite apply_mode_args, Hn.
  cbn [String.eqb Ascii.eqb Bool.eqb].
  set (p := after (prelude o s)).
  destruct (kill_loop (bgRunning p) [] p eq_refl) as (Hh & Hev & Hbg & Hlf).
  cbn [List.length] in *.
  assert (Hk : kill_all p
               = foldM kill_slot (seq 0 (List.length (bgRunning p))) tt p)
    by (unfold kill_all; now rewrite bind_get).
  rewrite <- Hk in Hh, Hev, Hbg, Hlf.
  rewrite (bind_next _ _ _ _ Hh). cbn [exit_ how events after].
  rewrite app_nil_r, Hev, Hbg, Hlf. repeat split.
  apply (prelude_keeps_status o s).
Qed.

Lemma exit_builtin_witness :
  let o := typed "exit" in
  let s := set_children [(5, Running)] (set_bgRunning [5; 0; 6] initial) in
  let p := after (prelude o s) in
  let r := runShell o s in
  how r = Exited 0 /\
  events r = events (prelude o s) ++ flat_map (kill_report (children p)) (bgRunning p) /\
  bgRunning (after r) = bgRunning p /\
  lfStatus (after r) = lfStatus s.
Proof.
  cbn zeta.
  refine (exit_builtin (typed "exit")
            (set_children [(5, Running)] (set_bgRunning [5; 0; 6] initial))
            (bytes_of "exit") "exit"%string _ eq_refl _ _ _).
  - vm_compute. reflexivity.
  - vm_compute. reflexivity.
  - vm_compute. reflexivity.
Defined.

(** ** Failures of [fork] and of the read *)

(** X12. When [fork] fails the interpreter reports it and ends with status
    1 at once: the background jobs are neither killed nor waited for. *)
Theorem fork_failure_ends_interpreter (o : oracle) (s : state)
        (bytes : list ascii) (line : string) (com : command) (name : string) :
  o_getline o = Some bytes ->
  expanded_line (o_getpid o) bytes (o_slack o) = Some line ->
  parse_tokens (o_stray o) (token_stream line) = Built com ->
  nth 0 (args com) None = Some name ->
  name <> "exit"%string -> name <> "cd"%string -> name <> "status"%string ->
  o_fork o = None ->
  let r := runShell o s in
  how r = Exited 1 /\
  events r = events (prelude o s) ++ [Perror ("fork()" ++ newline)] /\
  after r = after (prelude o s).
Proof.
  intros Hg He Hp Hn H1 H2 H3 Hf. cbn zeta.
  rewrite (runShell_built o s bytes line com Hg He Hp (built_first_arg _ _ _ _ Hp Hn)).
  cbn zeta. unfold dispatch. rewrite apply_mode_args, Hn, Hf.
  apply String.eqb_neq in H1, H2, H3. rewrite H1, H2, H3.
  cbn. auto.
Qed.

Lemma fork_failure_ends_interpreter_witness :
  let o := Oracle 0 (Some (bytes_of "ls")) (room 120) 4567 None None None Running in
  let r := runShell o initial in
  how r = Exited 1 /\
  events r = events (prelude o initial) ++ [Perror ("fork()" ++ newline)] /\
  after r = after (prelude o initial).
Proof.
  cbn zeta.
  refine (fork_failure_ends_interpreter
            (Oracle 0 (Some (bytes_of "ls")) (room 120) 4567 None None None Running)
            initial (bytes_of "ls") "ls"%string _ "ls"%string
            eq_refl _ _ _ _ _ _ eq_refl).
  - vm_compute. reflexivity.
  - vm_compute. reflexivity.
  - vm_compute. reflexivity.
  - discriminate.
  - discriminate.
  - discriminate.
Defined.

Lemma prelude_events o s :
  exists before,
    events (prelude o s) = before ++ [Output ":"] /\
    Forall not_prompt before.
Proof.
  unfold prelude.
  destruct (mode_notice_completes s) as [[] Hn].
  rewrite (bind_next _ _ _ _ Hn). cbn [events].
  set (s1 := after (mode_notice s)).
  destruct (sweep_completes (o_childStatus o) s1) as [cs Hs].
  rewrite (bind_next _ _ _ _ Hs). cbn [events printf emit].
  exists (events (mode_notice s) ++ events (sweep (o_childStatus o) s1)).
  split; [now rewrite app_assoc|].
  apply Forall_app. split.
  - assert (H : emits not_prompt mode_notice).
    { unfold mode_notice, printf. emits_all ltac:(reflexivity). }
    apply H.
  - apply (sweep_emits not_prompt); intros; reflexivity.
Qed.

Lemma filter_none {A} (f : A -> bool) l :
  Forall (fun a => f a = false) l -> filter f l = [].
Proof. induction 1 as [|a l Ha _ IH]; cbn; [reflexivity|]. now rewrite Ha. Qed.

(** An iteration whose read fails (end of input, or a signal during
    the read): one prompt, a newline, and back to [main] with -1. *)
Lemma failed_read_iteration o s :
  o_getline o = None ->
  let r := runShell o s in
  how r = Returned (-1) /\
  events r = events (prelude o s) ++ [Output newline] /\
  after r = after (prelude o s).
Proof.
  intros Hg. cbn zeta. rewrite runShell_parts. cbn zeta.
  unfold command_part. rewrite Hg. cbn. auto.
Qed.

(** X13. At end of input the interpreter does not stop: [main] ignores the
    -1 of [runShell], so every further iteration prompts again.  Over
    such a history there is one prompt per iteration, no process is
    created, the recorded status stays, and the interpreter is still
    running at the end. *)
Theorem end_of_input_keeps_prompting (history : list arrival) (s : state) :
  reads_nothing history ->
  let r := main history s in
  how r = Next tt /\
  List.length (filter is_prompt (events r)) = List.length (filter is_iteration history) /\
  Forall not_fork (events r) /\
  lfStatus (after r) = lfStatus s.
Proof.
  intros H. revert s. induction H as [|a history Ha _ IH]; intros s; cbn zeta.
  - cbn. repeat split. constructor.
  - destruct a as [|pid status|o]; cbn [main filter is_iteration].
    + destruct (IH (tstpHandler s)) as (H1 & H2 & H3 & H4).
      split; [exact H1|]. split; [exact H2|]. split; [exact H3|].
      rewrite H4. unfold tstpHandler. now destruct (foregroundOnly s =? 0).
    + destruct (IH (set_children (terminate pid status (children s)) s))
        as (H1 & H2 & H3 & H4). auto.
    + destruct (failed_read_iteration o s Ha) as (Hh & Hev & Haf).
      rewrite Hh. cbn [how events after].
      destruct (IH (after (runShell o s))) as (H1 & H2 & H3 & H4).
      split; [exact H1|]. split; [|split].
      * rewrite Hev. destruct (prelude_events o s) as (before & -> & Hb).
        rewrite !filter_app, (filter_none _ _ Hb). cbn [filter is_prompt app].
        cbn. now rewrite H2.
      * apply Forall_app. split; [|exact H3].
        rewrite Hev. apply Forall_app. split; [apply prelude_no_fork|].
        repeat constructor.
      * rewrite H4, Haf. apply (prelude_keeps_status o s).
Qed.

Lemma end_of_input_keeps_prompting_witness :
  let eof := Oracle 0 None [] 4567 None None None Running in
  let r := main [Iteration eof; Toggle; Iteration eof; Iteration eof] initial in
  how r = Next tt /\
  List.length (filter is_prompt (events r)) = 3%nat /\
  Forall not_fork (events r) /\
  lfStatus (after r) = lfStatus initial.
Proof.
  cbn zeta.
  apply (end_of_input_keeps_prompting
           [Iteration (Oracle 0 None [] 4567 None None None Running); Toggle;
            Iteration (Oracle 0 None [] 4567 None None None Running);
            Iteration (Oracle 0 None [] 4567 None None None Running)] initial).
  repeat constructor.
Defined.

(** ** What the loop keeps *)

Lemma update_length {A} (l : list A) n x : List.length (update n x l) = List.length l.
Proof.
  revert n. induction l as [|h l IH]; intros n; [now destruct n|].
  destruct n; cbn; [reflexivity|now rewrite IH].
Qed.

Lemma same_size_refl s : same_size s s.
Proof. reflexivity. Qed.

Lemma same_size_trans s1 s2 s3 : same_size s1 s2 -> same_size s2 s3 -> same_size s1 s3.
Proof. unfold same_size. congruence. Qed.

Ltac solve_size :=
  first [ reflexivity
        | unfold same_size; cbn; apply update_length
        | unfold same_size; cbn; apply register_length ].

Ltac size_all := keeps_all same_size_refl same_size_trans solve_size.

Lemma waitpid_keeps_size pid old nohang : keeps same_size (waitpid pid old nohang).
Proof. unfold waitpid. size_all. Qed.

Lemma sweep_keeps_size cs : keeps same_size (sweep cs).
Proof.
  unfold sweep, sweep_slot, clear_slot, printf.
  step_keeps same_size_refl same_size_trans; [step_keeps same_size_refl same_size_trans|].
  step_keeps same_size_refl same_size_trans.
  step_keeps same_size_refl same_size_trans; [step_keeps same_size_refl same_size_trans|].
  cases; [step_keeps same_size_refl same_size_trans|].
  step_keeps same_size_refl same_size_trans; [apply waitpid_keeps_size|].
  size_all.
Qed.

Lemma parent_keeps_size pid com : keeps same_size (parent pid com).
Proof.
  unfold parent, printf. cases.
  - step_keeps same_size_refl same_size_trans; [step_keeps same_size_refl same_size_trans|].
    step_keeps same_size_refl same_size_trans; [size_all|].
    step_keeps same_size_refl same_size_trans; [step_keeps same_size_refl same_size_trans|].
    step_keeps same_size_refl same_size_trans; [apply waitpid_keeps_size|].
    size_all.
  - step_keeps same_size_refl same_size_trans; [step_keeps same_size_refl same_size_trans|].
    step_keeps same_size_refl same_size_trans; [apply waitpid_keeps_size|].
    size_all.
Qed.

Lemma kill_all_keeps_size : keeps same_size kill_all.
Proof. unfold kill_all, kill_slot, printf. size_all. Qed.

Lemma dispatch_keeps_size o com : keeps same_size (dispatch o com).
Proof.
  unfold dispatch, printf. cases; [|step_keeps same_size_refl same_size_trans].
  cases.
  { step_keeps same_size_refl same_size_trans;
      [apply kill_all_keeps_size|step_keeps same_size_refl same_size_trans]. }
  cases; [size_all|]. cases; [size_all|]. cases; [|size_all].
  step_keeps same_size_refl same_size_trans; [step_keeps same_size_refl same_size_trans|].
  step_keeps same_size_refl same_size_trans; [size_all|].
  step_keeps same_size_refl same_size_trans;
    [apply parent_keeps_size|step_keeps same_size_refl same_size_trans].
Qed.

Lemma runShell_keeps_size o : keeps same_size (runShell o).
Proof.
  unfold runShell, prelude, command_part, interpret, mode_notice, printf.
  step_keeps same_size_refl same_size_trans.
  - step_keeps same_size_refl same_size_trans; [size_all|].
    step_keeps same_size_refl same_size_trans;
      [apply sweep_keeps_size|step_keeps same_size_refl same_size_trans].
  - cases; [|size_all].
    cases; [|step_keeps same_size_refl same_size_trans].
    cases; [size_all|step_keeps same_size_refl same_size_trans|].
    cases; [step_keeps same_size_refl same_size_trans|].
    step_keeps same_size_refl same_size_trans;
      [step_keeps same_size_refl same_size_trans|apply dispatch_keeps_size].
Qed.

Lemma handler_makes_flags_valid s : flags_valid (tstpHandler s).
Proof.
  unfold flags_valid, tstpHandler. destruct (foregroundOnly s =? 0); cbn; auto.
Qed.

(** X14. Whatever signals arrive, children die and commands are typed, the
    two flags only ever hold 0 or 1 and the job table keeps its number
    of slots (1000 from the start): no command and no failure grows or
    shrinks it. *)
Theorem loop_invariants (history : list arrival) (s : state) :
  flags_valid s ->
  let r := main history s in
  flags_valid (after r) /\
  List.length (bgRunning (after r)) = List.length (bgRunning s).
Proof.
  revert s. induction history as [|a history IH]; intros s Hv; cbn zeta.
  - cbn. auto.
  - destruct a as [|pid status|o]; cbn [main].
    + destruct (IH (tstpHandler s) (handler_makes_flags_valid s)) as [H1 H2].
      split; [exact H1|]. rewrite H2. unfold tstpHandler.
      now destruct (foregroundOnly s =? 0).
    + apply (IH (set_children (terminate pid status (children s)) s)). exact Hv.
    + destruct Hv as [Hm Hc].
      destruct (iteration_notice o s Hm Hc) as (Hfo & Hch & _).
      pose proof (runShell_keeps_size o s) as Hsz. unfold same_size in Hsz.
      assert (Hv1 : flags_valid (after (runShell o s))).
      { split; [rewrite Hfo; exact Hm|left; exact Hch]. }
      destruct (how (runShell o s)); cbn [after]; auto;
        destruct (IH (after (runShell o s)) Hv1) as [H1 H2];
        (split; [exact H1|congruence]).
Qed.

Lemma loop_invariants_witness :
  let r := main [Toggle; Iteration (typed "sleep 5 &"); Toggle; Toggle;
                 Iteration (typed "ls"); Ends 77 0; Iteration (typed "status")] initial in
  flags_valid (after r) /\
  List.length (bgRunning (after r)) = List.length (bgRunning initial).
Proof.
  cbn zeta. apply loop_invariants. split; left; reflexivity.
Defined.

(** ** A foreground command that terminates *)

Lemma parent_reaps pid com s st t :
  background com = 0 ->
  children s = (pid, Zombie st) :: t ->
  parent pid com s
  = Result (Waitpid pid false :: (if st =? 2 then [Output interrupted] else []))
           (Next tt) (set_lfStatus st (set_children t s)).
Proof.
  intros Hb Hc. unfold parent. rewrite Hb. cbn [Z.eqb andb].
  rewrite bind_get.
  pose proof (waitpid_child pid (lfStatus s) false s (Zombie st) t Hc) as Hw.
  rewrite (bind_result _ _ _ _ _ _ Hw).
  rewrite (bind_next (modify _) _ _ tt eq_refl).
  cbn [modify events how after app snd]. rewrite andb_true_r. unfold printf.
  destruct (st =? 2); reflexivity.
Qed.

(** X15. A command run in the foreground whose child terminates with status
    [st]: the parent makes one blocking wait, which takes the child out
    of the kernel's table again, records [st] as the status [status]
    will report, leaves the job table alone, and prints "terminated by
    signal 2" exactly when [st] is 2 (killed by SIGINT, no core). *)
Theorem foreground_command_completes (o : oracle) (s : state)
        (bytes : list ascii) (line : string) (com : command)
        (name : string) (pid st : Z) :
  o_getline o = Some bytes ->
  expanded_line (o_getpid o) bytes (o_slack o) = Some line ->
  parse_tokens (o_stray o) (token_stream line) = Built com ->
  nth 0 (args com) None = Some name ->
  name <> "exit"%string -> name <> "cd"%string -> name <> "status"%string ->
  o_fork o = Some pid ->
  o_child o = Zombie st ->
  let p := after (prelude o s) in
  let r := runShell o s in
  let run := apply_mode (foregroundOnly s) com in
  background run = 0 ->
  how r = Returned 0 /\
  events r = events (prelude o s)
             ++ [Fork pid (child run); Waitpid pid false]
             ++ (if st =? 2 then [Output interrupted] else []) /\
  lfStatus (after r) = st /\
  children (after r) = children p /\
  bgRunning (after r) = bgRunning p.
Proof.
  intros Hg He Hp Hn H1 H2 H3 Hf Hz. cbn zeta. intros Hb.
  rewrite (runShell_built o s bytes line com Hg He Hp (built_first_arg _ _ _ _ Hp Hn)).
  cbn zeta. set (p := after (prelude o s)).
  set (run := apply_mode (foregroundOnly s) com) in *.
  assert (Hn' : nth 0 (args run) None = Some name)
    by (unfold run; now rewrite apply_mode_args).
  assert (Hpar : parent pid run (set_children ((pid, o_child o) :: children p) p)
                 = Result (Waitpid pid false :: (if st =? 2 then [Output interrupted] else []))
                          (Next tt)
                          (set_lfStatus st
                             (set_children (children p)
                                (set_children ((pid, o_child o) :: children p) p)))).
  { apply parent_reaps; [exact Hb|]. rewrite Hz. reflexivity. }
  rewrite (dispatch_external o run p name pid Hn' H1 H2 H3 Hf)
    by (rewrite Hpar; reflexivity).
  rewrite Hpar. cbn [events how after]. repeat split.
Qed.

Lemma foreground_command_completes_witness :
  let o := with_child (Zombie (killed_by 2)) (typed "sleep 100") in
  let r := runShell o initial in
  how r = Returned 0 /\
  events r = events (prelude o initial)
             ++ [Fork 77 (child (Command (update 0 (Some "sleep"%string)
                                   (update 1 (Some "100"%string) (repeat None 512)))
                                   EmptyString EmptyString 0 2));
                 Waitpid 77 false]
             ++ [Output interrupted] /\
  lfStatus (after r) = killed_by 2 /\
  children (after r) = children (after (prelude o initial)) /\
  bgRunning (after r) = bgRunning (after (prelude o initial)).
Proof.
  cbn zeta.
  refine (foreground_command_completes
            (with_child (Zombie (killed_by 2)) (typed "sleep 100")) initial
            (bytes_of "sleep 100") "sleep 100"%string _ "sleep"%string 77 (killed_by 2)
            eq_refl _ _ _ _ _ _ eq_refl eq_refl _).
  - vm_compute. reflexivity.
  - vm_compute. reflexivity.
  - vm_compute. reflexivity.
  - discriminate.
  - discriminate.
  - discriminate.
  - vm_compute. reflexivity.
Defined.

(** ** A command started in the background *)

Lemma parent_polls pid com s c t :
  background com = 1 ->
  children s = (pid, c) :: t ->
  let r := parent pid com s in
  how r = Next tt /\
  events r = [Output (started pid); Waitpid pid true] /\
  bgRunning (after r) = register pid (bgRunning s) /\
  lfStatus (after r) = lfStatus s /\
  children (after r) = match c with Running => (pid, Running) :: t | Zombie _ => t end.
Proof.
  intros Hb Hc. cbn zeta. unfold parent. rewrite Hb. cbn [Z.eqb Pos.eqb].
  unfold printf. rewrite (bind_next (emit _) _ s tt eq_refl). cbn [emit events after].
  rewrite (bind_next (modify _) _ s tt eq_refl). cbn [modify events after].
  rewrite bind_get.
  set (s1 := set_bgRunning (register pid (bgRunning s)) s).
  assert (Hc1 : children s1 = (pid, c) :: t) by exact Hc.
  pose proof (waitpid_child pid (bgStatus s1) true s1 c t Hc1) as Hw.
  destruct c as [|st]; rewrite (bind_result _ _ _ _ _ _ Hw);
    cbn [modify events how after app snd];
    repeat (split; [reflexivity|]); reflexivity.
Qed.

(** X16. A command run in the background: the parent prints the pid, puts
    it in the first free slot of the job table and polls the child once
    without blocking; it prints no completion notice, leaves the status
    that [status] reports alone and returns to the prompt.  A child
    that had already terminated is taken out of the kernel's table by
    that poll while its pid stays in the job table. *)
Theorem background_command_is_tracked (o : oracle) (s : state)
        (bytes : list ascii) (line : string) (com : command)
        (name : string) (pid : Z) :
  o_getline o = Some bytes ->
  expanded_line (o_getpid o) bytes (o_slack o) = Some line ->
  parse_tokens (o_stray o) (token_stream line) = Built com ->
  nth 0 (args com) None = Some name ->
  name <> "exit"%string -> name <> "cd"%string -> name <> "status"%string ->
  o_fork o = Some pid ->
  let p := after (prelude o s) in
  let r := runShell o s in
  let run := apply_mode (foregroundOnly s) com in
  background run = 1 ->
  how r = Returned 0 /\
  events r = events (prelude o s)
             ++ [Fork pid (child run); Output (started pid); Waitpid pid true] /\
  bgRunning (after r) = register pid (bgRunning p) /\
  lfStatus (after r) = lfStatus p /\
  children (after r) = match o_child o with
                       | Running => (pid, Running) :: children p
                       | Zombie _ => children p
                       end.
Proof.
  intros Hg He Hp Hn H1 H2 H3 Hf. cbn zeta. intros Hb.
  rewrite (runShell_built o s bytes line com Hg He Hp (built_first_arg _ _ _ _ Hp Hn)).
  cbn zeta. set (p := after (prelude o s)).
  set (run := apply_mode (foregroundOnly s) com) in *.
  assert (Hn' : nth 0 (args run) None = Some name)
    by (unfold run; now rewrite apply_mode_args).
  destruct (parent_polls pid run (set_children ((pid, o_child o) :: children p) p)
              (o_child o) (children p) Hb eq_refl) as (Hh & Hev & Hbg & Hlf & Hch).
  rewrite (dispatch_external o run p name pid Hn' H1 H2 H3 Hf Hh).
  cbn [events how after]. rewrite Hev.
  split; [reflexivity|]. split; [reflexivity|].
  split; [exact Hbg|]. split; [exact Hlf|exact Hch].
Qed.

Lemma background_command_is_tracked_witness :
  let o := with_child Running (typed "sleep 100 &") in
  let r := runShell o initial in
  how r = Returned 0 /\
  nth 0 (bgRunning (after r)) 0 = 77 /\
  children (after r) = [(77, Running)].
Proof.
  cbn zeta.
  destruct (background_command_is_tracked
              (with_child Running (typed "sleep 100 &")) initial
              (bytes_of "sleep 100 &") "sleep 100 &"%string
              (Command (update 0 (Some "sleep"%string)
                          (update 1 (Some "100"%string) (repeat None 512)))
                       EmptyString EmptyString 1 3)
              "sleep"%string 77)
    as (Hh & _ & Hbg & _ & Hch).
  - reflexivity.
  - vm_compute. reflexivity.
  - vm_compute. reflexivity.
  - vm_compute. reflexivity.
  - discriminate.
  - discriminate.
  - discriminate.
  - reflexivity.
  - vm_compute. reflexivity.
  - split; [exact Hh|]. split.
    + rewrite Hbg. vm_compute. reflexivity.
    + rewrite Hch. vm_compute. reflexivity.
Defined.

(** ** Redirection and the child *)

Lemma fd_lookup_close_same fd t : Fd.lookup fd (Fd.close fd t) = None.
Proof.
  induction t as [|[d f] t IH]; cbn; [reflexivity|].
  destruct (d =? fd) eqn:E; [exact IH|]. cbn. now rewrite E.
Qed.

Lemma fd_lookup_close_other fd d t :
  d <> fd -> Fd.lookup d (Fd.close fd t) = Fd.lookup d t.
Proof.
  intros Hd. induction t as [|[e f] t IH]; cbn; [reflexivity|].
  destruct (e =? fd) eqn:E.
  - apply Z.eqb_eq in E. subst e.
    replace (fd =? d) with false by (symmetry; apply Z.eqb_neq; congruence).
    exact IH.
  - cbn. destruct (e =? d); [reflexivity|exact IH].
Qed.

Lemma fd_lookup_set_same fd f t : Fd.lookup fd (Fd.set fd f t) = Some f.
Proof. unfold Fd.set. cbn. now rewrite Z.eqb_refl. Qed.

Lemma fd_lookup_set_other fd d f t :
  d <> fd -> Fd.lookup d (Fd.set fd f t) = Fd.lookup d t.
Proof.
  intros Hd. unfold Fd.set. cbn.
  replace (fd =? d) with false by (symmetry; apply Z.eqb_neq; congruence).
  now apply fd_lookup_close_other.
Qed.

Lemma inputRedirection_shape k input t :
  inputRedirection k input t = redirect_to k input O_RDONLY 0 t.
Proof. reflexivity. Qed.

Lemma outputRedirection_shape k output t :
  outputRedirection k output t = redirect_to k output O_WRONLY_CREAT_TRUNC 1 t.
Proof. reflexivity. Qed.

Lemma redirect_to_result k path acc target t :
  target <> -1 ->
  c_open k path acc = -1 \/
  (c_open k path acc <> target /\ Fd.lookup (c_open k path acc) t = None) ->
  let r := redirect_to k path acc target t in
  (returned r = 0 \/ returned r = 1) /\
  (returned r = 0 <->
   c_open k path acc <> -1 /\ c_dup2 k (c_open k path acc) target = true) /\
  reported r = (if returned r =? 0 then [] else [Perror path]) /\
  Fd.lookup target (table_after r)
  = (if returned r =? 0 then Some (File path acc) else Fd.lookup target t) /\
  (forall d, d <> target -> Fd.lookup d (table_after r) = Fd.lookup d t).
Proof.
  intros Ht Hfd. cbn zeta. unfold redirect_to, open, dup2, returned, reported, table_after.
  destruct (c_open k path acc =? -1) eqn:E1.
  { apply Z.eqb_eq in E1. cbn.
    repeat split; auto; try discriminate; try tauto; try (intros [H _]; congruence). }
  apply Z.eqb_neq in E1. destruct Hfd as [Hfd|[Hn Hfresh]]; [congruence|].
  set (fd := c_open k path acc) in *.
  replace (fd =? -1) with false by (symmetry; now apply Z.eqb_neq).
  rewrite fd_lookup_set_same.
  assert (Hclose : forall d u, (d <> fd -> Fd.lookup d u = Fd.lookup d t) ->
            Fd.lookup d (Fd.close fd u) = Fd.lookup d t).
  { intros d u Hu. destruct (Z.eq_dec d fd) as [Hd|Hd].
    - subst d. now rewrite fd_lookup_close_same, Hfresh.
    - rewrite fd_lookup_close_other by assumption. now apply Hu. }
  destruct (c_dup2 k fd target) eqn:Ed; cbn [negb].
  - replace (fd =? target) with false by (symmetry; now apply Z.eqb_neq).
    replace (target =? -1) with false by (symmetry; now apply Z.eqb_neq).
    cbn [fst snd Z.eqb].
    split; [now left|]. split; [tauto|]. split; [reflexivity|]. split.
    + rewrite fd_lookup_close_other by congruence. apply fd_lookup_set_same.
    + intros d Hd. apply Hclose. intros Hdf.
      rewrite fd_lookup_set_other by assumption.
      now apply fd_lookup_set_other.
  - cbn [fst snd Z.eqb].
    split; [now right|]. split; [split; [discriminate|intros [_ H]; discriminate]|].
    split; [reflexivity|].
    assert (Hall : forall d, Fd.lookup d (Fd.close fd (Fd.set fd (File path acc) t))
                             = Fd.lookup d t).
    { intros d. apply Hclose. intros Hd. now apply fd_lookup_set_other. }
    split; [apply Hall|]. intros d _. apply Hall.
Qed.

(** X17. [inputRedirection] (lines 32-45), when [open] fails or gives a
    descriptor other than 0 that was not open: it returns 0 or 1, and 0
    exactly when both [open] and [dup2] succeed; it reports through
    [perror] exactly when it returns 1; on success descriptor 0 refers to
    the file, opened read-only, on failure descriptor 0 is what it was;
    every other descriptor is as before, so the descriptor opened for
    the file does not stay open. *)
Theorem input_redirection_result k input t :
  c_open k input O_RDONLY = -1 \/
  (c_open k input O_RDONLY <> 0 /\ Fd.lookup (c_open k input O_RDONLY) t = None) ->
  let r := inputRedirection k input t in
  (returned r = 0 \/ returned r = 1) /\
  (returned r = 0 <->
   c_open k input O_RDONLY <> -1 /\ c_dup2 k (c_open k input O_RDONLY) 0 = true) /\
  reported r = (if returned r =? 0 then [] else [Perror input]) /\
  Fd.lookup 0 (table_after r)
  = (if returned r =? 0 then Some (File input O_RDONLY) else Fd.lookup 0 t) /\
  (forall d, d <> 0 -> Fd.lookup d (table_after r) = Fd.lookup d t).
Proof.
  intros H. apply (redirect_to_result k input O_RDONLY 0 t); [discriminate|exact H].
Qed.

Lemma input_redirection_result_witness :
  let k := Files_oracle (fun _ _ => 3) (fun _ _ => true) true in
  let t := [(0, File "/dev/tty" O_RDONLY); (1, File "/dev/tty" O_WRONLY_CREAT_TRUNC)] in
  Fd.lookup 0 (table_after (inputRedirection k "notes" t)) = Some (File "notes" O_RDONLY) /\
  Fd.lookup 3 (table_after (inputRedirection k "notes" t)) = None.
Proof.
  intros k t.
  assert (Hfresh : c_open k "notes" O_RDONLY = -1 \/
                   (c_open k "notes" O_RDONLY <> 0 /\
                    Fd.lookup (c_open k "notes" O_RDONLY) t = None)).
  { right. split; [discriminate|reflexivity]. }
  destruct (input_redirection_result k "notes" t Hfresh) as (_ & _ & _ & H0 & Hd).
  split; [exact H0|]. apply Hd. discriminate.
Defined.

(** X18. [outputRedirection] (lines 48-62), when [open] fails or gives a
    descriptor other than 1 that was not open: it returns 0 exactly when
    both [open] and [dup2] succeed and 1 otherwise, reports through
    [perror] exactly when it returns 1, makes descriptor 1 refer to the
    file on success and leaves it alone on failure, and leaves every
    other descriptor as it was. *)
Theorem output_redirection_result k output t :
  c_open k output O_WRONLY_CREAT_TRUNC = -1 \/
  (c_open k output O_WRONLY_CREAT_TRUNC <> 1 /\
   Fd.lookup (c_open k output O_WRONLY_CREAT_TRUNC) t = None) ->
  let r := outputRedirection k output t in
  (returned r = 0 \/ returned r = 1) /\
  (returned r = 0 <->
   c_open k output O_WRONLY_CREAT_TRUNC <> -1 /\
   c_dup2 k (c_open k output O_WRONLY_CREAT_TRUNC) 1 = true) /\
  reported r = (if returned r =? 0 then [] else [Perror output]) /\
  Fd.lookup 1 (table_after r)
  = (if returned r =? 0 then Some (File output O_WRONLY_CREAT_TRUNC) else Fd.lookup 1 t) /\
  (forall d, d <> 1 -> Fd.lookup d (table_after r) = Fd.lookup d t).
Proof.
  intros H.
  apply (redirect_to_result k output O_WRONLY_CREAT_TRUNC 1 t); [discriminate|exact H].
Qed.

Lemma output_redirection_result_witness :
  let k := Files_oracle (fun _ _ => -1) (fun _ _ => true) true in
  let t := [(0, File "/dev/tty" O_RDONLY); (1, File "/dev/tty" O_WRONLY_CREAT_TRUNC)] in
  returned (outputRedirection k "/no/such/dir/out" t) = 1 /\
  reported (outputRedirection k "/no/such/dir/out" t) = [Perror "/no/such/dir/out"].
Proof.
  intros k t.
  assert (Hfails : c_open k "/no/such/dir/out" O_WRONLY_CREAT_TRUNC = -1 \/
                   (c_open k "/no/such/dir/out" O_WRONLY_CREAT_TRUNC <> 1 /\
                    Fd.lookup (c_open k "/no/such/dir/out" O_WRONLY_CREAT_TRUNC) t = None)).
  { left. reflexivity. }
  destruct (output_redirection_result k "/no/such/dir/out" t Hfails)
    as ([H0|H1] & _ & Hrep & _).
  - discriminate H0.
  - split; [exact H1|]. rewrite Hrep, H1. reflexivity.
Defined.

(** X19. When descriptor 1 is closed in the child, [open] hands out 1
    itself; [outputRedirection] then duplicates 1 onto 1, closes it and
    returns 0 without a message: it reports success while descriptor 1
    ends closed. *)
Theorem output_redirection_onto_itself k output t :
  Fd.lookup 1 t = None ->
  c_open k output O_WRONLY_CREAT_TRUNC = 1 ->
  c_dup2 k 1 1 = true ->
  let r := outputRedirection k output t in
  returned r = 0 /\ reported r = [] /\
  Fd.lookup 1 (table_after r) = None /\
  (forall d, d <> 1 -> Fd.lookup d (table_after r) = Fd.lookup d t).
Proof.
  intros Hclosed Hopen Hdup. cbn zeta.
  unfold outputRedirection, open, dup2, returned, reported, table_after.
  rewrite Hopen. cbn [Z.eqb Pos.eqb]. rewrite fd_lookup_set_same, Hdup.
  cbn [negb Z.eqb Pos.eqb fst snd].
  split; [reflexivity|]. split; [reflexivity|]. split.
  - apply fd_lookup_close_same.
  - intros d Hd. rewrite fd_lookup_close_other by assumption.
    now apply fd_lookup_set_other.
Qed.

Lemma output_redirection_onto_itself_witness :
  let k := Files_oracle (fun _ _ => 1) (fun _ _ => true) true in
  let t := [(0, File "/dev/tty" O_RDONLY)] in
  returned (outputRedirection k "out" t) = 0 /\
  Fd.lookup 1 (table_after (outputRedirection k "out" t)) = None.
Proof.
  intros k t.
  destruct (output_redirection_onto_itself k "out" t eq_refl eq_refl eq_refl)
    as (H0 & _ & H1 & _).
  split; assumption.
Defined.

(** Whatever the kernel answers, a redirection function returns 0
    silently or 1 after one [perror] of the path. *)
Lemma redirect_to_outcome k path acc target t :
  target <> -1 ->
  exists t',
    redirect_to k path acc target t = (0, [], t') \/
    redirect_to k path acc target t = (1, [Perror path], t').
Proof.
  intros Ht. unfold redirect_to, open, dup2.
  destruct (c_open k path acc =? -1) eqn:E1.
  { eexists. right. reflexivity. }
  cbv beta iota. rewrite E1, fd_lookup_set_same.
  destruct (c_dup2 k (c_open k path acc) target); cbn [negb].
  - destruct (c_open k path acc =? target);
      replace (target =? -1) with false by (symmetry; now apply Z.eqb_neq);
      eexists; left; reflexivity.
  - eexists. right. reflexivity.
Qed.

Lemma input_outcome k path t :
  exists t',
    inputRedirection k path t = (0, [], t') \/
    inputRedirection k path t = (1, [Perror path], t').
Proof. apply (redirect_to_outcome k path O_RDONLY 0 t). discriminate. Qed.

Lemma output_outcome k path t :
  exists t',
    outputRedirection k path t = (0, [], t') \/
    outputRedirection k path t = (1, [Perror path], t').
Proof. apply (redirect_to_outcome k path O_WRONLY_CREAT_TRUNC 1 t). discriminate. Qed.

Lemma attempt_false act redir st : attempt false act redir st = (st, true).
Proof. reflexivity. Qed.

Lemma attempt_true_outcome act redir path st :
  (forall t, exists t', redir t = (0, [], t') \/ redir t = (1, [Perror path], t')) ->
  exists t',
    attempt true act redir st
    = (Child_state (steps st ++ [act]) (reports st) t', true)
    \/
    attempt true act redir st
    = (Child_state (steps st ++ [act]) (reports st ++ [Perror path]) t', false).
Proof.
  intros Hr. unfold attempt.
  destruct (Hr (descr st)) as [t' [H|H]];
    rewrite H; exists t'; [left|right]; cbn [Z.eqb negb]; [|reflexivity].
  now rewrite app_nil_r.
Qed.

Ltac child_attempt :=
  match goal with
  | |- context [attempt false ?a ?r ?st] => rewrite (attempt_false a r st)
  | |- context [attempt true ?a (inputRedirection ?k ?p) ?st] =>
      let t' := fresh "t'" in
      let E := fresh "E" in
      destruct (attempt_true_outcome a (inputRedirection k p) p st (input_outcome k p))
        as [t' [E|E]]; rewrite E
  | |- context [attempt true ?a (outputRedirection ?k ?p) ?st] =>
      let t' := fresh "t'" in
      let E := fresh "E" in
      destruct (attempt_true_outcome a (outputRedirection k p) p st (output_outcome k p))
        as [t' [E|E]]; rewrite E
  end; cbv beta iota.

(** X20. The child (lines 313-354), whatever the kernel answers: either
    it becomes the program, having taken exactly the steps the parent's
    trace records for the command and reported nothing, or it calls
    [exit(1)] after exactly one [perror] message, having taken a prefix
    of those steps.  It never ends silently and never with another
    status. *)
Theorem child_replaced_or_reports (k : files_oracle) (com : command) (t : descriptors) :
  let r := run_child k com t in
  (run_end r = Replaced (nth 0 (args com) None) (exec_vector (args com)) /\
   c_execvp k = true /\
   steps (run_state r) = child com /\
   reports (run_state r) = [])
  \/
  (run_end r = Ended 1 /\
   (exists rest, child com = steps (run_state r) ++ rest) /\
   exists text, reports (run_state r) = [Perror text]).
Proof.
  cbn zeta. unfold run_child, child.
  destruct (String.eqb (input com) EmptyString),
           (String.eqb (output com) EmptyString),
           (background com =? 1);
    cbn [negb andb];
    repeat child_attempt;
    try destruct (c_execvp k);
    cbn [run_end run_state steps reports descr app];
    first
      [ left; split; [reflexivity|]; split; [reflexivity|]; split; reflexivity
      | right; split; [reflexivity|]; split; eexists; reflexivity ].
Qed.

Lemma attempt_table k wanted act path acc target st :
  target <> -1 ->
  (wanted = true ->
   c_open k path acc <> -1 /\ c_open k path acc <> target /\
   Fd.lookup (c_open k path acc) (descr st) = None /\
   c_dup2 k (c_open k path acc) target = true) ->
  exists st',
    attempt wanted act (redirect_to k path acc target) st = (st', true) /\
    steps st' = steps st ++ (if wanted then [act] else []) /\
    reports st' = reports st /\
    forall d, Fd.lookup d (descr st')
              = if wanted && (d =? target) then Some (File path acc)
                else Fd.lookup d (descr st).
Proof.
  intros Ht Hw. destruct wanted.
  - destruct (Hw eq_refl) as (Hopen & Hnt & Hfresh & Hdup).
    pose proof (redirect_to_result k path acc target (descr st) Ht
                  (or_intror (conj Hnt Hfresh))) as Hr.
    cbn zeta in Hr. destruct Hr as (_ & Hiff & Hrep & Htar & Hoth).
    assert (H0 : returned (redirect_to k path acc target (descr st)) = 0)
      by (apply Hiff; now split).
    rewrite H0 in Hrep, Htar. cbn [Z.eqb] in Hrep, Htar.
    unfold attempt.
    destruct (redirect_to k path acc target (descr st)) as [[res said] t'].
    unfold returned, reported, table_after in *. cbn [fst snd] in *. subst res said.
    eexists. split; [reflexivity|]. cbn [steps reports descr Z.eqb negb andb].
    split; [reflexivity|]. split; [apply app_nil_r|].
    intros d. destruct (Z.eqb_spec d target) as [->|Hd].
    + exact Htar.
    + now apply Hoth.
  - exists st. split; [reflexivity|]. split; [now rewrite app_nil_r|].
    split; reflexivity.
Qed.

Lemma attempt_input k wanted act path st :
  (wanted = true ->
   c_open k path O_RDONLY <> -1 /\ c_open k path O_RDONLY <> 0 /\
   Fd.lookup (c_open k path O_RDONLY) (descr st) = None /\
   c_dup2 k (c_open k path O_RDONLY) 0 = true) ->
  exists st',
    attempt wanted act (inputRedirection k path) st = (st', true) /\
    steps st' = steps st ++ (if wanted then [act] else []) /\
    reports st' = reports st /\
    forall d, Fd.lookup d (descr st')
              = if wanted && (d =? 0) then Some (File path O_RDONLY)
                else Fd.lookup d (descr st).
Proof. apply (attempt_table k wanted act path O_RDONLY 0 st). discriminate. Qed.

Lemma attempt_output k wanted act path st :
  (wanted = true ->
   c_open k path O_WRONLY_CREAT_TRUNC <> -1 /\ c_open k path O_WRONLY_CREAT_TRUNC <> 1 /\
   Fd.lookup (c_open k path O_WRONLY_CREAT_TRUNC) (descr st) = None /\
   c_dup2 k (c_open k path O_WRONLY_CREAT_TRUNC) 1 = true) ->
  exists st',
    attempt wanted act (outputRedirection k path) st = (st', true) /\
    steps st' = steps st ++ (if wanted then [act] else []) /\
    reports st' = reports st /\
    forall d, Fd.lookup d (descr st')
              = if wanted && (d =? 1) then Some (File path O_WRONLY_CREAT_TRUNC)
                else Fd.lookup d (descr st).
Proof. apply (attempt_table k wanted act path O_WRONLY_CREAT_TRUNC 1 st). discriminate. Qed.

(** X21. The descriptors the program starts with.  When every [open]
    gives a descriptor other than 0 and 1 that the child did not have
    open and every [dup2] succeeds, the child reaches [execvp] with:
    descriptor 0 on the input file when one was given, else on
    /dev/null for a background command, else as inherited; descriptor 1
    likewise for the output file; every other descriptor as inherited
    (nothing opened for a redirection stays open); SIGTSTP ignored, and
    SIGINT ignored for a background command and at its default for a
    foreground one. *)
Theorem child_descriptors (k : files_oracle) (com : command) (t : descriptors) :
  (forall path acc,
     c_open k path acc <> -1 /\ c_open k path acc <> 0 /\ c_open k path acc <> 1 /\
     Fd.lookup (c_open k path acc) t = None) ->
  (forall a b, c_dup2 k a b = true) ->
  let r := run_child k com t in
  Fd.lookup 0 (descr (run_state r))
  = redirected (input com) O_RDONLY (background com) (Fd.lookup 0 t) /\
  Fd.lookup 1 (descr (run_state r))
  = redirected (output com) O_WRONLY_CREAT_TRUNC (background com) (Fd.lookup 1 t) /\
  (forall d, d <> 0 -> d <> 1 -> Fd.lookup d (descr (run_state r)) = Fd.lookup d t) /\
  steps (run_state r) = child com /\
  run_sigtstp r = Ignored /\
  run_sigint r = (if background com =? 0 then By_default else Ignored) /\
  run_end r = (if c_execvp k
               then Replaced (nth 0 (args com) None) (exec_vector (args com))
               else Ended 1).
Proof.
  intros Hopen Hdup. cbn zeta. unfold run_child.
  set (st0 := Child_state _ [] t).
  assert (Hfresh : forall st path acc,
            (forall d, d <> 0 -> d <> 1 -> Fd.lookup d (descr st) = Fd.lookup d t) ->
            Fd.lookup (c_open k path acc) (descr st) = None).
  { intros st path acc Hst. destruct (Hopen path acc) as (_ & H0 & H1 & Hn).
    now rewrite Hst. }
  assert (Hkeep : forall (w : bool) target (f : file) u d,
            (forall e, e <> 0 -> e <> 1 -> Fd.lookup e u = Fd.lookup e t) ->
            target = 0 \/ target = 1 -> d <> 0 -> d <> 1 ->
            (if w && (d =? target) then Some f else Fd.lookup d u) = Fd.lookup d t).
  { intros w target f u d Hu Ht H0 H1.
    replace (d =? target) with false by (symmetry; apply Z.eqb_neq; lia).
    rewrite andb_false_r. now apply Hu. }
  destruct (attempt_input k (negb (String.eqb (input com) EmptyString))
              (Stdin_from (input com)) (input com) st0) as (st1 & E1 & S1 & R1 & D1).
  { intros _. destruct (Hopen (input com) O_RDONLY) as (Ha & Hb & _ & Hc).
    repeat split; auto. }
  rewrite E1.
  assert (I1 : forall d, d <> 0 -> d <> 1 -> Fd.lookup d (descr st1) = Fd.lookup d t).
  { intros d H0 H1. rewrite D1. apply Hkeep; auto. }
  destruct (attempt_output k (negb (String.eqb (output com) EmptyString))
              (Stdout_to (output com)) (output com) st1) as (st2 & E2 & S2 & R2 & D2).
  { intros _. destruct (Hopen (output com) O_WRONLY_CREAT_TRUNC) as (Ha & _ & Hb & _).
    repeat split; auto. }
  rewrite E2.
  assert (I2 : forall d, d <> 0 -> d <> 1 -> Fd.lookup d (descr st2) = Fd.lookup d t).
  { intros d H0 H1. rewrite D2. apply Hkeep; auto. }
  destruct (attempt_input k ((background com =? 1) && String.eqb (input com) EmptyString)
              (Stdin_from null_device) null_device st2) as (st3 & E3 & S3 & R3 & D3).
  { intros _. destruct (Hopen null_device O_RDONLY) as (Ha & Hb & _ & _).
    repeat split; auto. }
  rewrite E3.
  assert (I3 : forall d, d <> 0 -> d <> 1 -> Fd.lookup d (descr st3) = Fd.lookup d t).
  { intros d H0 H1. rewrite D3. apply Hkeep; auto. }
  destruct (attempt_output k ((background com =? 1) && String.eqb (output com) EmptyString)
              (Stdout_to null_device) null_device st3) as (st4 & E4 & S4 & R4 & D4).
  { intros _. destruct (Hopen null_device O_WRONLY_CREAT_TRUNC) as (Ha & _ & Hb & _).
    repeat split; auto. }
  rewrite E4.
  assert (I4 : forall d, d <> 0 -> d <> 1 -> Fd.lookup d (descr st4) = Fd.lookup d t).
  { intros d H0 H1. rewrite D4. apply Hkeep; auto. }
  cbv beta iota zeta.
  assert (Hzero : Fd.lookup 0 (descr st4)
                  = redirected (input com) O_RDONLY (background com) (Fd.lookup 0 t)).
  { rewrite D4, D3, D2, D1. unfold redirected, st0. cbn [descr Z.eqb].
    rewrite !andb_false_r, !andb_true_r.
    destruct (String.eqb (input com) EmptyString), (background com =? 1); reflexivity. }
  assert (Hone : Fd.lookup 1 (descr st4)
                 = redirected (output com) O_WRONLY_CREAT_TRUNC (background com)
                              (Fd.lookup 1 t)).
  { rewrite D4, D3, D2, D1. unfold redirected, st0. cbn [descr Z.eqb Pos.eqb].
    rewrite !andb_false_r, !andb_true_r.
    destruct (String.eqb (output com) EmptyString), (background com =? 1); reflexivity. }
  assert (Hsteps : steps st4 ++ [Execvp (nth 0 (args com) None) (exec_vector (args com))]
                   = child com).
  { rewrite S4, S3, S2, S1. unfold child, st0. cbn [steps].
    destruct (String.eqb (input com) EmptyString),
             (String.eqb (output com) EmptyString),
             (background com =? 1); reflexivity. }
  destruct (c_execvp k);
    cbn [run_state run_end run_sigint run_sigtstp steps reports descr];
    repeat split; assumption.
Qed.

Lemma child_descriptors_witness :
  let k := Files_oracle (fun _ _ => 3) (fun _ _ => true) true in
  let t := [(0, File "/dev/tty" O_RDONLY); (1, File "/dev/tty" O_WRONLY_CREAT_TRUNC);
            (2, File "/dev/tty" O_WRONLY_CREAT_TRUNC)] in
  let com := Command [Some "sort"%string] "names"%string EmptyString 1 1 in
  Fd.lookup 0 (descr (run_state (run_child k com t))) = Some (File "names" O_RDONLY) /\
  Fd.lookup 1 (descr (run_state (run_child k com t)))
  = Some (File "/dev/null" O_WRONLY_CREAT_TRUNC) /\
  Fd.lookup 3 (descr (run_state (run_child k com t))) = None.
Proof.
  intros k t com.
  assert (Hopen : forall path acc,
            c_open k path acc <> -1 /\ c_open k path acc <> 0 /\ c_open k path acc <> 1 /\
            Fd.lookup (c_open k path acc) t = None).
  { intros path acc. repeat split; discriminate. }
  destruct (child_descriptors k com t Hopen (fun _ _ => eq_refl))
    as (H0 & H1 & Hd & _).
  split; [exact H0|]. split; [exact H1|]. apply Hd; discriminate.
Defined.

(** X22. A command whose input file cannot be opened: the child reports
    the file name through [perror] and calls [exit(1)] right after the
    two [sigaction] calls; it opens no output file, leaves its
    descriptors as inherited and never reaches [execvp]. *)
Theorem failed_input_stops_child (k : files_oracle) (com : command) (t : descriptors) :
  input com <> EmptyString ->
  c_open k (input com) O_RDONLY = -1 ->
  let r := run_child k com t in
  run_end r = Ended 1 /\
  steps (run_state r)
  = [Sigaction SIGTSTP SIG_IGN;
     Sigaction SIGINT (if background com =? 0 then SIG_DFL else SIG_IGN);
     Stdin_from (input com)] /\
  reports (run_state r) = [Perror (input com)] /\
  descr (run_state r) = t.
Proof.
  intros Hin Hopen. cbn zeta. unfold run_child.
  apply String.eqb_neq in Hin. rewrite Hin. cbn [negb].
  set (st0 := Child_state _ [] t).
  assert (E : attempt true (Stdin_from (input com)) (inputRedirection k (input com)) st0
              = (Child_state (steps st0 ++ [Stdin_from (input com)])
                             [Perror (input com)] t, false)).
  { unfold attempt, inputRedirection, open. cbn [descr st0]. rewrite Hopen. reflexivity. }
  rewrite E. cbv beta iota.
  cbn [run_end run_state steps reports descr app st0].
  repeat split.
Qed.

Lemma failed_input_stops_child_witness :
  let k := Files_oracle (fun _ _ => -1) (fun _ _ => true) true in
  let com := Command [Some "cat"%string] "missing"%string "out"%string 0 1 in
  run_end (run_child k com []) = Ended 1 /\
  reports (run_state (run_child k com [])) = [Perror "missing"].
Proof.
  intros k com.
  destruct (failed_input_stops_child k com [] ltac:(discriminate) eq_refl)
    as (He & _ & Hr & _).
  split; assumption.
Defined.

(** ** The behaviours the specification lists, on concrete runs *)

Example expand_one :
  expanded_line 4567 (bytes_of "echo $$") (room 120) = Some "echo 4567"%string.
Proof. vm_compute. reflexivity. Qed.

Example expand_two_short_pid :
  expanded_line 42 (bytes_of "echo $$ $$") (room 120) = Some "echo 42 42"%string.
Proof. vm_compute. reflexivity. Qed.

Example expand_lone_dollar :
  expanded_line 4567 (bytes_of "echo $$$") (room 120) = Some "echo 4567$"%string.
Proof. vm_compute. reflexivity. Qed.

Example expand_percent_is_undefined :
  expanded_line 4567 (bytes_of "echo %s $$") (room 120) = None.
Proof. vm_compute. reflexivity. Qed.

Example build_redirect :
  summary (parse_tokens None ["sort"; "-r"; "<"; "in"; ">"; "out"; "&"]%string)
  = Some (["sort"; "-r"]%string, "in"%string, "out"%string, 1, 2).
Proof. vm_compute. reflexivity. Qed.

Example build_operator_last :
  summary (parse_tokens None ["cat"; "<"]%string)
  = Some (["cat"]%string, EmptyString, EmptyString, 0, 1).
Proof. vm_compute. reflexivity. Qed.

Example build_amp_last :
  summary (parse_tokens None ["sleep"; "5"; "&"]%string)
  = Some (["sleep"; "5"]%string, EmptyString, EmptyString, 1, 3).
Proof. vm_compute. reflexivity. Qed.

Example status_before_any_command :
  events (main [Iteration (typed "status")] initial)
  = [Output ":"; Output ("exit value 0" ++ newline)].
Proof. vm_compute. reflexivity. Qed.

Example status_after_false :
  events (main [Iteration (with_child (Zombie (exited_with 1)) (typed "false"));
                Iteration (typed "status")] initial)
  = [Output ":";
     Fork 77 [Sigaction SIGTSTP SIG_IGN; Sigaction SIGINT SIG_DFL;
              Execvp (Some "false"%string) (Some ["false"%string])];
     Waitpid 77 false;
     Output ":"; Output ("exit value 1" ++ newline)].
Proof. vm_compute. reflexivity. Qed.

Example status_after_kill :
  events (main [Iteration (with_child (Zombie (killed_by 9)) (typed "sleep 100"));
                Iteration (typed "status")] initial)
  = [Output ":";
     Fork 77 [Sigaction SIGTSTP SIG_IGN; Sigaction SIGINT SIG_DFL;
              Execvp (Some "sleep"%string) (Some ["sleep"; "100"]%string)];
     Waitpid 77 false;
     Output ":"; Output ("terminated by signal 9" ++ newline)].
Proof. vm_compute. reflexivity. Qed.

(** A background child that is still running when the parent polls it
    and terminates later is reported once, with its own status, and its
    slot is freed. *)
Example background_reported_by_sweep :
  let r := main [Iteration (with_child Running (typed "sleep 1 &"));
                 Iteration (typed "status");
                 Ends 77 (exited_with 3);
                 Iteration (typed "status");
                 Iteration (typed "status")] initial in
  events r
  = [Output ":";
     Fork 77 [Sigaction SIGTSTP SIG_IGN; Sigaction SIGINT SIG_IGN;
              Stdin_from null_device; Stdout_to null_device;
              Execvp (Some "sleep"%string) (Some ["sleep"; "1"]%string)];
     Output (started 77); Waitpid 77 true;
     Waitpid 77 true; Output ":"; Output (status_text NEVER_RUN);
     Waitpid 77 true;
     Output ("background pid 77 is done. exit value 3" ++ newline);
     Output ":"; Output (status_text NEVER_RUN);
     Output ":"; Output (status_text NEVER_RUN)] /\
  nth 0 (bgRunning (after r)) 0 = 0 /\
  children (after r) = [].
Proof. vm_compute. repeat split. Qed.

Example toggle_twice_restores_mode :
  foregroundOnly (deliver 1 initial) = 1 /\ foregroundOnly (deliver 2 initial) = 0.
Proof. split; reflexivity. Qed.

Example suppressed_while_foreground_only :
  events (main [Toggle; Iteration (typed "sleep 5 &")] initial)
  = [Output entering; Output ":";
     Fork 77 [Sigaction SIGTSTP SIG_IGN; Sigaction SIGINT SIG_DFL;
              Execvp (Some "sleep"%string) (Some ["sleep"; "5"]%string)];
     Waitpid 77 false].
Proof. vm_compute. reflexivity. Qed.

Example cd_home :
  events (runShell (typed "cd") initial)
  = [Output ":"; Chdir (Some "/home/user"%string)].
Proof. vm_compute. reflexivity. Qed.

Example exit_kills_the_jobs :
  let r := main [Iteration (with_child Running (typed "sleep 100 &"));
                 Iteration (typed "exit")] initial in
  how r = Exited 0 /\
  events r
  = [Output ":";
     Fork 77 [Sigaction SIGTSTP SIG_IGN; Sigaction SIGINT SIG_IGN;
              Stdin_from null_device; Stdout_to null_device;
              Execvp (Some "sleep"%string) (Some ["sleep"; "100"]%string)];
     Output (started 77); Waitpid 77 true;
     Waitpid 77 true; Output ":";
     Output ("Attempting to kill 77" ++ newline); Kill 77;
     Output ("Process 77 was killed" ++ newline)].
Proof. vm_compute. repeat split. Qed.

Example comment_is_dropped :
  let r := runShell (typed "   # a comment $$") initial in
  events r = [Output ":"; Output newline] /\ how r = Returned 0.
Proof. vm_compute. repeat split. Qed.

(** *** The child of [sort < names > sorted &] *)

Example child_with_both_redirections :
  let k := Files_oracle (fun _ _ => 3) (fun _ _ => true) true in
  let com := Command [Some "sort"%string; None] "names" "sorted" 1 1 in
  let r := run_child k com [(0, File "/dev/tty" O_RDONLY);
                            (1, File "/dev/tty" O_WRONLY_CREAT_TRUNC)] in
  steps (run_state r) = child com /\
  descr (run_state r)
  = [(1, File "sorted" O_WRONLY_CREAT_TRUNC); (0, File "names" O_RDONLY)] /\
  run_sigint r = Ignored /\
  run_end r = Replaced (Some "sort"%string) (Some ["sort"%string]).
Proof. vm_compute. repeat split. Qed.

(** *** The child of a program that is not found *)

Example child_of_unknown_program :
  let k := Files_oracle (fun _ _ => 3) (fun _ _ => true) false in
  let com := Command [Some "nosuch"%string; None] EmptyString EmptyString 0 1 in
  let r := run_child k com [] in
  reports (run_state r) = [Perror "execvp"] /\ run_end r = Ended 1.
Proof. vm_compute. repeat split. Qed.
